(** * Synthetic P&C insurance warehouse: generator, gold metrics and scoring harness

    A shallow embedding of [generate_insurance_data.py] and
    [evals/run_eval.py], with the properties of the written specification
    stated and proved (or refuted) over it.

    Conventions of the embedding.
    - The process-wide [random] module is a state: a tape of raw draws and a
      cursor.  Every theorem quantifies over all tapes, so nothing depends on
      the particular generator behind [random.seed].  Faker keeps a random
      source of its own; it is a second tape, of strings.
    - Python exceptions are the [Raise] results of an error-and-state monad.
    - A [datetime] is a proleptic Gregorian ordinal day (as
      [date.toordinal()]) and a second of the day.  The generator stores
      [d.date().isoformat()]; for the years used here (four digits) that
      rendering is injective and order preserving, and the fields keep the
      day number itself.
    - The generator's floats ([random.uniform], [round(x, 2)], sums and
      ratios) are exact rationals; [py_round] rounds half to even.  The
      comparison code of the harness is modelled on IEEE-754 binary64
      ([spec_float] with precision 53). *)

From Stdlib Require Import ZArith QArith Qround String Ascii List Lia Lqa.
From Stdlib Require Import Floats.SpecFloat.
From stdpp Require Import gmap strings pretty sorting.

Local Open Scope Z_scope.

(* ===================================================================== *)
(** ** Exceptions, state and the monad of the generator                   *)
(* ===================================================================== *)

Inductive exn := IndexError | ValueError | KeyError | TypeError | OverflowError.

Inductive result (A : Type) :=
| Ok (a : A)
| Raise (e : exn).
Arguments Ok {A} a.
Arguments Raise {A} e.

Record World := mkWorld {
  rand_tape : nat → N;      (* raw draws of the [random] module *)
  rand_pos : nat;
  fake_tape : nat → string; (* texts produced by Faker *)
  fake_pos : nat;
}.

Definition M (A : Type) : Type := World → result (A * World).

#[global] Instance M_ret : MRet M := λ A a w, Ok (a, w).
#[global] Instance M_bind : MBind M := λ A B f m w,
  match m w with
  | Ok (a, w') => f a w'
  | Raise e => Raise e
  end.

Definition raise {A} (e : exn) : M A := λ _, Raise e.

(** Loops.  [for_each] is a [for] loop whose body updates the loop state;
    [for_loop] is one whose body may [return] from the enclosing function. *)
Fixpoint for_each {A S} (xs : list A) (body : A → S → M S) (s : S) : M S :=
  match xs with
  | [] => mret s
  | x :: xs' => s' ← body x s; for_each xs' body s'
  end.

Inductive ctl (S : Type) :=
| Continue (s : S)
| Return (s : S).
Arguments Continue {S} s.
Arguments Return {S} s.

Definition ctl_state {S} (c : ctl S) : S :=
  match c with Continue s | Return s => s end.

Fixpoint for_loop {A S} (xs : list A) (body : A → S → M (ctl S)) (s : S)
  : M (ctl S) :=
  match xs with
  | [] => mret (Continue s)
  | x :: xs' =>
      c ← body x s;
      match c with
      | Continue s' => for_loop xs' body s'
      | Return s' => mret (Return s')
      end
  end.

(** [range(a, b)] *)
Definition range (a b : Z) : list Z :=
  map (λ k, a + Z.of_nat k) (seq 0 (Z.to_nat (b - a))).

(* ===================================================================== *)
(** ** The [random] module and Faker                                      *)
(* ===================================================================== *)

Definition getrandbits : M N := λ w,
  Ok (rand_tape w (rand_pos w),
      mkWorld (rand_tape w) (S (rand_pos w)) (fake_tape w) (fake_pos w)).

(** [random.random()]: a multiple of 2^-53 in [0, 1). *)
Definition random : M Q :=
  r ← getrandbits;
  mret (Z.of_N r mod 2 ^ 53 # 2 ^ 53).

(** [random.randint(a, b)]: an integer N with a <= N <= b; an empty range
    raises [ValueError]. *)
Definition randint (a b : Z) : M Z :=
  if a <=? b then
    r ← getrandbits;
    mret (a + Z.of_N r mod (b - a + 1))
  else raise ValueError.

(** [random.choice(seq)]: an element of [seq]; [IndexError] when empty. *)
Definition choice {A} (seq : list A) : M A :=
  match seq with
  | [] => raise IndexError
  | x :: _ =>
      r ← getrandbits;
      mret (nth (Z.to_nat (Z.of_N r mod Z.of_nat (length seq))) seq x)
  end.

(** [random.uniform(a, b)] is [a + (b - a) * random()]. *)
Definition uniform (a b : Q) : M Q :=
  u ← random;
  mret (Qred (a + (b - a) * u)).

Definition Qltb (x y : Q) : bool := negb (Qle_bool y x).

(** Removes the element at index [k]. *)
Fixpoint remove_nth {A} (k : nat) (l : list A) : list A :=
  match l, k with
  | [], _ => []
  | _ :: l', O => l'
  | x :: l', S k' => x :: remove_nth k' l'
  end.

(** [random.sample(population, k)]: [k] elements at distinct positions. *)
Fixpoint sample_loop {A} (k : nat) (pool : list A) : M (list A) :=
  match k with
  | O => mret []
  | S k' =>
      match pool with
      | [] => raise ValueError
      | x :: _ =>
          r ← getrandbits;
          let j := Z.to_nat (Z.of_N r mod Z.of_nat (length pool)) in
          rest ← sample_loop k' (remove_nth j pool);
          mret (nth j pool x :: rest)
      end
  end.

Definition sample {A} (population : list A) (k : Z) : M (list A) :=
  if (0 <=? k) && (k <=? Z.of_nat (length population))
  then sample_loop (Z.to_nat k) population
  else raise ValueError.

(** One text from Faker ([fake.name()], [fake.bothify(...)], ...). *)
Definition fake : M string := λ w,
  Ok (fake_tape w (fake_pos w),
      mkWorld (rand_tape w) (rand_pos w) (fake_tape w) (S (fake_pos w))).

(** Python's [round(x, ndigits)], half to even, for [ndigits >= 0]. *)
Definition py_round (x : Q) (ndigits : Z) : Q :=
  let scale := inject_Z (10 ^ ndigits) in
  let s := (x * scale)%Q in
  let f := Qfloor s in
  let d := (s - inject_Z f)%Q in
  let r := if Qltb d (1 # 2) then f
           else if Qltb (1 # 2) d then f + 1
           else if Z.even f then f else f + 1 in
  Qred (inject_Z r / scale).

(** [f"{n:0{width}d}"] for a non-negative [n]. *)
Definition zfill (width : nat) (n : Z) : string :=
  let s := pretty n in
  String.concat "" (replicate (width - String.length s)%nat "0") +:+ s.

(* ===================================================================== *)
(** ** Dates                                                              *)
(* ===================================================================== *)

Definition date := Z.

Record datetime := mkDT { dt_day : date; dt_sec : Z }.

(** [t + timedelta(days=d)] *)
Definition add_days (t : datetime) (d : Z) : datetime :=
  mkDT (dt_day t + d) (dt_sec t).

(** [t + timedelta(hours=h, minutes=m, seconds=s)] *)
Definition add_hms (t : datetime) (h m s : Z) : datetime :=
  let total := dt_sec t + 3600 * h + 60 * m + s in
  mkDT (dt_day t + total / 86400) (total mod 86400).

(** [t.date()] *)
Definition to_date (t : datetime) : date := dt_day t.

Definition is_leap (y : Z) : bool :=
  (y mod 4 =? 0) && (negb (y mod 100 =? 0) || (y mod 400 =? 0)).

Definition days_before_year (y : Z) : Z :=
  let p := y - 1 in p * 365 + p / 4 - p / 100 + p / 400.

Definition days_before_month (y m : Z) : Z :=
  let base := nth (Z.to_nat (m - 1))
      [0; 31; 59; 90; 120; 151; 181; 212; 243; 273; 304; 334] 0 in
  if (2 <? m) && is_leap y then base + 1 else base.

(** [datetime(y, m, d)] at midnight. *)
Definition mk_datetime (y m d : Z) : datetime :=
  mkDT (days_before_year y + days_before_month y m + d) 0.

(** [date.fromordinal(d)] as (year, month, day). *)
Definition ymd_of (d : date) : Z * Z * Z :=
  let n := d - 1 in
  let n400 := n / 146097 in
  let n := n mod 146097 in
  let n100 := n / 36524 in
  let n := n mod 36524 in
  let n4 := n / 1461 in
  let n := n mod 1461 in
  let n1 := n / 365 in
  let n := n mod 365 in
  let year := n400 * 400 + 1 + n100 * 100 + n4 * 4 + n1 in
  if (n1 =? 4) || (n100 =? 4) then (year - 1, 12, 31)
  else
    let leapyear := (n1 =? 3) && (negb (n4 =? 24) || (n100 =? 3)) in
    let month := (n + 50) / 32 in
    let preceding := days_before_month (if leapyear then 4 else 1) month in
    if n <? preceding then
      let month' := month - 1 in
      (year, month', n - days_before_month (if leapyear then 4 else 1) month' + 1)
    else (year, month, n - preceding + 1).

(** The year of an ordinal day: what [int(d.isoformat()[:4])] reads. *)
Definition year_of (d : date) : Z := (ymd_of d).1.1.

(** [d.strftime("%Y-%m")] *)
Definition year_month (d : date) : string :=
  zfill 4 (ymd_of d).1.1 +:+ "-" +:+ zfill 2 (ymd_of d).1.2.

Definition rand_date (start_year end_year : Z) : M datetime :=
  let s := mk_datetime start_year 1 1 in
  let e := mk_datetime end_year 12 31 in
  let delta := dt_day e - dt_day s in
  k ← randint 0 delta;
  mret (add_days s k).

Definition rand_ts (base_date : datetime) : M datetime :=
  h ← randint 0 23;
  m ← randint 0 59;
  s ← randint 0 59;
  mret (add_hms base_date h m s).

Definition rand_premium : M Q :=
  u ← uniform (200 # 1) (25000 # 1);
  mret (py_round u 2).

Definition maybe_null {A} (value : A) (null_pct : Q) : M (option A) :=
  u ← random;
  mret (if Qltb u null_pct then None else Some value).

(* ===================================================================== *)
(** ** Configuration and code tables                                      *)
(* ===================================================================== *)

Definition NUM_POLICIES : Z := 5000.
Definition NUM_COVERAGES : Z := 12000.
Definition NUM_CLAIMS : Z := 3000.
Definition NUM_CLAIM_TRANSACTIONS : Z := 15000.
Definition NUM_QUOTES : Z := 8000.
Definition NUM_PREMIUM_TRANSACTIONS : Z := 20000.

Definition LOB_CODES : list string :=
  ["HO"; "AUTO"; "CGL"; "WC"; "BOP"; "CPP"; "FARM"; "IM"].

Definition LOB_NAMES : list (string * string) :=
  [("HO", "Homeowners"); ("AUTO", "Personal Auto");
   ("CGL", "Commercial General Liability"); ("WC", "Workers Compensation");
   ("BOP", "Business Owners Policy"); ("CPP", "Commercial Package Policy");
   ("FARM", "Farmowners"); ("IM", "Inland Marine")].

Definition COVERAGE_TYPES : list string :=
  ["BI"; "PD"; "COLL"; "COMP"; "UM"; "UIM"; "MED"; "LIAB"; "DWELLING";
   "CONTENTS"; "LOI"; "ADDL_LIVING"; "SCHED_PROP"; "GL"; "PROD_LIAB"].

Definition CLAIM_STATUSES : list string :=
  ["OPEN"; "CLOSED"; "REOPENED"; "SUBROGATION"; "LITIGATION"].

Definition CLAIM_CAUSES : list string :=
  ["FIRE"; "WATER"; "THEFT"; "COLLISION"; "WEATHER"; "SLIP_FALL";
   "VANDALISM"; "MALPRACTICE"; "PRODUCT_DEFECT"; "OTHER"].

Definition POLICY_STATUSES : list string :=
  ["ACTIVE"; "CANCELLED"; "EXPIRED"; "NON_RENEWED"; "PENDING"].

Definition SOURCE_SYSTEMS : list string :=
  ["LEGACY_AS400"; "GUIDEWIRE_PC"; "DUCK_CREEK"; "MANUAL_ENTRY"; "BROKER_FEED"].

(** [d[key]] on a table written as a dict literal. *)
Fixpoint assoc {V} (key : string) (d : list (string * V)) : option V :=
  match d with
  | [] => None
  | (k, v) :: d' => if String.eqb k key then Some v else assoc key d'
  end.

Definition lob_name (lob : string) : M string :=
  match assoc lob LOB_NAMES with
  | Some n => mret n
  | None => raise KeyError
  end.

(* ===================================================================== *)
(** ** Entities                                                           *)
(* ===================================================================== *)

(** Of an agent and an insured the generators below read the key, the
    state and the source system; the descriptive columns (names, address,
    licence) are carried by no later stage. *)
Record Agent := mkAgent {
  agent_id : Z;
  agent_code : string;
}.

Record Insured := mkInsured {
  insured_id : Z;
  insured_type : string;
  ins_state : string;
  ins_source_system : string;
}.

Record Policy := mkPolicy {
  pol_row_id : Z;
  pol_policy_id : Z;
  pol_policy_number : string;
  pol_version_number : Z;
  pol_insured_id : Z;
  pol_agent_id : Z;
  pol_line_of_business : string;
  pol_lob_description : string;
  pol_product_code : string;
  pol_effective_date : date;
  pol_expiration_date : date;
  pol_binding_date : date;
  pol_issue_date : date;
  pol_system_entry_date : date;
  pol_booking_date : date;
  pol_policy_status : string;
  pol_policy_term_months : Z;
  pol_state : string;
  pol_territory_code : string;
  pol_total_premium : Q;
  pol_total_exposure_units : Q;
  pol_deductible_amount : Z;
  pol_policy_limit : Z;
  pol_underwriter_id : Z;
  pol_cancellation_date : option date;
  pol_cancellation_reason : option string;
  pol_renewal_of_policy_id : option Z;
  pol_source_system : string;
  pol_is_current_record : bool;
  pol_is_deleted : bool;
  pol_valid_from : datetime;
  pol_valid_to : option datetime;
  pol_created_at : datetime;
  pol_updated_at : datetime;
}.

(* ===================================================================== *)
(** ** Versioned-policy generator                                         *)
(* ===================================================================== *)

(** The values drawn once per [policy_id], before the version loop. *)
Record PolicyBase := mkPolicyBase {
  pb_i : Z;
  pb_insured : Insured;
  pb_agent : Agent;
  pb_lob : string;
  pb_eff : datetime;
  pb_exp : datetime;
  pb_binding : datetime;
  pb_issue : datetime;
  pb_system_entry : datetime;
  pb_booking : datetime;
  pb_base_premium : Q;
  pb_base_exposure : Q;
  pb_base_status : string;
  pb_num_versions : Z;
}.

(** The body of [for v in range(num_versions)]; the loop state is
    [(row_id, policies)]. *)
Definition policy_version (b : PolicyBase) (v : Z) (st : Z * list Policy)
  : M (Z * list Policy) :=
  let row_id := st.1 + 1 in
  let is_current := v =? pb_num_versions b - 1 in
  d ← randint 10 90;
  let valid_from := add_days (pb_system_entry b) (v * d) in
  valid_to ← (if is_current then mret None
              else (d' ← randint 10 90; mret (Some (add_days valid_from d'))));
  '(premium, exposure, status, cancel_date, cancel_reason) ←
    (if v =? 0 then
       mret (pb_base_premium b, pb_base_exposure b, pb_base_status b,
             @None date, @None string)
     else
       f ← uniform (85 # 100) (125 # 100);
       let premium := py_round (pb_base_premium b * f) 2 in
       g ← uniform (9 # 10) (11 # 10);
       let exposure := py_round (pb_base_exposure b * g) 2 in
       u ← random;
       if Qltb u (3 # 10) then
         k ← randint 30 300;
         reason ← choice ["NON_PAY"; "INSURED_REQ"; "UW_ACTION"; "REWRITE"];
         mret (premium, exposure, "CANCELLED",
               Some (to_date (add_days (pb_eff b) k)), Some reason)
       else
         mret (premium, exposure, pb_base_status b, None, None));
  is_deleted ← (if negb is_current then (u ← random; mret (Qltb u (2 # 100)))
                else mret false);
  lob_description ← lob_name (pb_lob b);
  product ← choice ["STD"; "PREM"; "BASIC"];
  term ← choice [6; 12; 24];
  terr ← randint 1 50;
  deductible ← choice [250; 500; 1000; 2500; 5000];
  limit ← choice [100000; 250000; 500000; 1000000; 2000000];
  underwriter ← randint 1 20;
  prior ← randint 1 (Z.max 1 (pb_i b - 1));
  renewal ← maybe_null prior (7 # 10);
  source ← choice SOURCE_SYSTEMS;
  mret (row_id, st.2 ++ [
    {| pol_row_id := row_id;
       pol_policy_id := pb_i b;
       pol_policy_number := "POL-" +:+ pb_lob b +:+ "-" +:+ zfill 6 (pb_i b);
       pol_version_number := v + 1;
       pol_insured_id := insured_id (pb_insured b);
       pol_agent_id := agent_id (pb_agent b);
       pol_line_of_business := pb_lob b;
       pol_lob_description := lob_description;
       pol_product_code := pb_lob b +:+ "-" +:+ product;
       pol_effective_date := to_date (pb_eff b);
       pol_expiration_date := to_date (pb_exp b);
       pol_binding_date := to_date (pb_binding b);
       pol_issue_date := to_date (pb_issue b);
       pol_system_entry_date := to_date (pb_system_entry b);
       pol_booking_date := to_date (pb_booking b);
       pol_policy_status := status;
       pol_policy_term_months := term;
       pol_state := ins_state (pb_insured b);
       pol_territory_code := "T" +:+ zfill 2 terr;
       pol_total_premium := premium;
       pol_total_exposure_units := exposure;
       pol_deductible_amount := deductible;
       pol_policy_limit := limit;
       pol_underwriter_id := underwriter;
       pol_cancellation_date := cancel_date;
       pol_cancellation_reason := cancel_reason;
       pol_renewal_of_policy_id := renewal;
       pol_source_system := source;
       pol_is_current_record := is_current;
       pol_is_deleted := is_deleted;
       pol_valid_from := valid_from;
       pol_valid_to := valid_to;
       pol_created_at := pb_system_entry b;
       pol_updated_at := valid_from |}]).

(** The draws made once per policy, before its versions. *)
Definition policy_base (insureds : list Insured) (agents : list Agent) (i : Z)
  : M PolicyBase :=
  insured ← choice insureds;
  agent ← choice agents;
  lob ← choice LOB_CODES;
  eff ← rand_date 2020 2025;
  term_days ← choice [180; 365; 730];
  let exp := add_days eff term_days in
  k1 ← randint 1 30;
  let binding := add_days eff (- k1) in
  k2 ← randint 0 14;
  let issue := add_days binding k2 in
  k3 ← randint 0 5;
  let system_entry := add_days issue k3 in
  k4 ← randint 0 10;
  let booking := add_days system_entry k4 in
  base_premium ← rand_premium;
  e ← uniform (1 # 1) (100 # 1);
  let base_exposure := py_round e 2 in
  base_status ← choice POLICY_STATUSES;
  u ← random;
  num_versions ← (if Qltb u (30 # 100) then choice [2; 2; 3] else mret 1);
  mret (mkPolicyBase i insured agent lob eff exp binding issue system_entry
          booking base_premium base_exposure base_status num_versions).

(** The body of [for i in range(1, NUM_POLICIES + 1)]. *)
Definition policy_versions (insureds : list Insured) (agents : list Agent)
    (i : Z) (st : Z * list Policy) : M (Z * list Policy) :=
  b ← policy_base insureds agents i;
  for_each (range 0 (pb_num_versions b)) (policy_version b) st.

Definition gen_policies_with_cdc (insureds : list Insured) (agents : list Agent)
  : M (list Policy) :=
  st ← for_each (range 1 (NUM_POLICIES + 1)) (policy_versions insureds agents)
         (0, []);
  mret st.2.

Definition get_current_policies (policies : list Policy) : list Policy :=
  filter (λ p, pol_is_current_record p = true ∧ pol_is_deleted p = false)
    policies.

(* ===================================================================== *)
(** ** Derived entities: coverages, claims and their transactions         *)
(* ===================================================================== *)

Record Coverage := mkCoverage {
  cov_coverage_id : Z;
  cov_policy_id : Z;
  cov_coverage_code : string;
  cov_coverage_description : string;
  cov_coverage_limit : Z;
  cov_coverage_deductible : Z;
  cov_premium_amount : Q;
  cov_exposure_units : Q;
  cov_effective_date : date;
  cov_expiration_date : date;
  cov_rating_class_code : string;
}.

(** The body of [for _ in range(num_covs)]; the state is
    [(cov_id, coverages)]. *)
Definition coverage_step (pol : Policy) (_ : Z) (st : Z * list Coverage)
  : M (ctl (Z * list Coverage)) :=
  let cov_id := st.1 in
  if NUM_COVERAGES <? cov_id then mret (Return st)
  else
    cov_type ← choice COVERAGE_TYPES;
    limit ← choice [25000; 50000; 100000; 250000; 500000; 1000000];
    deductible ← choice [0; 250; 500; 1000; 2500];
    p ← uniform (50 # 1) (5000 # 1);
    e ← uniform (1 # 2) (50 # 1);
    rc ← fake;
    mret (Continue (cov_id + 1, st.2 ++ [
      {| cov_coverage_id := cov_id;
         cov_policy_id := pol_policy_id pol;
         cov_coverage_code := cov_type;
         cov_coverage_description := cov_type +:+ " Coverage";
         cov_coverage_limit := limit;
         cov_coverage_deductible := deductible;
         cov_premium_amount := py_round p 2;
         cov_exposure_units := py_round e 2;
         cov_effective_date := pol_effective_date pol;
         cov_expiration_date := pol_expiration_date pol;
         cov_rating_class_code := rc |}])).

Definition policy_coverages (pol : Policy) (st : Z * list Coverage)
  : M (ctl (Z * list Coverage)) :=
  num_covs ← randint 1 5;
  for_loop (range 0 num_covs) (coverage_step pol) st.

Definition gen_coverages (policies : list Policy) : M (list Coverage) :=
  let current := get_current_policies policies in
  c ← for_loop current policy_coverages (1, []);
  mret (ctl_state c).2.

Record Claim := mkClaim {
  clm_claim_id : Z;
  clm_claim_number : string;
  clm_policy_id : Z;
  clm_policy_number : string;
  clm_insured_id : Z;
  clm_line_of_business : string;
  clm_loss_date : date;
  clm_report_date : date;
  clm_entry_date : date;
  clm_processing_date : date;
  clm_claim_status : string;
  clm_cause_of_loss : string;
  clm_loss_description : string;
  clm_loss_state : string;
  clm_loss_zip : string;
  clm_claimant_name : string;
  clm_claimant_type : string;
  clm_adjuster_id : Z;
  clm_adjuster_name : string;
  clm_reserve_amount : Q;
  clm_paid_loss_amount : Q;
  clm_paid_alae_amount : Q;
  clm_paid_ulae_amount : Q;
  clm_salvage_amount : Q;
  clm_subrogation_amount : Q;
  clm_total_incurred : Q;
  clm_catastrophe_code : option string;
  clm_litigation_flag : bool;
  clm_fraud_indicator : bool;
  clm_close_date : option date;
  clm_reopen_date : option date;
  clm_source_system : string;
  clm_is_deleted : bool;
  clm_created_at : datetime;
  clm_updated_at : datetime;
}.

(** [round(random.uniform(a, b), 2)] *)
Definition rand_amount (a b : Q) : M Q :=
  u ← uniform a b;
  mret (py_round u 2).

(** The body of [for i in range(1, NUM_CLAIMS + 1)]. *)
Definition claim_step (current : list Policy) (i : Z) (claims : list Claim)
  : M (list Claim) :=
  pol ← choice current;
  loss_date ← rand_date 2020 2025;
  k1 ← randint 0 60;
  let report_date := add_days loss_date k1 in
  k2 ← randint 0 30;
  let entry_date := add_days report_date k2 in
  k3 ← randint 0 7;
  let processing_date := add_days entry_date k3 in
  u ← random;
  let is_closed := Qltb u (6 # 10) in
  close_date ← (if is_closed
                then (k ← randint 30 730;
                      mret (Some (to_date (add_days report_date k))))
                else mret None);
  is_reopened ← (if is_closed then (u' ← random; mret (Qltb u' (8 # 100)))
                 else mret false);
  reopen_date ← (match close_date with
                 | Some cd =>
                     if is_reopened
                     then (k ← randint 30 365; mret (Some (cd + k)))
                     else mret None
                 | None => mret None
                 end);
  drawn ← choice CLAIM_STATUSES;
  let status : string :=
    if (is_reopened : bool) then "REOPENED"
    else if is_closed && negb (String.eqb drawn "CLOSED") then "CLOSED"
    else drawn in
  cause ← choice CLAIM_CAUSES;
  description ← fake;
  zip ← fake;
  claimant ← fake;
  claimant_type ← choice ["FIRST_PARTY"; "THIRD_PARTY"];
  adjuster ← randint 1 30;
  adjuster_name ← fake;
  reserve ← rand_amount (500 # 1) (200000 # 1);
  paid_loss ← rand_amount (0 # 1) (150000 # 1);
  paid_alae ← rand_amount (0 # 1) (30000 # 1);
  paid_ulae ← rand_amount (0 # 1) (10000 # 1);
  salvage ← rand_amount (0 # 1) (5000 # 1);
  subrogation ← rand_amount (0 # 1) (10000 # 1);
  cat ← randint 1 20;
  catastrophe ← maybe_null ("CAT-" +:+ zfill 3 cat) (85 # 100);
  u1 ← random;
  u2 ← random;
  source ← choice SOURCE_SYSTEMS;
  u3 ← random;
  mret (claims ++ [
    {| clm_claim_id := i;
       clm_claim_number := "CLM-" +:+ zfill 8 i;
       clm_policy_id := pol_policy_id pol;
       clm_policy_number := pol_policy_number pol;
       clm_insured_id := pol_insured_id pol;
       clm_line_of_business := pol_line_of_business pol;
       clm_loss_date := to_date loss_date;
       clm_report_date := to_date report_date;
       clm_entry_date := to_date entry_date;
       clm_processing_date := to_date processing_date;
       clm_claim_status := status;
       clm_cause_of_loss := cause;
       clm_loss_description := description;
       clm_loss_state := pol_state pol;
       clm_loss_zip := zip;
       clm_claimant_name := claimant;
       clm_claimant_type := claimant_type;
       clm_adjuster_id := adjuster;
       clm_adjuster_name := adjuster_name;
       clm_reserve_amount := reserve;
       clm_paid_loss_amount := paid_loss;
       clm_paid_alae_amount := paid_alae;
       clm_paid_ulae_amount := paid_ulae;
       clm_salvage_amount := salvage;
       clm_subrogation_amount := subrogation;
       clm_total_incurred :=
         py_round (reserve + paid_loss + paid_alae - salvage - subrogation) 2;
       clm_catastrophe_code := catastrophe;
       clm_litigation_flag := Qltb u1 (1 # 10);
       clm_fraud_indicator := Qltb u2 (3 # 100);
       clm_close_date := close_date;
       clm_reopen_date := reopen_date;
       clm_source_system := source;
       clm_is_deleted := Qltb u3 (1 # 100);
       clm_created_at := entry_date;
       clm_updated_at := processing_date |}]).

Definition gen_claims (policies : list Policy) : M (list Claim) :=
  let current := get_current_policies policies in
  for_each (range 1 (NUM_CLAIMS + 1)) (claim_step current) [].

Definition get_active_claims (claims : list Claim) : list Claim :=
  filter (λ c, clm_is_deleted c = false) claims.

Record ClaimTxn := mkClaimTxn {
  ctx_transaction_id : Z;
  ctx_claim_id : Z;
  ctx_claim_number : string;
  ctx_transaction_type : string;
  ctx_transaction_date : date;
  ctx_posting_date : date;
  ctx_check_date : option date;
  ctx_amount : Q;
  ctx_category : string;
  ctx_check_number : option string;
  ctx_payee_name : option string;
  ctx_description : string;
  ctx_is_void : bool;
  ctx_void_of_transaction_id : option Z;
  ctx_created_by : string;
  ctx_load_ts : datetime;
  ctx_created_at : datetime;
}.

(** The VOID row written after a PAYMENT: [txn_id] is the id of the void,
    [txn_date], [amount] and [category] are those of the payment. *)
Definition void_txn (claim : Claim) (txn_id : Z) (txn_date : datetime)
    (amount : Q) (category : string) : M ClaimTxn :=
  k ← randint 1 30;
  let void_date := add_days txn_date k in
  k' ← randint 0 5;
  let void_posting := add_days void_date k' in
  created_by ← fake;
  load_ts ← rand_ts void_posting;
  mret {| ctx_transaction_id := txn_id;
          ctx_claim_id := clm_claim_id claim;
          ctx_claim_number := clm_claim_number claim;
          ctx_transaction_type := "VOID";
          ctx_transaction_date := to_date void_date;
          ctx_posting_date := to_date void_posting;
          ctx_check_date := None;
          ctx_amount := - amount;
          ctx_category := category;
          ctx_check_number := None;
          ctx_payee_name := None;
          ctx_description := "VOID OF TXN " +:+ pretty (txn_id - 1);
          ctx_is_void := true;
          ctx_void_of_transaction_id := Some (txn_id - 1);
          ctx_created_by := created_by;
          ctx_load_ts := load_ts;
          ctx_created_at := void_date |}.

(** The body of [for j in range(num_txns)]; the state is [(txn_id, txns)]. *)
Definition claim_txn_step (claim : Claim) (_ : Z) (st : Z * list ClaimTxn)
  : M (ctl (Z * list ClaimTxn)) :=
  let txn_id := st.1 in
  if NUM_CLAIM_TRANSACTIONS <? txn_id then mret (Return st)
  else
    txn_type ← choice ["RESERVE_SET"; "RESERVE_CHANGE"; "PAYMENT";
                        "RECOVERY"; "EXPENSE"];
    txn_date ← rand_date 2020 2025;
    k ← randint 0 5;
    let posting_date := add_days txn_date k in
    check_date ← (if String.eqb txn_type "PAYMENT"
                  then (k' ← randint 0 10;
                        mret (Some (to_date (add_days posting_date k'))))
                  else mret None);
    amount ← rand_amount (- 5000 # 1) (50000 # 1);
    k2 ← randint 0 3;
    load_ts ← rand_ts (add_days posting_date k2);
    category ← choice ["LOSS"; "ALAE"; "ULAE"; "SALVAGE"; "SUBRO"];
    chk ← fake;
    check_number ← maybe_null chk (4 # 10);
    payee ← fake;
    payee_name ← maybe_null payee (3 # 10);
    description ← fake;
    created_by ← fake;
    let txns := st.2 ++ [
      {| ctx_transaction_id := txn_id;
         ctx_claim_id := clm_claim_id claim;
         ctx_claim_number := clm_claim_number claim;
         ctx_transaction_type := txn_type;
         ctx_transaction_date := to_date txn_date;
         ctx_posting_date := to_date posting_date;
         ctx_check_date := check_date;
         ctx_amount := amount;
         ctx_category := category;
         ctx_check_number := check_number;
         ctx_payee_name := payee_name;
         ctx_description := description;
         ctx_is_void := false;
         ctx_void_of_transaction_id := None;
         ctx_created_by := created_by;
         ctx_load_ts := load_ts;
         ctx_created_at := txn_date |}] in
    let txn_id := txn_id + 1 in
    voided ← (if String.eqb txn_type "PAYMENT"
              then (u ← random; mret (Qltb u (5 # 100)))
              else mret false);
    if (voided : bool) then
      if NUM_CLAIM_TRANSACTIONS <? txn_id then mret (Return (txn_id, txns))
      else
        v ← void_txn claim txn_id txn_date amount category;
        mret (Continue (txn_id + 1, txns ++ [v]))
    else mret (Continue (txn_id, txns)).

Definition claim_txns (claim : Claim) (st : Z * list ClaimTxn)
  : M (ctl (Z * list ClaimTxn)) :=
  num_txns ← randint 1 10;
  for_loop (range 0 num_txns) (claim_txn_step claim) st.

Definition gen_claim_transactions (claims : list Claim) : M (list ClaimTxn) :=
  let active_claims := get_active_claims claims in
  c ← for_loop active_claims claim_txns (1, []);
  mret (ctl_state c).2.

(* ===================================================================== *)
(** ** Premium transactions, quotes and notes                             *)
(* ===================================================================== *)

Record PremTxn := mkPremTxn {
  ptx_transaction_id : Z;
  ptx_policy_id : Z;
  ptx_policy_number : string;
  ptx_line_of_business : string;
  ptx_transaction_type : string;
  ptx_transaction_date : date;
  ptx_accounting_date : date;
  ptx_booking_date : date;
  ptx_effective_date : date;
  ptx_amount : Q;
  ptx_accounting_period : string;
  ptx_state : string;
  ptx_agent_id : Z;
  ptx_is_reversal : bool;
  ptx_reversal_of_transaction_id : option Z;
  ptx_source_system : string;
  ptx_load_ts : datetime;
  ptx_created_at : datetime;
}.

(** The REVERSAL row written after a transaction: [txn_id] is the id of the
    reversal; [txn_date], [eff_date] and [amount] are those of the
    transaction it reverses. *)
Definition reversal_txn (pol : Policy) (txn_id : Z)
    (txn_date eff_date : datetime) (amount : Q) : M PremTxn :=
  k ← randint 1 45;
  let rev_date := add_days txn_date k in
  k' ← randint 0 30;
  let rev_acct := add_days rev_date k' in
  k2 ← randint 0 7;
  source ← choice SOURCE_SYSTEMS;
  k3 ← randint 0 2;
  load_ts ← rand_ts (add_days rev_acct k3);
  mret {| ptx_transaction_id := txn_id;
          ptx_policy_id := pol_policy_id pol;
          ptx_policy_number := pol_policy_number pol;
          ptx_line_of_business := pol_line_of_business pol;
          ptx_transaction_type := "REVERSAL";
          ptx_transaction_date := to_date rev_date;
          ptx_accounting_date := to_date rev_acct;
          ptx_booking_date := to_date (add_days rev_acct k2);
          ptx_effective_date := to_date eff_date;
          ptx_amount := - amount;
          ptx_accounting_period := year_month (to_date rev_acct);
          ptx_state := pol_state pol;
          ptx_agent_id := pol_agent_id pol;
          ptx_is_reversal := true;
          ptx_reversal_of_transaction_id := Some (txn_id - 1);
          ptx_source_system := source;
          ptx_load_ts := load_ts;
          ptx_created_at := rev_date |}.

(** The body of [for _ in range(num_txns)]; the state is [(txn_id, txns)]. *)
Definition premium_txn_step (pol : Policy) (_ : Z) (st : Z * list PremTxn)
  : M (ctl (Z * list PremTxn)) :=
  let txn_id := st.1 in
  if NUM_PREMIUM_TRANSACTIONS <? txn_id then mret (Return st)
  else
    txn_type ← choice ["WRITTEN"; "EARNED"; "UNEARNED"; "CEDED"; "RETURN";
                        "AUDIT"; "ENDORSEMENT"; "INSTALLMENT"];
    txn_date ← rand_date 2020 2025;
    k ← randint 0 30;
    let accounting_date := add_days txn_date k in
    k' ← randint 0 7;
    let booking_date := add_days accounting_date k' in
    eff_date ← (if String.eqb txn_type "ENDORSEMENT"
                then (b ← randint 0 90; mret (add_days txn_date (- b)))
                else mret txn_date);
    k2 ← randint 0 2;
    load_ts ← rand_ts (add_days booking_date k2);
    amount ← rand_amount (- 2000 # 1) (15000 # 1);
    source ← choice SOURCE_SYSTEMS;
    let txns := st.2 ++ [
      {| ptx_transaction_id := txn_id;
         ptx_policy_id := pol_policy_id pol;
         ptx_policy_number := pol_policy_number pol;
         ptx_line_of_business := pol_line_of_business pol;
         ptx_transaction_type := txn_type;
         ptx_transaction_date := to_date txn_date;
         ptx_accounting_date := to_date accounting_date;
         ptx_booking_date := to_date booking_date;
         ptx_effective_date := to_date eff_date;
         ptx_amount := amount;
         ptx_accounting_period := year_month (to_date accounting_date);
         ptx_state := pol_state pol;
         ptx_agent_id := pol_agent_id pol;
         ptx_is_reversal := false;
         ptx_reversal_of_transaction_id := None;
         ptx_source_system := source;
         ptx_load_ts := load_ts;
         ptx_created_at := txn_date |}] in
    let txn_id := txn_id + 1 in
    u ← random;
    if Qltb u (3 # 100) then
      if NUM_PREMIUM_TRANSACTIONS <? txn_id then mret (Return (txn_id, txns))
      else
        r ← reversal_txn pol txn_id txn_date eff_date amount;
        mret (Continue (txn_id + 1, txns ++ [r]))
    else mret (Continue (txn_id, txns)).

Definition policy_premium_txns (pol : Policy) (st : Z * list PremTxn)
  : M (ctl (Z * list PremTxn)) :=
  num_txns ← randint 1 8;
  for_loop (range 0 num_txns) (premium_txn_step pol) st.

Definition gen_premium_transactions (policies : list Policy)
  : M (list PremTxn) :=
  let current := get_current_policies policies in
  c ← for_loop current policy_premium_txns (1, []);
  mret (ctl_state c).2.

Record Quote := mkQuote {
  quo_quote_id : Z;
  quo_quote_number : string;
  quo_insured_id : Z;
  quo_agent_id : Z;
  quo_line_of_business : string;
  quo_state : string;
  quo_quote_date : date;
  quo_quoted_premium : Q;
  quo_status : string;
  quo_decline_reason : option string;
  quo_competitor_name : option string;
  quo_bound_policy_id : option Z;
  quo_source_system : string;
  quo_created_at : datetime;
}.

(** The body of [for i in range(1, NUM_QUOTES + 1)]. *)
Definition quote_step (insureds : list Insured) (agents : list Agent) (i : Z)
    (quotes : list Quote) : M (list Quote) :=
  insured ← choice insureds;
  agent ← choice agents;
  lob ← choice LOB_CODES;
  quote_date ← rand_date 2020 2025;
  premium ← rand_premium;
  status ← choice ["QUOTED"; "BOUND"; "DECLINED"; "EXPIRED"; "LOST"];
  reason ← choice ["PRICE"; "COVERAGE"; "COMPETITOR"; "NOT_ELIGIBLE"];
  decline_reason ← maybe_null reason (6 # 10);
  company ← fake;
  competitor ← maybe_null company (7 # 10);
  pid ← randint 1 NUM_POLICIES;
  bound ← maybe_null pid (65 # 100);
  source ← choice SOURCE_SYSTEMS;
  mret (quotes ++ [
    {| quo_quote_id := i;
       quo_quote_number := "QUO-" +:+ zfill 6 i;
       quo_insured_id := insured_id insured;
       quo_agent_id := agent_id agent;
       quo_line_of_business := lob;
       quo_state := ins_state insured;
       quo_quote_date := to_date quote_date;
       quo_quoted_premium := premium;
       quo_status := status;
       quo_decline_reason := decline_reason;
       quo_competitor_name := competitor;
       quo_bound_policy_id := bound;
       quo_source_system := source;
       quo_created_at := quote_date |}]).

Definition gen_quotes (insureds : list Insured) (agents : list Agent)
  : M (list Quote) :=
  for_each (range 1 (NUM_QUOTES + 1)) (quote_step insureds agents) [].

Record Note := mkNote {
  note_id : Z;
  note_entity_type : string;
  note_entity_id : Z;
  note_entity_number : string;
  note_type : string;
  note_author : string;
  note_text : string;
  note_created_at : datetime;
  note_source_system : string;
}.

(** The body of [for _ in range(random.randint(1, 5))] for one claim; the
    state is [(note_id, notes)]. *)
Definition claim_note_step (claim : Claim) (_ : Z) (st : Z * list Note)
  : M (Z * list Note) :=
  ty ← choice ["ADJUSTER_NOTE"; "PHONE_LOG"; "EMAIL"; "INVESTIGATION";
               "SUPERVISOR_REVIEW"];
  author ← fake;
  _ ← randint 2 8;
  text ← fake;
  created ← rand_date 2020 2025;
  source ← choice SOURCE_SYSTEMS;
  mret (st.1 + 1, st.2 ++ [
    {| note_id := st.1;
       note_entity_type := "CLAIM";
       note_entity_id := clm_claim_id claim;
       note_entity_number := clm_claim_number claim;
       note_type := ty;
       note_author := author;
       note_text := text;
       note_created_at := created;
       note_source_system := source |}]).

Definition claim_notes (claim : Claim) (st : Z * list Note)
  : M (Z * list Note) :=
  n ← randint 1 5;
  for_each (range 0 n) (claim_note_step claim) st.

Definition policy_note (pol : Policy) (st : Z * list Note)
  : M (Z * list Note) :=
  ty ← choice ["UW_COMMENT"; "INSPECTION_REPORT"; "MVR_RESULT";
               "TIER_OVERRIDE"];
  author ← fake;
  _ ← randint 1 5;
  text ← fake;
  created ← rand_date 2020 2025;
  source ← choice SOURCE_SYSTEMS;
  mret (st.1 + 1, st.2 ++ [
    {| note_id := st.1;
       note_entity_type := "POLICY";
       note_entity_id := pol_policy_id pol;
       note_entity_number := pol_policy_number pol;
       note_type := ty;
       note_author := author;
       note_text := text;
       note_created_at := created;
       note_source_system := source |}]).

Definition gen_unstructured_notes (claims : list Claim)
    (policies : list Policy) : M (list Note) :=
  let active_claims := get_active_claims claims in
  let current_policies := get_current_policies policies in
  sampled ← sample active_claims
              (Z.min 1500 (Z.of_nat (length active_claims)));
  st ← for_each sampled claim_notes (1, []);
  sampled' ← sample current_policies
               (Z.min 1000 (Z.of_nat (length current_policies)));
  st' ← for_each sampled' policy_note st;
  mret st'.2.

(** The entities [main] generates, in its order, from the agents and the
    insureds. *)
Record Core := mkCore {
  core_policies : list Policy;
  core_coverages : list Coverage;
  core_claims : list Claim;
  core_claim_txns : list ClaimTxn;
  core_premium_txns : list PremTxn;
  core_quotes : list Quote;
  core_notes : list Note;
}.

Definition gen_core (insureds : list Insured) (agents : list Agent) : M Core :=
  policies ← gen_policies_with_cdc insureds agents;
  coverages ← gen_coverages policies;
  claims ← gen_claims policies;
  claim_txns ← gen_claim_transactions claims;
  premium_txns ← gen_premium_transactions policies;
  quotes ← gen_quotes insureds agents;
  notes ← gen_unstructured_notes claims policies;
  mret (mkCore policies coverages claims claim_txns premium_txns quotes notes).

(* ===================================================================== *)
(** ** Gold metrics                                                       *)
(* ===================================================================== *)

(** A dict whose iteration order is its insertion order. *)
Section OrderedDict.
Context {K V : Type} `{EqDecision K}.

Fixpoint od_get (key : K) (d : list (K * V)) : option V :=
  match d with
  | [] => None
  | (k, v) :: d' => if decide (k = key) then Some v else od_get key d'
  end.

(** [d[key] = v]: in place when the key is there, at the end otherwise. *)
Fixpoint od_set (key : K) (v : V) (d : list (K * V)) : list (K * V) :=
  match d with
  | [] => [(key, v)]
  | (k, v') :: d' =>
      if decide (k = key) then (k, v) :: d' else (k, v') :: od_set key v d'
  end.
End OrderedDict.

(** [index.setdefault(key, []).append(x)] *)
Definition index_append {V} (key : Z) (x : V) (index : gmap Z (list V))
  : gmap Z (list V) :=
  <[key := default [] (index !! key) ++ [x]]> index.

(** [index.get(key, [])] *)
Definition index_get {V} (key : Z) (index : gmap Z (list V)) : list V :=
  default [] (index !! key).

(** [sum(...)] and Python's [max(a, b)] on numbers. *)
Definition qsum (l : list Q) : Q := foldl (λ a x, Qred (a + x)) 0%Q l.
Definition qmax (a b : Q) : Q := if Qltb a b then b else a.

(** One row of [gold_lob_year].  The seven ratio keys are absent from the
    dict until the finishing loop sets them; here they start at 0. *)
Record LobYear := mkLobYear {
  ly_line_of_business : string;
  ly_lob_description : string;
  ly_policy_year : Z;
  ly_policy_count : Z;
  ly_total_exposure_units : Q;
  ly_written_premium : Q;
  ly_earned_premium : Q;
  ly_claim_count : Z;
  ly_open_claim_count : Z;
  ly_closed_claim_count : Z;
  ly_paid_loss : Q;
  ly_paid_alae : Q;
  ly_paid_ulae : Q;
  ly_total_lae : Q;
  ly_salvage : Q;
  ly_subrogation : Q;
  ly_net_incurred_loss : Q;
  ly_total_incurred : Q;
  ly_frequency : Q;
  ly_severity : Q;
  ly_pure_premium : Q;
  ly_average_premium : Q;
  ly_loss_ratio : Q;
  ly_lae_ratio : Q;
  ly_combined_loss_lae_ratio : Q;
}.

Definition new_lob_year (lob desc : string) (year : Z) : LobYear :=
  mkLobYear lob desc year 0 0 0 0 0 0 0 0 0 0 0 0 0 0 0 0 0 0 0 0 0 0.

Definition is_open_status (s : string) : bool :=
  bool_decide (s ∈ ["OPEN"; "REOPENED"; "LITIGATION"; "SUBROGATION"]).

(** The body of [for c in pol_claims]. *)
Definition add_claim (m : LobYear) (c : Claim) : LobYear :=
  let opened := is_open_status (clm_claim_status c) in
  {| ly_line_of_business := ly_line_of_business m;
     ly_lob_description := ly_lob_description m;
     ly_policy_year := ly_policy_year m;
     ly_policy_count := ly_policy_count m;
     ly_total_exposure_units := ly_total_exposure_units m;
     ly_written_premium := ly_written_premium m;
     ly_earned_premium := ly_earned_premium m;
     ly_claim_count := ly_claim_count m;
     ly_open_claim_count :=
       if opened then ly_open_claim_count m + 1 else ly_open_claim_count m;
     ly_closed_claim_count :=
       if opened then ly_closed_claim_count m
       else ly_closed_claim_count m + 1;
     ly_paid_loss := Qred (ly_paid_loss m + clm_paid_loss_amount c);
     ly_paid_alae := Qred (ly_paid_alae m + clm_paid_alae_amount c);
     ly_paid_ulae := Qred (ly_paid_ulae m + clm_paid_ulae_amount c);
     ly_total_lae := ly_total_lae m;
     ly_salvage := Qred (ly_salvage m + clm_salvage_amount c);
     ly_subrogation := Qred (ly_subrogation m + clm_subrogation_amount c);
     ly_net_incurred_loss := ly_net_incurred_loss m;
     ly_total_incurred := ly_total_incurred m;
     ly_frequency := ly_frequency m;
     ly_severity := ly_severity m;
     ly_pure_premium := ly_pure_premium m;
     ly_average_premium := ly_average_premium m;
     ly_loss_ratio := ly_loss_ratio m;
     ly_lae_ratio := ly_lae_ratio m;
     ly_combined_loss_lae_ratio := ly_combined_loss_lae_ratio m |}.

(** The counters of one policy added to its group, before its claims. *)
Definition add_policy (m : LobYear) (pol : Policy) (wp ep : Q)
    (n_claims : Z) : LobYear :=
  {| ly_line_of_business := ly_line_of_business m;
     ly_lob_description := ly_lob_description m;
     ly_policy_year := ly_policy_year m;
     ly_policy_count := ly_policy_count m + 1;
     ly_total_exposure_units :=
       Qred (ly_total_exposure_units m + pol_total_exposure_units pol);
     ly_written_premium := Qred (ly_written_premium m + wp);
     ly_earned_premium := Qred (ly_earned_premium m + ep);
     ly_claim_count := ly_claim_count m + n_claims;
     ly_open_claim_count := ly_open_claim_count m;
     ly_closed_claim_count := ly_closed_claim_count m;
     ly_paid_loss := ly_paid_loss m;
     ly_paid_alae := ly_paid_alae m;
     ly_paid_ulae := ly_paid_ulae m;
     ly_total_lae := ly_total_lae m;
     ly_salvage := ly_salvage m;
     ly_subrogation := ly_subrogation m;
     ly_net_incurred_loss := ly_net_incurred_loss m;
     ly_total_incurred := ly_total_incurred m;
     ly_frequency := ly_frequency m;
     ly_severity := ly_severity m;
     ly_pure_premium := ly_pure_premium m;
     ly_average_premium := ly_average_premium m;
     ly_loss_ratio := ly_loss_ratio m;
     ly_lae_ratio := ly_lae_ratio m;
     ly_combined_loss_lae_ratio := ly_combined_loss_lae_ratio m |}.

(** The body of the first [for pol in current_policies]. *)
Definition lob_year_step (claims_by_policy : gmap Z (list Claim))
    (prem_written_by_policy prem_earned_by_policy : gmap Z (list PremTxn))
    (pol : Policy) (lob_year : list (string * Z * LobYear))
  : M (list (string * Z * LobYear)) :=
  let year := year_of (pol_effective_date pol) in
  let lob := pol_line_of_business pol in
  let key := (lob, year) in
  m ← (match od_get key lob_year with
       | Some m => mret m
       | None => desc ← lob_name lob; mret (new_lob_year lob desc year)
       end);
  let wp := qsum (ptx_amount <$>
                  index_get (pol_policy_id pol) prem_written_by_policy) in
  let wp := if Qeq_bool wp 0 then pol_total_premium pol else wp in
  let ep := qsum (ptx_amount <$>
                  index_get (pol_policy_id pol) prem_earned_by_policy) in
  ep ← (if Qeq_bool ep 0
        then (f ← uniform (7 # 10) (1 # 1); mret (Qred (wp * f)))
        else mret ep);
  let pol_claims := index_get (pol_policy_id pol) claims_by_policy in
  let m := add_policy m pol wp ep (Z.of_nat (length pol_claims)) in
  mret (od_set key (foldl add_claim m pol_claims) lob_year).

(** The body of [for key, m in lob_year.items()]. *)
Definition finish_lob_year (m : LobYear) : LobYear :=
  let total_lae := py_round (ly_paid_alae m + ly_paid_ulae m) 2 in
  let net_incurred_loss :=
    py_round (ly_paid_loss m - ly_salvage m - ly_subrogation m) 2 in
  let total_incurred :=
    py_round (ly_paid_loss m + ly_paid_alae m + ly_paid_ulae m
              - ly_salvage m - ly_subrogation m) 2 in
  let wp := ly_written_premium m in
  let ep := ly_earned_premium m in
  let exposure := ly_total_exposure_units m in
  let cnt := inject_Z (ly_claim_count m) in
  let pol_cnt := inject_Z (ly_policy_count m) in
  {| ly_line_of_business := ly_line_of_business m;
     ly_lob_description := ly_lob_description m;
     ly_policy_year := ly_policy_year m;
     ly_policy_count := ly_policy_count m;
     ly_total_exposure_units := py_round exposure 2;
     ly_written_premium := py_round wp 2;
     ly_earned_premium := py_round ep 2;
     ly_claim_count := ly_claim_count m;
     ly_open_claim_count := ly_open_claim_count m;
     ly_closed_claim_count := ly_closed_claim_count m;
     ly_paid_loss := py_round (ly_paid_loss m) 2;
     ly_paid_alae := py_round (ly_paid_alae m) 2;
     ly_paid_ulae := py_round (ly_paid_ulae m) 2;
     ly_total_lae := total_lae;
     ly_salvage := py_round (ly_salvage m) 2;
     ly_subrogation := py_round (ly_subrogation m) 2;
     ly_net_incurred_loss := net_incurred_loss;
     ly_total_incurred := total_incurred;
     ly_frequency := py_round (cnt / qmax exposure 1) 6;
     ly_severity := py_round (net_incurred_loss / qmax cnt 1) 2;
     ly_pure_premium := py_round (net_incurred_loss / qmax exposure 1) 2;
     ly_average_premium := py_round (wp / qmax pol_cnt 1) 2;
     ly_loss_ratio := py_round (net_incurred_loss / qmax ep 1) 6;
     ly_lae_ratio := py_round (total_lae / qmax ep 1) 6;
     ly_combined_loss_lae_ratio :=
       py_round ((net_incurred_loss + total_lae) / qmax ep 1) 6 |}.

Record UwMetric := mkUwMetric {
  uw_line_of_business : string;
  uw_lob_description : string;
  uw_policy_year : Z;
  uw_written_premium : Q;
  uw_earned_premium : Q;
  uw_net_incurred_loss : Q;
  uw_total_lae : Q;
  uw_underwriting_expense : Q;
  uw_underwriting_expense_ratio : Q;
  uw_operating_expense : Q;
  uw_operating_expense_ratio : Q;
  uw_loss_ratio : Q;
  uw_lae_ratio : Q;
  uw_combined_ratio : Q;
  uw_underwriting_profit : Q;
  uw_underwriting_profit_ratio : Q;
}.

(** The body of [for m in gold_lob_year]. *)
Definition uw_step (m : LobYear) (gold_uw : list UwMetric)
  : M (list UwMetric) :=
  u ← uniform (25 # 100) (40 # 100);
  let uw_expense_ratio := py_round u 6 in
  let uw_expense := py_round (ly_written_premium m * uw_expense_ratio) 2 in
  let operating_expense := py_round (uw_expense + ly_total_lae m) 2 in
  let combined :=
    py_round (ly_loss_ratio m + ly_lae_ratio m + uw_expense_ratio) 6 in
  let uw_profit :=
    py_round (ly_earned_premium m - ly_net_incurred_loss m
              - ly_total_lae m - uw_expense) 2 in
  mret (gold_uw ++ [
    {| uw_line_of_business := ly_line_of_business m;
       uw_lob_description := ly_lob_description m;
       uw_policy_year := ly_policy_year m;
       uw_written_premium := ly_written_premium m;
       uw_earned_premium := ly_earned_premium m;
       uw_net_incurred_loss := ly_net_incurred_loss m;
       uw_total_lae := ly_total_lae m;
       uw_underwriting_expense := uw_expense;
       uw_underwriting_expense_ratio := uw_expense_ratio;
       uw_operating_expense := operating_expense;
       uw_operating_expense_ratio :=
         py_round (operating_expense / qmax (ly_earned_premium m) 1) 6;
       uw_loss_ratio := ly_loss_ratio m;
       uw_lae_ratio := ly_lae_ratio m;
       uw_combined_ratio := combined;
       uw_underwriting_profit := uw_profit;
       uw_underwriting_profit_ratio :=
         py_round (uw_profit / qmax (ly_earned_premium m) 1) 6 |}]).

Record QuoteMetric := mkQuoteMetric {
  qm_line_of_business : string;
  qm_lob_description : string;
  qm_quote_year : Z;
  qm_total_quotes : Z;
  qm_bound_quotes : Z;
  qm_declined_quotes : Z;
  qm_expired_quotes : Z;
  qm_lost_quotes : Z;
  qm_total_quoted_premium : Q;
  qm_bound_quoted_premium : Q;
  qm_close_ratio : Q;
  qm_average_quoted_premium : Q;
}.

(** The body of [for q in quotes]. *)
Definition quote_metric_step (q : Quote)
    (qm_by_key : list (string * Z * QuoteMetric))
  : M (list (string * Z * QuoteMetric)) :=
  let year := year_of (quo_quote_date q) in
  let lob := quo_line_of_business q in
  let key := (lob, year) in
  qm ← (match od_get key qm_by_key with
        | Some qm => mret qm
        | None =>
            desc ← lob_name lob;
            mret (mkQuoteMetric lob desc year 0 0 0 0 0 0 0 0 0)
        end);
  let st := quo_status q in
  let has s := String.eqb st s in
  mret (od_set key
    {| qm_line_of_business := qm_line_of_business qm;
       qm_lob_description := qm_lob_description qm;
       qm_quote_year := qm_quote_year qm;
       qm_total_quotes := qm_total_quotes qm + 1;
       qm_bound_quotes :=
         if has "BOUND" then qm_bound_quotes qm + 1 else qm_bound_quotes qm;
       qm_declined_quotes :=
         if negb (has "BOUND") && has "DECLINED"
         then qm_declined_quotes qm + 1 else qm_declined_quotes qm;
       qm_expired_quotes :=
         if negb (has "BOUND") && negb (has "DECLINED") && has "EXPIRED"
         then qm_expired_quotes qm + 1 else qm_expired_quotes qm;
       qm_lost_quotes :=
         if negb (has "BOUND") && negb (has "DECLINED") && negb (has "EXPIRED")
            && has "LOST"
         then qm_lost_quotes qm + 1 else qm_lost_quotes qm;
       qm_total_quoted_premium :=
         Qred (qm_total_quoted_premium qm + quo_quoted_premium q);
       qm_bound_quoted_premium :=
         if has "BOUND"
         then Qred (qm_bound_quoted_premium qm + quo_quoted_premium q)
         else qm_bound_quoted_premium qm;
       qm_close_ratio := qm_close_ratio qm;
       qm_average_quoted_premium := qm_average_quoted_premium qm |}
    qm_by_key).

(** The body of [for qm in qm_by_key.values()]. *)
Definition finish_quote_metric (qm : QuoteMetric) : QuoteMetric :=
  let total := inject_Z (qm_total_quotes qm) in
  {| qm_line_of_business := qm_line_of_business qm;
     qm_lob_description := qm_lob_description qm;
     qm_quote_year := qm_quote_year qm;
     qm_total_quotes := qm_total_quotes qm;
     qm_bound_quotes := qm_bound_quotes qm;
     qm_declined_quotes := qm_declined_quotes qm;
     qm_expired_quotes := qm_expired_quotes qm;
     qm_lost_quotes := qm_lost_quotes qm;
     qm_total_quoted_premium := py_round (qm_total_quoted_premium qm) 2;
     qm_bound_quoted_premium := py_round (qm_bound_quoted_premium qm) 2;
     qm_close_ratio :=
       py_round (inject_Z (qm_bound_quotes qm) / qmax total 1) 6;
     qm_average_quoted_premium :=
       py_round (qm_total_quoted_premium qm / qmax total 1) 2 |}.

Record Retention := mkRetention {
  rt_line_of_business : string;
  rt_lob_description : string;
  rt_total_policies : Z;
  rt_renewal_policies : Z;
  rt_new_policies : Z;
  rt_retention_ratio : Q;
  rt_new_business_ratio : Q;
}.

(** The body of the second [for pol in current_policies]. *)
Definition retention_step (pol : Policy)
    (retention_by_lob : list (string * Retention))
  : M (list (string * Retention)) :=
  let lob := pol_line_of_business pol in
  rm ← (match od_get lob retention_by_lob with
        | Some rm => mret rm
        | None => desc ← lob_name lob; mret (mkRetention lob desc 0 0 0 0 0)
        end);
  let renewal := bool_decide (is_Some (pol_renewal_of_policy_id pol)) in
  mret (od_set lob
    {| rt_line_of_business := rt_line_of_business rm;
       rt_lob_description := rt_lob_description rm;
       rt_total_policies := rt_total_policies rm + 1;
       rt_renewal_policies :=
         if renewal then rt_renewal_policies rm + 1
         else rt_renewal_policies rm;
       rt_new_policies :=
         if renewal then rt_new_policies rm else rt_new_policies rm + 1;
       rt_retention_ratio := rt_retention_ratio rm;
       rt_new_business_ratio := rt_new_business_ratio rm |}
    retention_by_lob).

(** The body of [for rm in retention_by_lob.values()]. *)
Definition finish_retention (rm : Retention) : Retention :=
  let total := qmax (inject_Z (rt_total_policies rm)) 1 in
  {| rt_line_of_business := rt_line_of_business rm;
     rt_lob_description := rt_lob_description rm;
     rt_total_policies := rt_total_policies rm;
     rt_renewal_policies := rt_renewal_policies rm;
     rt_new_policies := rt_new_policies rm;
     rt_retention_ratio :=
       py_round (inject_Z (rt_renewal_policies rm) / total) 6;
     rt_new_business_ratio :=
       py_round (inject_Z (rt_new_policies rm) / total) 6 |}.

Definition index_premium (ty : string) (active_prem : list PremTxn)
  : gmap Z (list PremTxn) :=
  foldl (λ idx p,
           if String.eqb (ptx_transaction_type p) ty
           then index_append (ptx_policy_id p) p idx else idx)
        ∅ active_prem.

Definition compute_gold_metrics (policies : list Policy) (claims : list Claim)
    (premium_txns : list PremTxn) (coverages : list Coverage)
    (quotes : list Quote)
  : M (list LobYear * list UwMetric * list QuoteMetric * list Retention) :=
  let current_policies := get_current_policies policies in
  let active_claims := get_active_claims claims in
  let claims_by_policy :=
    foldl (λ idx c, index_append (clm_policy_id c) c idx) ∅ active_claims in
  let active_prem := filter (λ p, ptx_is_reversal p = false) premium_txns in
  let prem_written_by_policy := index_premium "WRITTEN" active_prem in
  let prem_earned_by_policy := index_premium "EARNED" active_prem in
  lob_year ← for_each current_policies
                (lob_year_step claims_by_policy prem_written_by_policy
                   prem_earned_by_policy) [];
  let gold_lob_year := (λ kv, finish_lob_year kv.2) <$> lob_year in
  gold_uw ← for_each gold_lob_year uw_step [];
  qm_by_key ← for_each quotes quote_metric_step [];
  let gold_quotes := (λ kv, finish_quote_metric kv.2) <$> qm_by_key in
  retention_by_lob ← for_each current_policies retention_step [];
  let gold_retention :=
    (λ kv, finish_retention kv.2) <$> retention_by_lob in
  mret (gold_lob_year, gold_uw, gold_quotes, gold_retention).

(* ===================================================================== *)
(** ** Scoring harness ([evals/run_eval.py])                              *)
(* ===================================================================== *)

(** Python floats are IEEE-754 binary64. *)
Definition float := spec_float.
Definition prec : Z := 53.
Definition emax : Z := 1024.

Definition fzero : float := S754_zero false.
Definition fone : float := S754_finite false 4503599627370496 (-52).
(** The literal [0.01]: the double nearest to 1/100. *)
Definition f0_01 : float := S754_finite false 5764607523034235 (-59).
(** The literal [0.05], the default tolerance. *)
Definition f0_05 : float := S754_finite false 7205759403792794 (-57).

(** The values a question file or an agent answer can hold.  [PyOther]
    stands for any object that is neither a number nor text (a list, a
    nested mapping); it carries its [str()]. *)
Inductive pyval :=
| PyNone
| PyBool (b : bool)
| PyInt (z : Z)
| PyFloat (f : float)
| PyStr (s : string)
| PyOther (text : string).

(** [numeric_result]: one value, or a dict of values by key. *)
Inductive numeric_result :=
| Scalar (v : pyval)
| Mapping (d : list (string * pyval)).

(** Text is ASCII here: the whitespace [str.strip()] removes and the
    letters [str.upper()] maps are those below 128. *)
Definition is_ws (c : ascii) : bool :=
  let n := nat_of_ascii c in
  ((9 <=? n) && (n <=? 13) || (28 <=? n) && (n <=? 32))%nat.

Fixpoint lstrip (s : string) : string :=
  match s with
  | String c s' => if is_ws c then lstrip s' else s
  | EmptyString => s
  end.

Fixpoint rstrip (s : string) : string :=
  match s with
  | String c s' =>
      match rstrip s' with
      | EmptyString => if is_ws c then EmptyString else String c EmptyString
      | r => String c r
      end
  | EmptyString => s
  end.

(** [s.strip()] *)
Definition strip (s : string) : string := rstrip (lstrip s).

Definition upper_ascii (c : ascii) : ascii :=
  let n := nat_of_ascii c in
  if ((97 <=? n) && (n <=? 122))%nat then ascii_of_nat (n - 32) else c.

(** [s.upper()] on ASCII text. *)
Fixpoint upper (s : string) : string :=
  match s with
  | String c s' => String (upper_ascii c) (upper s')
  | EmptyString => s
  end.

Definition is_digit (c : ascii) : bool :=
  let n := nat_of_ascii c in ((48 <=? n) && (n <=? 57))%nat.

(** [s.replace(c, "")] for a one-character [c]. *)
Fixpoint remove_char (c : ascii) (s : string) : string :=
  match s with
  | String c' s' =>
      if Ascii.eqb c c' then remove_char c s' else String c' (remove_char c s')
  | EmptyString => s
  end.

(** The longest prefix of digits, and what follows it. *)
Fixpoint span_digits (s : string) : string * string :=
  match s with
  | String c s' =>
      if is_digit c
      then let '(d, r) := span_digits s' in (String c d, r)
      else (EmptyString, s)
  | EmptyString => (EmptyString, s)
  end.

(** A match of [\d+\.?\d*] at the head of [s]. *)
Definition match_unsigned (s : string) : option string :=
  match span_digits s with
  | (EmptyString, _) => None
  | (d, String "." r) => Some (d +:+ "." +:+ (span_digits r).1)
  | (d, _) => Some d
  end.

(** A match of [-?\d+\.?\d*] at the head of [s]. *)
Definition match_number (s : string) : option string :=
  match s with
  | String "-" s' =>
      match match_unsigned s' with
      | Some m => Some (String "-" m)
      | None => None
      end
  | _ => match_unsigned s
  end.

(** The first element of [re.findall(r"-?\d+\.?\d*", s)]. *)
Fixpoint first_match (s : string) : option string :=
  match match_number s with
  | Some m => Some m
  | None =>
      match s with
      | String _ s' => first_match s'
      | EmptyString => None
      end
  end.

#[global] Instance result_ret : MRet result := λ A a, Ok a.
#[global] Instance result_bind : MBind result := λ A B f m,
  match m with
  | Ok a => f a
  | Raise e => Raise e
  end.

(** A merged question record.  A key that a question need not carry is an
    [option]. *)
Record Question := mkQuestion {
  q_id : string;
  q_category : string;
  q_difficulty : string;
  q_question : string;
  q_gold_query : option string;
  q_expected_value : option pyval;
  q_expected_values : option (list (string * pyval));
  q_tolerance : option pyval;
}.

Record AgentAnswer := mkAgentAnswer {
  a_response : option string;
  a_sql_used : option string;
  a_numeric_result : numeric_result; (* [Scalar PyNone] when absent *)
}.

(** The dict returned by [compare_numeric]. *)
Record NumCmp := mkNumCmp {
  cmp_passed : bool;
  cmp_actual : float;
  cmp_expected : float;
  cmp_abs_error : float;
  cmp_rel_error : option float;
}.

(** One entry of [comparisons]. *)
Inductive KeyCmp :=
| KNumeric (c : NumCmp)
| KString (passed : bool) (actual expected : pyval)
| KMissing.

Definition key_passed (k : KeyCmp) : bool :=
  match k with
  | KNumeric c => cmp_passed c
  | KString p _ _ => p
  | KMissing => false
  end.

Section Harness.
(** What the harness takes from outside the repository: the database
    behind the gold query and three Python built-ins on floats and text. *)
Context {Gold : Type}.
Variable get_gold_answer : Question → option Gold.
Variable round_float : float → Z → float.     (* [round(x, ndigits)] *)
Variable float_of_string : string → option float. (* [float(s)] *)
Variable str_of_float : float → string.       (* [str(x)] *)

(** The keys every scored result starts from. *)
Record Header := mkHeader {
  h_id : string;
  h_category : string;
  h_difficulty : string;
  h_agent_response : string;
  h_sql_used : option string;
  h_gold_answer : Gold;
}.

(** The result dict of [score_question], by shape. *)
Inductive Score :=
| Qualitative (id category difficulty agent_response : string)
| NoGold (id : string)
| Scored (h : Header) (c : NumCmp) (extraction_method : option string)
| ScoredKeys (h : Header) (passed : bool)
    (comparisons : list (string * KeyCmp))
| CouldNotCompare (h : Header).

Definition score_passed (s : Score) : option bool :=
  match s with
  | Qualitative _ _ _ _ | NoGold _ | CouldNotCompare _ => None
  | Scored _ c _ => Some (cmp_passed c)
  | ScoredKeys _ p _ => Some p
  end.

Definition compare_numeric (actual expected tolerance : float) : NumCmp :=
  if SFeqb expected fzero then
    let abs_err := SFabs actual in
    let passed := SFltb abs_err f0_01 in
    mkNumCmp passed actual expected abs_err None
  else
    let rel_err :=
      SFdiv prec emax (SFabs (SFsub prec emax actual expected))
        (SFabs expected) in
    let passed := SFleb rel_err tolerance in
    mkNumCmp passed actual expected
      (round_float (SFabs (SFsub prec emax actual expected)) 6)
      (Some (round_float rel_err 6)).

(** [float(v)] *)
Definition py_float (v : pyval) : result float :=
  match v with
  | PyFloat f => Ok f
  | PyBool b => Ok (if b then fone else fzero)
  | PyInt z =>
      match binary_normalize prec emax z 0 false with
      | S754_infinity _ => Raise OverflowError
      | f => Ok f
      end
  | PyStr s =>
      match float_of_string s with
      | Some f => Ok f
      | None => Raise ValueError
      end
  | PyNone | PyOther _ => Raise TypeError
  end.

(** [str(v)] *)
Definition py_str (v : pyval) : string :=
  match v with
  | PyStr s => s
  | PyNone => "None"
  | PyBool b => if b then "True" else "False"
  | PyInt z => pretty z
  | PyFloat f => str_of_float f
  | PyOther text => text
  end.

Definition is_str (v : pyval) (s : string) : bool :=
  match v with
  | PyStr s' => String.eqb s' s
  | _ => false
  end.

Definition extract_number (text : string) : result (option float) :=
  let cleaned := remove_char "%" (remove_char "$" (remove_char "," text)) in
  match first_match cleaned with
  | Some m => f ← py_float (PyStr m); mret (Some f)
  | None => mret None
  end.

(** [float(tolerance) if tolerance != "exact" else 0.0] *)
Definition tolerance_value (tolerance : pyval) : result float :=
  if is_str tolerance "exact" then Ok fzero else py_float tolerance.

(** What the [try] ... [except (ValueError, TypeError)] of the keyed
    comparison computes for a key the agent supplied. *)
Definition compare_key (actual expected_val : pyval) (tol : float)
  : result KeyCmp :=
  let by_text :=
    KString (String.eqb (upper (strip (py_str actual)))
                        (upper (strip (py_str expected_val))))
            actual expected_val in
  match py_float actual with
  | Ok a =>
      match py_float expected_val with
      | Ok e => Ok (KNumeric (compare_numeric a e tol))
      | Raise ValueError | Raise TypeError => Ok by_text
      | Raise e => Raise e
      end
  | Raise ValueError | Raise TypeError => Ok by_text
  | Raise e => Raise e
  end.

(** The body of [for key, expected_val in ...items()]; the state is
    [(comparisons, all_passed)]. *)
Definition key_step (tolerance : pyval) (numeric : list (string * pyval))
    (kv : string * pyval) (st : list (string * KeyCmp) * bool)
  : result (list (string * KeyCmp) * bool) :=
  let '(key, expected_val) := kv in
  match od_get key numeric with
  | Some actual =>
      tol ← tolerance_value tolerance;
      c ← compare_key actual expected_val tol;
      mret (od_set key c st.1, st.2 && key_passed c)
  | None => mret (od_set key KMissing st.1, false)
  end.

Fixpoint key_loop (tolerance : pyval) (numeric : list (string * pyval))
    (items : list (string * pyval)) (st : list (string * KeyCmp) * bool)
  : result (list (string * KeyCmp) * bool) :=
  match items with
  | [] => mret st
  | kv :: items' =>
      st' ← key_step tolerance numeric kv st;
      key_loop tolerance numeric items' st'
  end.

Definition score_question (question : Question) (agent_answer : AgentAnswer)
  : result Score :=
  let tolerance := default (PyFloat f0_05) (q_tolerance question) in
  let response := default "" (a_response agent_answer) in
  if is_str tolerance "qualitative" then
    mret (Qualitative (q_id question) (q_category question)
            (q_difficulty question) response)
  else
    match get_gold_answer question with
    | None => mret (NoGold (q_id question))
    | Some gold =>
        let numeric := a_numeric_result agent_answer in
        let h := mkHeader (q_id question) (q_category question)
                   (q_difficulty question) (String.substring 0 500 response)
                   (a_sql_used agent_answer) gold in
        let fallback :=
          match q_expected_value question with
          | Some ev =>
              extracted ← extract_number response;
              match extracted with
              | Some x =>
                  expected ← py_float ev;
                  tol ← tolerance_value tolerance;
                  mret (Scored h (compare_numeric x expected tol)
                          (Some "regex_from_response"))
              | None => mret (CouldNotCompare h)
              end
          | None => mret (CouldNotCompare h)
          end in
        match q_expected_value question, numeric with
        | Some _, Scalar PyNone | None, _ =>
            match q_expected_values question, numeric with
            | Some evs, Mapping d =>
                st ← key_loop tolerance d evs ([], true);
                mret (ScoredKeys h st.2 st.1)
            | _, _ => fallback
            end
        | Some ev, _ =>
            expected ← py_float ev;
            tol ← tolerance_value tolerance;
            actual ← (match numeric with
                      | Scalar v => py_float v
                      | Mapping _ => Raise TypeError
                      end);
            mret (Scored h (compare_numeric actual expected tol) None)
        end
    end.
End Harness.
(* ===================================================================== *)
(** ** The evaluation run ([evals/run_eval.py])                           *)
(* ===================================================================== *)

(** The agent stub. *)
Definition call_agent (question_text : string) : AgentAnswer :=
  {| a_response := Some "[AGENT NOT CONNECTED] – stub response";
     a_sql_used := None;
     a_numeric_result := Scalar PyNone |}.

Section EvalRun.
Context {Gold : Type}.
Variable get_gold_answer : Question → option Gold.
Variable round_float : float → Z → float.
Variable float_of_string : string → option float.
Variable str_of_float : float → string.

(** The loop of [run_eval], without its printing, for an agent [agent];
    an exception of [score_question] ends the run. *)
Fixpoint run_eval_loop (agent : string → AgentAnswer)
    (questions : list Question) (results : list (@Score Gold))
  : result (list (@Score Gold)) :=
  match questions with
  | [] => mret results
  | q :: questions' =>
      score ← score_question get_gold_answer round_float float_of_string
                 str_of_float q (agent (q_question q));
      run_eval_loop agent questions' (results ++ [score])
  end.

Definition run_eval (questions : list Question)
  : result (list (@Score Gold)) :=
  run_eval_loop call_agent questions [].
End EvalRun.

(** [r.get("category")] and [r.get("difficulty")] on a result. *)
Definition score_category {Gold} (s : @Score Gold) : option string :=
  match s with
  | Qualitative _ category _ _ => Some category
  | NoGold _ => None
  | Scored h _ _ | ScoredKeys h _ _ | CouldNotCompare h => Some (h_category h)
  end.

Definition score_difficulty {Gold} (s : @Score Gold) : option string :=
  match s with
  | Qualitative _ _ difficulty _ => Some difficulty
  | NoGold _ => None
  | Scored h _ _ | ScoredKeys h _ _ | CouldNotCompare h =>
      Some (h_difficulty h)
  end.

(** [sum(1 for r in results if ...)] *)
Definition count_if {A} (P : A → bool) (l : list A) : Z :=
  Z.of_nat (length (filter (λ x, P x = true) l)).

Definition passed_is {Gold} (v : option bool) (s : @Score Gold) : bool :=
  bool_decide (score_passed s = v).

Definition passed_is_not_none {Gold} (s : @Score Gold) : bool :=
  bool_decide (score_passed s ≠ None).

(** [sorted(set(...))] on strings. *)
Definition sorted_set (l : list string) : list string :=
  merge_sort (λ a b, Is_true (Stdlib.Strings.String.leb a b))
    (remove_dups l).

(** The numbers [print_scorecard] prints: the four counts; the score line
    [passed/(total - manual)], printed when its denominator is positive
    (with the percentage it gives); one line [passed/total] per category,
    when there is more than one; one line per difficulty that occurs. *)
Record Scorecard := mkScorecard {
  sc_total : Z;
  sc_passed : Z;
  sc_failed : Z;
  sc_manual : Z;
  sc_score : option (Z * Z);
  sc_by_category : list (string * Z * Z);
  sc_by_difficulty : list (string * Z * Z);
}.

Definition print_scorecard {Gold} (results : list (@Score Gold))
  : Scorecard :=
  let total := Z.of_nat (length results) in
  let passed := count_if (passed_is (Some true)) results in
  let failed := count_if (passed_is (Some false)) results in
  let manual := count_if (passed_is None) results in
  let categories :=
    sorted_set ((λ r, default "unknown" (score_category r)) <$> results) in
  let group (key : @Score Gold → option string) (k : string) :=
    filter (λ r, key r = Some k) results in
  {| sc_total := total;
     sc_passed := passed;
     sc_failed := failed;
     sc_manual := manual;
     sc_score :=
       if 0 <? total - manual then Some (passed, total - manual) else None;
     sc_by_category :=
       if (1 <? length categories)%nat then
         (λ cat, (cat,
                  count_if (passed_is (Some true)) (group score_category cat),
                  count_if passed_is_not_none (group score_category cat)))
           <$> categories
       else [];
     sc_by_difficulty :=
       omap (λ diff,
               let diff_results := group score_difficulty diff in
               match diff_results with
               | [] => None
               | _ => Some (diff,
                            count_if (passed_is (Some true)) diff_results,
                            count_if passed_is_not_none diff_results)
               end)
            ["easy"; "medium"; "hard"] |}.

(** Whether a text contains a digit. *)
Fixpoint has_digit (s : string) : bool :=
  match s with
  | String c s' => is_digit c || has_digit s'
  | EmptyString => false
  end.

(* ===================================================================== *)
(** ** Loading the questions ([load_questions])                           *)
(* ===================================================================== *)

Section LoadQuestions.
(** The values of the two YAML files, up to Python's equality; [of_str] is
    a text as a value and [hashable] tells what can key a dict.  Both files
    are read as lists of mappings. *)
Context {V : Type} `{EqDecision V}.
Variable of_str : string → V.
Variable hashable : V → bool.

Definition GOLD_KEYS : list string :=
  ["gold_query"; "expected_value"; "expected_values"; "tolerance";
   "tolerance_claim_count"; "notes"].

(** [d[key]] *)
Definition getitem (key : string) (d : list (string * V)) : result V :=
  match od_get key d with
  | Some v => Ok v
  | None => Raise KeyError
  end.

(** [{g["id"]: g for g in gold_answers}], from the dict [index] on. *)
Fixpoint gold_index (gold_answers : list (list (string * V)))
    (index : list (V * list (string * V)))
  : result (list (V * list (string * V))) :=
  match gold_answers with
  | [] => Ok index
  | g :: rest =>
      id ← getitem "id" g;
      if hashable id then gold_index rest (od_set id g index)
      else Raise TypeError
  end.

(** The loop [for key in (...): if key in gold: q[key] = gold[key]]. *)
Definition merge_gold (gold q : list (string * V)) : list (string * V) :=
  foldl (λ q key,
           match od_get key gold with
           | Some v => od_set key v q
           | None => q
           end) q GOLD_KEYS.

(** The body of [for q in questions]. *)
Definition merge_question (gold_by_id : list (V * list (string * V)))
    (q : list (string * V)) : result (list (string * V)) :=
  id ← getitem "id" q;
  if hashable id
  then Ok (merge_gold (default [] (od_get id gold_by_id)) q)
  else Raise TypeError.

Fixpoint merge_questions (gold_by_id : list (V * list (string * V)))
    (questions : list (list (string * V)))
  : result (list (list (string * V))) :=
  match questions with
  | [] => Ok []
  | q :: rest =>
      q' ← merge_question gold_by_id q;
      rest' ← merge_questions gold_by_id rest;
      Ok (q' :: rest')
  end.

(** [[q for q in questions if keep(q[key])]] *)
Fixpoint filter_by (key : string) (keep : V → bool)
    (questions : list (list (string * V)))
  : result (list (list (string * V))) :=
  match questions with
  | [] => Ok []
  | q :: rest =>
      v ← getitem key q;
      rest' ← filter_by key keep rest;
      Ok (if keep v then q :: rest' else rest')
  end.

(** [if ids:] and [if category:]: None and the empty value are false. *)
Definition given_ids (ids : option (list string)) : option (list string) :=
  match ids with
  | Some ((_ :: _) as l) => Some l
  | _ => None
  end.

Definition given_text (s : option string) : option string :=
  match s with
  | Some (String _ _ as t) => Some t
  | _ => None
  end.

Definition load_questions (ids : option (list string))
    (category difficulty : option string)
    (questions gold_answers : list (list (string * V)))
  : result (list (list (string * V))) :=
  gold_by_id ← gold_index gold_answers [];
  questions ← merge_questions gold_by_id questions;
  questions ← match given_ids ids with
              | Some l =>
                  filter_by "id" (λ v, bool_decide (v ∈ of_str <$> l))
                    questions
              | None => Ok questions
              end;
  questions ← match given_text category with
              | Some c =>
                  filter_by "category" (λ v, bool_decide (v = of_str c))
                    questions
              | None => Ok questions
              end;
  match given_text difficulty with
  | Some d =>
      filter_by "difficulty" (λ v, bool_decide (v = of_str d)) questions
  | None => Ok questions
  end.

(** The gold answer a question is merged with: the last one of the file
    with the question's id. *)
Definition gold_of (gold_answers : list (list (string * V))) (id : V)
  : list (string * V) :=
  default [] (last (filter (λ g, od_get "id" g = Some id) gold_answers)).

(** The three tests of [load_questions] on a merged question. *)
Definition has_value (key : string) (keep : V → bool)
    (q : list (string * V)) : bool :=
  match od_get key q with
  | Some v => keep v
  | None => false
  end.

Definition by_ids (ids : option (list string)) (q : list (string * V))
  : bool :=
  match given_ids ids with
  | Some l => has_value "id" (λ v, bool_decide (v ∈ of_str <$> l)) q
  | None => true
  end.

Definition by_text (key : string) (text : option string)
    (q : list (string * V)) : bool :=
  match given_text text with
  | Some t => has_value key (λ v, bool_decide (v = of_str t)) q
  | None => true
  end.
End LoadQuestions.


(* ===================================================================== *)
(** ** Specification predicates                                           *)
(* ===================================================================== *)

(** Total correctness: from every state of the random sources, [m] returns
    (it raises nothing) and its result satisfies [P]. *)
Definition ensures {A} (m : M A) (P : A → Prop) : Prop :=
  ∀ w, ∃ a w', m w = Ok (a, w') ∧ P a.

(** What the per-policy draws guarantee. *)
Definition base_ok (i : Z) (b : PolicyBase) : Prop :=
  pb_i b = i ∧
  1 ≤ pb_num_versions b ≤ 3 ∧
  pb_lob b ∈ LOB_CODES ∧
  to_date (pb_binding b) < to_date (pb_eff b) ∧
  to_date (pb_binding b) ≤ to_date (pb_issue b) ∧
  to_date (pb_issue b) ≤ to_date (pb_system_entry b) ∧
  to_date (pb_system_entry b) ≤ to_date (pb_booking b).

(** The row written for version index [v] of the policy drawn as [b]. *)
Definition version_row (b : PolicyBase) (v : Z) (r : Policy) : Prop :=
  pol_policy_id r = pb_i b ∧
  pol_version_number r = v + 1 ∧
  pol_is_current_record r = (v =? pb_num_versions b - 1) ∧
  (pol_is_deleted r = true → pol_is_current_record r = false) ∧
  (pol_valid_to r = None ↔ pol_is_current_record r = true) ∧
  (∃ d, 10 ≤ d ≤ 90 ∧ pol_valid_from r = add_days (pb_system_entry b) (v * d)) ∧
  pol_effective_date r = to_date (pb_eff b) ∧
  pol_binding_date r = to_date (pb_binding b) ∧
  pol_issue_date r = to_date (pb_issue b) ∧
  pol_system_entry_date r = to_date (pb_system_entry b) ∧
  pol_booking_date r = to_date (pb_booking b).

(** The rows of one [policy_id]: its versions, in order. *)
Definition policy_block (i : Z) (rows : list Policy) : Prop :=
  ∃ b, base_ok i b ∧
       Forall2 (version_row b) (range 0 (pb_num_versions b)) rows.

(** The shape of the generator's output: one block per id, in id order. *)
Definition blocks_of (ids : list Z) (ps : list Policy) : Prop :=
  ∃ blocks, ps = concat blocks ∧ Forall2 policy_block ids blocks.

(** Inputs for the examples: one insured, one agent, and a state of the
    random sources given by the list of its first raw draws (all later
    draws are 0). *)
Definition insured0 : Insured := mkInsured 1 "PERSONAL" "CA" "LEGACY_AS400".
Definition agent0 : Agent := mkAgent 1 "AGT-0001".
Definition world_of (draws : list N) : World :=
  mkWorld (λ n, nth n draws 0%N) 0 (λ _, "") 0.

(** Raw draws under which the second and third version of policy 1 get
    their [_valid_from] out of order: the per-policy draws end with the
    choice of three versions, and the first draw of each version is its
    [randint(10, 90)], here 10, 90 and 10. *)
Definition half : N := 4503599627370496.   (* [random()] = 0.5 *)
Definition nonmonotone_draws : list N :=
  [ 0; 0; 0; 0; 0; 0; 0; 0; 0; 0; 0; 0; 0; 2;
    0; 0; half; 0; 0; 0; 0; 0; 0; 0; half; 0;
    80; 0; 0; 0; half; half; 0; 0; 0; 0; 0; 0; 0; half; 0;
    0; 0; 0; half; 0; 0; 0; 0; 0; 0; half; 0 ]%N.

(** A VOID row and the payment it voids, within the list [txns]. *)
Definition void_ok (txns : list ClaimTxn) (v : ClaimTxn) : Prop :=
  ctx_transaction_type v = "VOID" →
  ∃ p, p ∈ txns ∧
       ctx_void_of_transaction_id v = Some (ctx_transaction_id p) ∧
       ctx_transaction_type p = "PAYMENT" ∧
       ctx_claim_id p = ctx_claim_id v ∧
       ctx_amount v = (- ctx_amount p)%Q ∧
       ctx_transaction_date p ≤ ctx_transaction_date v ∧
       ctx_transaction_date v ≤ ctx_posting_date v.

(** The invariant of the loops of [gen_claim_transactions] over their state
    [(txn_id, txns)]: the ids written so far are 1 .. txn_id - 1 in order,
    every VOID is paired, every row belongs to a non-deleted claim. *)
Definition claim_txns_ok (claims : list Claim) (st : Z * list ClaimTxn)
  : Prop :=
  1 ≤ st.1 ∧
  ctx_transaction_id <$> st.2 = range 1 st.1 ∧
  Forall (void_ok st.2) st.2 ∧
  Forall (λ t, ∃ c, c ∈ claims ∧ clm_is_deleted c = false ∧
                    ctx_claim_id t = clm_claim_id c) st.2.

(** A reference, by business key, to a row of the current, non-deleted
    policy set and to a non-deleted claim. *)
Definition refers_to_current (policies : list Policy) (pid : Z) : Prop :=
  ∃ p, p ∈ get_current_policies policies ∧ pol_policy_id p = pid.

Definition refers_to_active (claims : list Claim) (cid : Z) : Prop :=
  ∃ c, c ∈ get_active_claims claims ∧ clm_claim_id c = cid.

(** What holds of a premium transaction [t] within the list [txns]. *)
Definition premium_txn_ok (txns : list PremTxn) (t : PremTxn) : Prop :=
  ptx_transaction_date t ≤ ptx_accounting_date t ∧
  ptx_accounting_date t ≤ ptx_booking_date t ∧
  (ptx_transaction_type t ≠ "ENDORSEMENT" →
   ptx_transaction_type t ≠ "REVERSAL" →
   ptx_effective_date t = ptx_transaction_date t) ∧
  (ptx_transaction_type t = "ENDORSEMENT" →
   ptx_transaction_date t - 90 ≤ ptx_effective_date t ≤ ptx_transaction_date t) ∧
  (ptx_transaction_type t = "REVERSAL" →
   ptx_effective_date t < ptx_transaction_date t ∧
   ∃ o, o ∈ txns ∧
        ptx_reversal_of_transaction_id t = Some (ptx_transaction_id o) ∧
        ptx_transaction_type o ≠ "REVERSAL" ∧
        ptx_effective_date t = ptx_effective_date o ∧
        ptx_amount t = (- ptx_amount o)%Q).

(** The invariant of the loops of [gen_premium_transactions]. *)
Definition premium_txns_ok (policies : list Policy) (st : Z * list PremTxn)
  : Prop :=
  1 ≤ st.1 ∧
  ptx_transaction_id <$> st.2 = range 1 st.1 ∧
  Forall (premium_txn_ok st.2) st.2 ∧
  Forall (λ t, refers_to_current policies (ptx_policy_id t)) st.2.

(** A current, non-deleted policy row for the examples. *)
Definition policy0 : Policy :=
  {| pol_row_id := 1; pol_policy_id := 1;
     pol_policy_number := "POL-HO-000001"; pol_version_number := 1;
     pol_insured_id := 1; pol_agent_id := 1;
     pol_line_of_business := "HO"; pol_lob_description := "Homeowners";
     pol_product_code := "HO-STD";
     pol_effective_date := 737425; pol_expiration_date := 737790;
     pol_binding_date := 737424; pol_issue_date := 737424;
     pol_system_entry_date := 737424; pol_booking_date := 737424;
     pol_policy_status := "ACTIVE"; pol_policy_term_months := 12;
     pol_state := "CA"; pol_territory_code := "T01";
     pol_total_premium := 1000; pol_total_exposure_units := 10;
     pol_deductible_amount := 500; pol_policy_limit := 100000;
     pol_underwriter_id := 1;
     pol_cancellation_date := None; pol_cancellation_reason := None;
     pol_renewal_of_policy_id := None; pol_source_system := "MANUAL_ENTRY";
     pol_is_current_record := true; pol_is_deleted := false;
     pol_valid_from := mkDT 737424 0; pol_valid_to := None;
     pol_created_at := mkDT 737424 0; pol_updated_at := mkDT 737424 0 |}.

(** The per-key result the specification describes: numeric comparison
    when both sides convert to floats, text comparison otherwise, failure
    for a key the agent did not supply. *)
Definition key_result (round_float : float → Z → float)
    (float_of_string : string → option float) (str_of_float : float → string)
    (numeric : list (string * pyval)) (tol : float) (kv : string * pyval)
  : KeyCmp :=
  match od_get kv.1 numeric with
  | None => KMissing
  | Some actual =>
      match py_float float_of_string actual, py_float float_of_string kv.2 with
      | Ok a, Ok e => KNumeric (compare_numeric round_float a e tol)
      | _, _ =>
          KString (String.eqb (upper (strip (py_str str_of_float actual)))
                              (upper (strip (py_str str_of_float kv.2))))
                  actual kv.2
      end
  end.

(** A conversion that neither succeeds nor raises [ValueError] or
    [TypeError]: an integer too large for a float. *)
Definition overflows (r : result float) : Prop := r = Raise OverflowError.

(** The doubles nearest to the decimals of the specification's scenarios. *)
Definition f0_65 : float := S754_finite false 5854679515581645 (-53).
Definition f0_64 : float := S754_finite false 5764607523034235 (-53).
Definition f0_8 : float := S754_finite false 7205759403792794 (-53).
Definition f0_55 : float := S754_finite false 4953959590107546 (-53).
Definition f0_551 : float := S754_finite false 4962966789362287 (-53).

(** Stand-ins for the harness's environment in the examples: a gold answer
    for every question, [round] as the identity, a [float(s)] that reads no
    text as a number, and an empty [str(x)]. *)
Definition gold_always (q : Question) : option unit := Some tt.
Definition round_id (x : float) (ndigits : Z) : float := x.
Definition no_float (s : string) : option float := None.
Definition str_empty (x : float) : string := "".

Definition question_keys : Question :=
  {| q_id := "lr_by_lob"; q_category := "loss_ratio"; q_difficulty := "easy";
     q_question := "Loss ratio and line of business?";
     q_gold_query := Some "SELECT 1";
     q_expected_value := None;
     q_expected_values :=
       Some [("loss_ratio", PyFloat f0_55); ("lob", PyStr "HO")];
     q_tolerance := Some (PyFloat f0_05) |}.

Definition answer_keys : AgentAnswer :=
  {| a_response := Some "0.551 for ho";
     a_sql_used := None;
     a_numeric_result :=
       Mapping [("loss_ratio", PyFloat f0_551); ("lob", PyStr "ho")] |}.

(** A row of [gold_lob_year] with the fields that depend on a random draw
    blanked: the earned premium (drawn for a policy without earned
    premium transactions) and the three ratios computed from it. *)
Definition without_earned (m : LobYear) : LobYear :=
  {| ly_line_of_business := ly_line_of_business m;
     ly_lob_description := ly_lob_description m;
     ly_policy_year := ly_policy_year m;
     ly_policy_count := ly_policy_count m;
     ly_total_exposure_units := ly_total_exposure_units m;
     ly_written_premium := ly_written_premium m;
     ly_earned_premium := 0;
     ly_claim_count := ly_claim_count m;
     ly_open_claim_count := ly_open_claim_count m;
     ly_closed_claim_count := ly_closed_claim_count m;
     ly_paid_loss := ly_paid_loss m;
     ly_paid_alae := ly_paid_alae m;
     ly_paid_ulae := ly_paid_ulae m;
     ly_total_lae := ly_total_lae m;
     ly_salvage := ly_salvage m;
     ly_subrogation := ly_subrogation m;
     ly_net_incurred_loss := ly_net_incurred_loss m;
     ly_total_incurred := ly_total_incurred m;
     ly_frequency := ly_frequency m;
     ly_severity := ly_severity m;
     ly_pure_premium := ly_pure_premium m;
     ly_average_premium := ly_average_premium m;
     ly_loss_ratio := 0;
     ly_lae_ratio := 0;
     ly_combined_loss_lae_ratio := 0 |}.

(** A row of [gold_uw] with the fields that depend on a random draw
    blanked: all but the identification, the written premium, the net
    incurred loss and the total LAE. *)
Definition without_draws (u : UwMetric) : UwMetric :=
  {| uw_line_of_business := uw_line_of_business u;
     uw_lob_description := uw_lob_description u;
     uw_policy_year := uw_policy_year u;
     uw_written_premium := uw_written_premium u;
     uw_earned_premium := 0;
     uw_net_incurred_loss := uw_net_incurred_loss u;
     uw_total_lae := uw_total_lae u;
     uw_underwriting_expense := 0;
     uw_underwriting_expense_ratio := 0;
     uw_operating_expense := 0;
     uw_operating_expense_ratio := 0;
     uw_loss_ratio := 0;
     uw_lae_ratio := 0;
     uw_combined_ratio := 0;
     uw_underwriting_profit := 0;
     uw_underwriting_profit_ratio := 0 |}.

(** The agreement of two runs of [compute_gold_metrics]. *)
Definition gold_agree
    (o1 o2 : list LobYear * list UwMetric * list QuoteMetric * list Retention)
  : Prop :=
  let '(ly1, uw1, q1, r1) := o1 in
  let '(ly2, uw2, q2, r2) := o2 in
  without_earned <$> ly1 = without_earned <$> ly2 ∧
  without_draws <$> uw1 = without_draws <$> uw2 ∧
  q1 = q2 ∧ r1 = r2.

(** Two runs end alike: both return, with results related by [R], or both
    raise the same exception. *)
Definition run_agree {A B} (R : A → B → Prop)
    (r1 : result (A * World)) (r2 : result (B * World)) : Prop :=
  match r1, r2 with
  | Ok (a1, _), Ok (a2, _) => R a1 a2
  | Raise e1, Raise e2 => e1 = e2
  | _, _ => False
  end.

Definition related {A B} (R : A → B → Prop) (m1 : M A) (m2 : M B) : Prop :=
  ∀ w1 w2, run_agree R (m1 w1) (m2 w2).

(** An insertion-ordered dict of [gold_lob_year] rows, blanked. *)
Definition key_view {K} (d : list (K * LobYear)) : list (K * LobYear) :=
  (λ kv, (kv.1, without_earned kv.2)) <$> d.

(** A non-deleted claim on [policy0] for the examples. *)
Definition claim0 : Claim :=
  {| clm_claim_id := 1; clm_claim_number := "CLM-00000001";
     clm_policy_id := 1; clm_policy_number := "POL-HO-000001";
     clm_insured_id := 1; clm_line_of_business := "HO";
     clm_loss_date := 737500; clm_report_date := 737501;
     clm_entry_date := 737502; clm_processing_date := 737503;
     clm_claim_status := "OPEN"; clm_cause_of_loss := "FIRE";
     clm_loss_description := ""; clm_loss_state := "CA"; clm_loss_zip := "";
     clm_claimant_name := ""; clm_claimant_type := "FIRST_PARTY";
     clm_adjuster_id := 1; clm_adjuster_name := "";
     clm_reserve_amount := 1000; clm_paid_loss_amount := 500;
     clm_paid_alae_amount := 0; clm_paid_ulae_amount := 0;
     clm_salvage_amount := 0; clm_subrogation_amount := 0;
     clm_total_incurred := 1500;
     clm_catastrophe_code := None; clm_litigation_flag := false;
     clm_fraud_indicator := false;
     clm_close_date := None; clm_reopen_date := None;
     clm_source_system := "MANUAL_ENTRY"; clm_is_deleted := false;
     clm_created_at := mkDT 737502 0; clm_updated_at := mkDT 737503 0 |}.

(* ===================================================================== *)
(** ** Further specification predicates                                   *)
(* ===================================================================== *)

(** What the per-policy draws guarantee beyond [base_ok]: the insured and
    the agent come from the pools, the policy starts in 2020..2025 and
    runs 180, 365 or 730 days. *)
Definition base_facts (insureds : list Insured) (agents : list Agent)
    (b : PolicyBase) : Prop :=
  pb_insured b ∈ insureds ∧
  pb_agent b ∈ agents ∧
  pb_base_status b ∈ POLICY_STATUSES ∧
  dt_day (mk_datetime 2020 1 1) ≤ to_date (pb_eff b)
    ≤ dt_day (mk_datetime 2025 12 31) ∧
  to_date (pb_exp b) - to_date (pb_eff b) ∈ [180; 365; 730].

(** What a version row shows beyond [version_row]. *)
Definition row_facts (b : PolicyBase) (v : Z) (r : Policy) : Prop :=
  pol_insured_id r = insured_id (pb_insured b) ∧
  pol_agent_id r = agent_id (pb_agent b) ∧
  pol_state r = ins_state (pb_insured b) ∧
  pol_line_of_business r = pb_lob b ∧
  assoc (pb_lob b) LOB_NAMES = Some (pol_lob_description r) ∧
  pol_expiration_date r = to_date (pb_exp b) ∧
  (v = 0 →
   pol_total_premium r = pb_base_premium b ∧
   pol_total_exposure_units r = pb_base_exposure b ∧
   pol_policy_status r = pb_base_status b ∧
   pol_cancellation_date r = None) ∧
  (pol_cancellation_date r = None →
   pol_cancellation_reason r = None ∧
   pol_policy_status r = pb_base_status b) ∧
  (∀ d, pol_cancellation_date r = Some d →
     v ≠ 0 ∧ pol_policy_status r = "CANCELLED" ∧
     to_date (pb_eff b) + 30 ≤ d ≤ to_date (pb_eff b) + 300 ∧
     ∃ reason, pol_cancellation_reason r = Some reason ∧
               reason ∈ ["NON_PAY"; "INSURED_REQ"; "UW_ACTION"; "REWRITE"]) ∧
  (∀ k, pol_renewal_of_policy_id r = Some k →
     1 ≤ k ≤ Z.max 1 (pb_i b - 1)).

(** The rows of one policy, with all of the above. *)
Definition policy_rows (insureds : list Insured) (agents : list Agent)
    (i : Z) (rows : list Policy) : Prop :=
  ∃ b, base_ok i b ∧ base_facts insureds agents b ∧
       Forall2 (λ v r, version_row b v r ∧ row_facts b v r)
         (range 0 (pb_num_versions b)) rows.

(** The policy stream: one [policy_rows] block per id, in id order, with
    [row_id] counting the rows from 1. *)
Definition policy_stream (insureds : list Insured) (agents : list Agent)
    (ids : list Z) (st : Z * list Policy) : Prop :=
  st.1 = Z.of_nat (length st.2) ∧
  pol_row_id <$> st.2 = range 1 (st.1 + 1) ∧
  ∃ blocks, st.2 = concat blocks ∧
            Forall2 (policy_rows insureds agents) ids blocks.

(** [random()] = 0.75, above the 0.7 of [maybe_null(prior, 0.7)]. *)
Definition three_quarters : N := 6755399441055744.
(** What one generated claim row satisfies. *)
Definition claim_facts (policies : list Policy) (c : Claim) : Prop :=
  clm_claim_number c = "CLM-" +:+ zfill 8 (clm_claim_id c) ∧
  (∃ pol, pol ∈ get_current_policies policies ∧
     clm_policy_id c = pol_policy_id pol ∧
     clm_policy_number c = pol_policy_number pol ∧
     clm_insured_id c = pol_insured_id pol ∧
     clm_line_of_business c = pol_line_of_business pol ∧
     clm_loss_state c = pol_state pol) ∧
  dt_day (mk_datetime 2020 1 1) ≤ clm_loss_date c
    ≤ dt_day (mk_datetime 2025 12 31) ∧
  clm_loss_date c ≤ clm_report_date c ≤ clm_loss_date c + 60 ∧
  clm_report_date c ≤ clm_entry_date c ≤ clm_report_date c + 30 ∧
  clm_entry_date c ≤ clm_processing_date c ≤ clm_entry_date c + 7 ∧
  to_date (clm_created_at c) = clm_entry_date c ∧
  to_date (clm_updated_at c) = clm_processing_date c.

(** The closing and reopening of one generated claim row. *)
Definition claim_closure (c : Claim) : Prop :=
  clm_claim_status c ∈ CLAIM_STATUSES ∧
  (∀ cd, clm_close_date c = Some cd →
     clm_report_date c + 30 ≤ cd ≤ clm_report_date c + 730 ∧
     (clm_reopen_date c = None → clm_claim_status c = "CLOSED")) ∧
  (∀ rd, clm_reopen_date c = Some rd →
     clm_claim_status c = "REOPENED" ∧
     ∃ cd, clm_close_date c = Some cd ∧ cd + 30 ≤ rd ≤ cd + 365) ∧
  (clm_close_date c = None → clm_reopen_date c = None).

(** What one generated coverage row satisfies. *)
Definition coverage_facts (policies : list Policy) (c : Coverage) : Prop :=
  (∃ pol, pol ∈ get_current_policies policies ∧
     cov_policy_id c = pol_policy_id pol ∧
     cov_effective_date c = pol_effective_date pol ∧
     cov_expiration_date c = pol_expiration_date pol) ∧
  cov_coverage_code c ∈ COVERAGE_TYPES ∧
  cov_coverage_description c = cov_coverage_code c +:+ " Coverage" ∧
  cov_coverage_limit c ∈ [25000; 50000; 100000; 250000; 500000; 1000000] ∧
  cov_coverage_deductible c ∈ [0; 250; 500; 1000; 2500].

(** The invariant of the loops of [gen_coverages] over their state
    [(cov_id, coverages)]. *)
Definition coverages_ok (policies : list Policy) (st : Z * list Coverage)
  : Prop :=
  1 ≤ st.1 ≤ NUM_COVERAGES + 1 ∧
  cov_coverage_id <$> st.2 = range 1 st.1 ∧
  Forall (coverage_facts policies) st.2.
(** What one generated claim-transaction row satisfies on its own. *)
Definition claim_txn_facts (claims : list Claim) (t : ClaimTxn) : Prop :=
  (∃ c, c ∈ get_active_claims claims ∧
     ctx_claim_id t = clm_claim_id c ∧
     ctx_claim_number t = clm_claim_number c) ∧
  ctx_transaction_type t ∈
    ["RESERVE_SET"; "RESERVE_CHANGE"; "PAYMENT"; "RECOVERY"; "EXPENSE";
     "VOID"] ∧
  ctx_category t ∈ ["LOSS"; "ALAE"; "ULAE"; "SALVAGE"; "SUBRO"] ∧
  (ctx_is_void t = true ↔ ctx_transaction_type t = "VOID") ∧
  (is_Some (ctx_void_of_transaction_id t) ↔ ctx_transaction_type t = "VOID") ∧
  ctx_transaction_date t ≤ ctx_posting_date t ≤ ctx_transaction_date t + 5 ∧
  (is_Some (ctx_check_date t) ↔ ctx_transaction_type t = "PAYMENT") ∧
  (∀ d, ctx_check_date t = Some d →
     ctx_posting_date t ≤ d ≤ ctx_posting_date t + 10) ∧
  (ctx_transaction_type t = "VOID" →
     ctx_check_number t = None ∧ ctx_payee_name t = None) ∧
  to_date (ctx_created_at t) = ctx_transaction_date t ∧
  ctx_posting_date t ≤ to_date (ctx_load_ts t) ≤ ctx_posting_date t + 3 ∧
  (∀ k, ctx_void_of_transaction_id t = Some k →
     k = ctx_transaction_id t - 1).

Definition claim_txns_rows (claims : list Claim) (st : Z * list ClaimTxn)
  : Prop :=
  Z.of_nat (length st.2) = st.1 - 1 ∧ st.1 ≤ NUM_CLAIM_TRANSACTIONS + 1 ∧
  Forall (claim_txn_facts claims) st.2.
(** What one generated premium-transaction row satisfies on its own. *)
Definition premium_txn_facts (policies : list Policy) (t : PremTxn) : Prop :=
  (∃ pol, pol ∈ get_current_policies policies ∧
     ptx_policy_id t = pol_policy_id pol ∧
     ptx_policy_number t = pol_policy_number pol ∧
     ptx_line_of_business t = pol_line_of_business pol ∧
     ptx_state t = pol_state pol ∧
     ptx_agent_id t = pol_agent_id pol) ∧
  ptx_transaction_type t ∈
    ["WRITTEN"; "EARNED"; "UNEARNED"; "CEDED"; "RETURN"; "AUDIT";
     "ENDORSEMENT"; "INSTALLMENT"; "REVERSAL"] ∧
  (ptx_is_reversal t = true ↔ ptx_transaction_type t = "REVERSAL") ∧
  (is_Some (ptx_reversal_of_transaction_id t)
     ↔ ptx_transaction_type t = "REVERSAL") ∧
  ptx_accounting_date t ≤ ptx_transaction_date t + 30 ∧
  ptx_booking_date t ≤ ptx_accounting_date t + 7 ∧
  ptx_accounting_period t = year_month (ptx_accounting_date t) ∧
  ptx_source_system t ∈ SOURCE_SYSTEMS ∧
  to_date (ptx_created_at t) = ptx_transaction_date t ∧
  ptx_accounting_date t ≤ to_date (ptx_load_ts t) ≤ ptx_booking_date t + 2 ∧
  (∀ k, ptx_reversal_of_transaction_id t = Some k →
     k = ptx_transaction_id t - 1).

Definition premium_txns_rows (policies : list Policy)
    (st : Z * list PremTxn) : Prop :=
  Z.of_nat (length st.2) = st.1 - 1 ∧ st.1 ≤ NUM_PREMIUM_TRANSACTIONS + 1 ∧
  Forall (premium_txn_facts policies) st.2.
(** What one generated quote row satisfies. *)
Definition quote_facts (insureds : list Insured) (agents : list Agent)
    (q : Quote) : Prop :=
  quo_quote_number q = "QUO-" +:+ zfill 6 (quo_quote_id q) ∧
  (∃ ins, ins ∈ insureds ∧ quo_insured_id q = insured_id ins ∧
          quo_state q = ins_state ins) ∧
  (∃ ag, ag ∈ agents ∧ quo_agent_id q = agent_id ag) ∧
  quo_line_of_business q ∈ LOB_CODES ∧
  quo_status q ∈ ["QUOTED"; "BOUND"; "DECLINED"; "EXPIRED"; "LOST"] ∧
  dt_day (mk_datetime 2020 1 1) ≤ quo_quote_date q
    ≤ dt_day (mk_datetime 2025 12 31) ∧
  to_date (quo_created_at q) = quo_quote_date q ∧
  (∀ r, quo_decline_reason q = Some r →
     r ∈ ["PRICE"; "COVERAGE"; "COMPETITOR"; "NOT_ELIGIBLE"]) ∧
  (∀ pid, quo_bound_policy_id q = Some pid → 1 ≤ pid ≤ NUM_POLICIES) ∧
  quo_source_system q ∈ SOURCE_SYSTEMS.
(** The notes written for one sampled claim, and the note written for one
    sampled policy. *)
Definition claim_notes_of (c : Claim) (block : list Note) : Prop :=
  (1 ≤ length block ≤ 5)%nat ∧
  Forall (λ n, note_entity_type n = "CLAIM" ∧
               note_entity_id n = clm_claim_id c ∧
               note_entity_number n = clm_claim_number c) block.

Definition policy_note_of (pol : Policy) (n : Note) : Prop :=
  note_entity_type n = "POLICY" ∧
  note_entity_id n = pol_policy_id pol ∧
  note_entity_number n = pol_policy_number pol.
(** [sum(...)] over integers. *)
Definition zsum (l : list Z) : Z := foldr Z.add 0 l.

(** The key a row of [gold_lob_year] is grouped by. *)
Definition lob_year_key (m : LobYear) : string * Z :=
  (ly_line_of_business m, ly_policy_year m).

(** What holds of every group of [lob_year] while it is built from the
    policies [seen]. *)
Definition lob_year_ok (seen : list Policy) (kv : string * Z * LobYear)
  : Prop :=
  kv.1 = lob_year_key kv.2 ∧
  assoc (ly_line_of_business kv.2) LOB_NAMES = Some (ly_lob_description kv.2) ∧
  (∃ pol, pol ∈ seen ∧ ly_line_of_business kv.2 = pol_line_of_business pol ∧
          ly_policy_year kv.2 = year_of (pol_effective_date pol)) ∧
  1 ≤ ly_policy_count kv.2 ∧
  0 ≤ ly_open_claim_count kv.2 ∧ 0 ≤ ly_closed_claim_count kv.2 ∧
  ly_claim_count kv.2 = ly_open_claim_count kv.2 + ly_closed_claim_count kv.2.

Definition lob_years_ok (seen : list Policy)
    (d : list (string * Z * LobYear)) : Prop :=
  NoDup d.*1 ∧
  zsum ((λ kv, ly_policy_count kv.2) <$> d) = Z.of_nat (length seen) ∧
  Forall (lob_year_ok seen) d.

(** The columns an underwriting row copies from its [gold_lob_year] row. *)
Definition uw_of (m : LobYear) (u : UwMetric) : Prop :=
  uw_line_of_business u = ly_line_of_business m ∧
  uw_lob_description u = ly_lob_description m ∧
  uw_policy_year u = ly_policy_year m ∧
  uw_written_premium u = ly_written_premium m ∧
  uw_earned_premium u = ly_earned_premium m ∧
  uw_net_incurred_loss u = ly_net_incurred_loss m ∧
  uw_total_lae u = ly_total_lae m ∧
  uw_loss_ratio u = ly_loss_ratio m ∧
  uw_lae_ratio u = ly_lae_ratio m.

Definition retention_ok (kv : string * Retention) : Prop :=
  kv.1 = rt_line_of_business kv.2 ∧
  0 ≤ rt_renewal_policies kv.2 ∧ 0 ≤ rt_new_policies kv.2 ∧
  rt_total_policies kv.2 = rt_renewal_policies kv.2 + rt_new_policies kv.2.

Definition retentions_ok (seen : list Policy)
    (d : list (string * Retention)) : Prop :=
  NoDup d.*1 ∧
  zsum ((λ kv, rt_total_policies kv.2) <$> d) = Z.of_nat (length seen) ∧
  Forall retention_ok d.

Definition quote_metric_ok (kv : string * Z * QuoteMetric) : Prop :=
  kv.1 = (qm_line_of_business kv.2, qm_quote_year kv.2) ∧
  0 ≤ qm_bound_quotes kv.2 ∧ 0 ≤ qm_declined_quotes kv.2 ∧
  0 ≤ qm_expired_quotes kv.2 ∧ 0 ≤ qm_lost_quotes kv.2 ∧
  qm_bound_quotes kv.2 + qm_declined_quotes kv.2 + qm_expired_quotes kv.2
    + qm_lost_quotes kv.2 ≤ qm_total_quotes kv.2.

Definition quote_metrics_ok (seen : list Quote)
    (d : list (string * Z * QuoteMetric)) : Prop :=
  NoDup d.*1 ∧
  zsum ((λ kv, qm_total_quotes kv.2) <$> d) = Z.of_nat (length seen) ∧
  Forall quote_metric_ok d.

(** What [compute_gold_metrics] guarantees of its four tables. *)
Definition gold_shape (policies : list Policy) (quotes : list Quote)
    (gold : list LobYear * list UwMetric * list QuoteMetric * list Retention)
  : Prop :=
  let '(ly, uw, qm, rt) := gold in
  let current := get_current_policies policies in
  (NoDup (lob_year_key <$> ly) ∧
   zsum (ly_policy_count <$> ly) = Z.of_nat (length current) ∧
   (∀ m, m ∈ ly →
      assoc (ly_line_of_business m) LOB_NAMES = Some (ly_lob_description m) ∧
      (∃ pol, pol ∈ current ∧
              ly_line_of_business m = pol_line_of_business pol ∧
              ly_policy_year m = year_of (pol_effective_date pol)) ∧
      1 ≤ ly_policy_count m ∧
      0 ≤ ly_open_claim_count m ∧ 0 ≤ ly_closed_claim_count m ∧
      ly_claim_count m = ly_open_claim_count m + ly_closed_claim_count m) ∧
   Forall2 uw_of ly uw) ∧
  (NoDup ((λ q, (qm_line_of_business q, qm_quote_year q)) <$> qm) ∧
   zsum (qm_total_quotes <$> qm) = Z.of_nat (length quotes) ∧
   (∀ q, q ∈ qm →
      0 ≤ qm_bound_quotes q ∧ 0 ≤ qm_declined_quotes q ∧
      0 ≤ qm_expired_quotes q ∧ 0 ≤ qm_lost_quotes q ∧
      qm_bound_quotes q + qm_declined_quotes q + qm_expired_quotes q
        + qm_lost_quotes q ≤ qm_total_quotes q)) ∧
  (NoDup (rt_line_of_business <$> rt) ∧
   zsum (rt_total_policies <$> rt) = Z.of_nat (length current) ∧
   (∀ r, r ∈ rt →
      0 ≤ rt_renewal_policies r ∧ 0 ≤ rt_new_policies r ∧
      rt_total_policies r = rt_renewal_policies r + rt_new_policies r)).

(** A quote on a line of business that LOB_NAMES does not know. *)
Definition quote_other_lob : Quote :=
  {| quo_quote_id := 1; quo_quote_number := "QUO-000001";
     quo_insured_id := 1; quo_agent_id := 1;
     quo_line_of_business := "CYBER"; quo_state := "CA";
     quo_quote_date := 737425; quo_quoted_premium := 1000;
     quo_status := "QUOTED"; quo_decline_reason := None;
     quo_competitor_name := None; quo_bound_policy_id := None;
     quo_source_system := "MANUAL_ENTRY";
     quo_created_at := mkDT 737425 0 |}.
(** A question with a single expected value and expected values by key. *)
Definition question_both : Question :=
  {| q_id := "lr_ho_2023"; q_category := "loss_ratio";
     q_difficulty := "easy";
     q_question := "Loss ratio for HO in 2023?";
     q_gold_query := Some "SELECT 1";
     q_expected_value := Some (PyFloat f0_65);
     q_expected_values := Some [("loss_ratio", PyFloat f0_65)];
     q_tolerance := None |}.

(** Two questions and the gold answers of one of them, with texts as
    values. *)
Definition questions0 : list (list (string * string)) :=
  [[("id", "lr_ho_2023"); ("category", "loss_ratio");
    ("difficulty", "easy"); ("tolerance", "0.10")];
   [("id", "explain_cdc"); ("category", "modeling");
    ("difficulty", "hard")]].

Definition gold_answers0 : list (list (string * string)) :=
  [[("id", "lr_ho_2023"); ("expected_value", "0.65");
    ("tolerance", "0.05")];
   [("id", "lr_ho_2023"); ("expected_value", "0.66")]].

Definition merged0 : list (list (string * string)) :=
  [[("id", "lr_ho_2023"); ("category", "loss_ratio");
    ("difficulty", "easy"); ("tolerance", "0.10");
    ("expected_value", "0.66")];
   [("id", "explain_cdc"); ("category", "modeling");
    ("difficulty", "hard")]].


(* ===================================================================== *)
(** ** Reasoning about the monad and the random sources                   *)
(* ===================================================================== *)

Lemma bind_Ok {A B} (m : M A) (k : A → M B) w b w' :
  (m ≫= k) w = Ok (b, w') ↔ ∃ a w1, m w = Ok (a, w1) ∧ k a w1 = Ok (b, w').
Proof.
  unfold mbind, M_bind. destruct (m w) as [[a w1]|e]; split.
  - intros H. eauto.
  - intros (a' & w2 & Heq & H). by simplify_eq.
  - done.
  - intros (a' & w2 & Heq & H). done.
Qed.

Lemma ensures_ret {A} (a : A) (P : A → Prop) : P a → ensures (mret a) P.
Proof. intros H w. by exists a, w. Qed.

Lemma ensures_bind {A B} (m : M A) (k : A → M B) (P : A → Prop)
    (Q : B → Prop) :
  ensures m P → (∀ a, P a → ensures (k a) Q) → ensures (m ≫= k) Q.
Proof.
  intros Hm Hk w. destruct (Hm w) as (a & w1 & Ha & HP).
  destruct (Hk a HP w1) as (b & w' & Hb & HQ).
  exists b, w'. split; [|done]. apply bind_Ok. eauto.
Qed.

Lemma ensures_mono {A} (m : M A) (P Q : A → Prop) :
  ensures m P → (∀ a, P a → Q a) → ensures m Q.
Proof.
  intros Hm HPQ w. destruct (Hm w) as (a & w' & Ha & HP). eauto.
Qed.

Lemma ensures_if {A} (c : bool) (m1 m2 : M A) (P : A → Prop) :
  (c = true → ensures m1 P) → (c = false → ensures m2 P) →
  ensures (if c then m1 else m2) P.
Proof. destruct c; auto. Qed.

Lemma ensures_getrandbits : ensures getrandbits (λ _, True).
Proof. intros w. unfold getrandbits. eauto. Qed.

Lemma ensures_fake : ensures fake (λ _, True).
Proof. intros w. unfold fake. eauto. Qed.

Lemma ensures_random : ensures random (λ _, True).
Proof.
  unfold random. eapply ensures_bind; [apply ensures_getrandbits|].
  intros r _. by apply ensures_ret.
Qed.

Lemma ensures_randint (a b : Z) :
  a ≤ b → ensures (randint a b) (λ r, a ≤ r ≤ b).
Proof.
  intros Hab. unfold randint. rewrite (proj2 (Z.leb_le a b) Hab).
  eapply ensures_bind; [apply ensures_getrandbits|].
  intros r _. apply ensures_ret.
  pose proof (Z.mod_pos_bound (Z.of_N r) (b - a + 1)). lia.
Qed.

Lemma ensures_choice {A} (seq : list A) :
  seq ≠ [] → ensures (choice seq) (λ x, x ∈ seq).
Proof.
  intros Hne. destruct seq as [|x seq']; [done|]. unfold choice.
  eapply ensures_bind; [apply ensures_getrandbits|].
  intros r _. apply ensures_ret. apply nth_elem_of.
  pose proof (Z.mod_pos_bound (Z.of_N r) (Z.of_nat (length (x :: seq')))).
  simpl length in *. lia.
Qed.

Lemma ensures_uniform (a b : Q) : ensures (uniform a b) (λ _, True).
Proof.
  unfold uniform. eapply ensures_bind; [apply ensures_random|].
  intros u _. by apply ensures_ret.
Qed.

Lemma ensures_maybe_null {A} (value : A) (p : Q) :
  ensures (maybe_null value p) (λ o, o = None ∨ o = Some value).
Proof.
  unfold maybe_null. eapply ensures_bind; [apply ensures_random|].
  intros u _. apply ensures_ret. destruct (Qltb u p); auto.
Qed.

Lemma ensures_rand_date (y1 y2 : Z) :
  dt_day (mk_datetime y1 1 1) ≤ dt_day (mk_datetime y2 12 31) →
  ensures (rand_date y1 y2)
    (λ t, dt_day (mk_datetime y1 1 1) ≤ dt_day t ≤ dt_day (mk_datetime y2 12 31)
          ∧ dt_sec t = 0).
Proof.
  intros H. unfold rand_date.
  generalize dependent (mk_datetime y2 12 31). intros e H.
  assert (dt_sec (mk_datetime y1 1 1) = 0) as Hs by reflexivity.
  generalize dependent (mk_datetime y1 1 1). intros s H Hs.
  eapply ensures_bind; [apply ensures_randint; lia|].
  intros k Hk. cbv beta in Hk. apply ensures_ret.
  split; [cbn [add_days dt_day]; lia | done].
Qed.

Lemma ensures_rand_ts (base : datetime) : ensures (rand_ts base) (λ _, True).
Proof.
  unfold rand_ts.
  eapply ensures_bind; [apply ensures_randint; lia|]; intros h _.
  eapply ensures_bind; [apply ensures_randint; lia|]; intros m _.
  eapply ensures_bind; [apply ensures_randint; lia|]; intros s _.
  by apply ensures_ret.
Qed.

Lemma ensures_rand_premium : ensures rand_premium (λ _, True).
Proof.
  unfold rand_premium. eapply ensures_bind; [apply ensures_uniform|].
  intros u _. by apply ensures_ret.
Qed.

Lemma ensures_rand_amount (a b : Q) : ensures (rand_amount a b) (λ _, True).
Proof.
  unfold rand_amount. eapply ensures_bind; [apply ensures_uniform|].
  intros u _. by apply ensures_ret.
Qed.

Lemma ensures_lob_name (lob : string) :
  lob ∈ LOB_CODES → ensures (lob_name lob) (λ _, True).
Proof.
  intros H. unfold lob_name, LOB_CODES in *.
  repeat (apply elem_of_cons in H as [->|H]; [by apply ensures_ret|]).
  by apply elem_of_nil in H.
Qed.

(** A [for] loop keeps an invariant indexed by the items already visited. *)
Lemma ensures_for_each {A S} (body : A → S → M S) (I : list A → S → Prop)
    (xs : list A) (s : S) :
  I [] s →
  (∀ seen x s, x ∈ xs → I seen s → ensures (body x s) (I (seen ++ [x]))) →
  ensures (for_each xs body s) (I xs).
Proof.
  intros H0 Hbody.
  assert (∀ rest seen s, (∀ x, x ∈ rest → x ∈ xs) → I seen s →
            ensures (for_each rest body s) (I (seen ++ rest))) as Hgen.
  { induction rest as [|x rest IH]; intros seen s' Hin Hs; simpl.
    - apply ensures_ret. by rewrite app_nil_r.
    - eapply ensures_bind.
      + apply Hbody; [apply Hin; left|done].
      + intros s'' Hs''. replace (seen ++ x :: rest) with ((seen ++ [x]) ++ rest)
          by (by rewrite <- app_assoc).
        apply IH; [|done]. intros y Hy. apply Hin. by right. }
  apply (Hgen xs [] s); auto.
Qed.

(** The same for a loop whose body may return: [I] holds while the loop
    goes on, and [R] of the state it returns with. *)
Lemma ensures_for_loop {A S} (body : A → S → M (ctl S))
    (I : S → Prop) (xs : list A) (s : S) :
  I s →
  (∀ x s, x ∈ xs → I s → ensures (body x s) (λ c, I (ctl_state c))) →
  ensures (for_loop xs body s) (λ c, I (ctl_state c)).
Proof.
  intros H0 Hbody. revert s H0.
  induction xs as [|x xs IH]; intros s Hs; simpl.
  - by apply ensures_ret.
  - eapply ensures_bind.
    + apply Hbody; [left|done].
    + intros [s'|s'] Hs'; simpl in Hs'.
      * apply IH; [|done]. intros y s'' Hy. apply Hbody. by right.
      * by apply ensures_ret.
Qed.

Lemma range_cons (a b : Z) : a < b → range a b = a :: range (a + 1) b.
Proof.
  intros H. unfold range.
  replace (Z.to_nat (b - a)) with (S (Z.to_nat (b - (a + 1)))) by lia.
  simpl. f_equal; [lia|]. rewrite <- seq_shift, map_map.
  apply map_ext. intros k. lia.
Qed.

Lemma range_snoc (a b : Z) : a ≤ b → range a (b + 1) = range a b ++ [b].
Proof.
  intros H. unfold range.
  replace (Z.to_nat (b + 1 - a)) with (S (Z.to_nat (b - a))) by lia.
  rewrite seq_S, map_app. simpl. do 2 f_equal. lia.
Qed.

Lemma elem_of_range (a b x : Z) : x ∈ range a b ↔ a ≤ x < b.
Proof.
  unfold range. rewrite list_elem_of_In, in_map_iff. split.
  - intros (k & <- & Hk). apply in_seq in Hk. lia.
  - intros H. exists (Z.to_nat (x - a)). split; [lia|]. apply in_seq. lia.
Qed.

Lemma NoDup_range (a b : Z) : NoDup (range a b).
Proof.
  unfold range. apply NoDup_fmap_2; [|apply NoDup_seq].
  intros x y. lia.
Qed.

(** The calendar: the range drawn by [rand_date(2020, 2025)] starts on
    ordinal 737425 and ends on 739616; a leap day and a year end. *)
Example calendar_checks :
  mk_datetime 2020 1 1 = mkDT 737425 0 ∧
  mk_datetime 2025 12 31 = mkDT 739616 0 ∧
  ymd_of 737425 = (2020, 1, 1) ∧ ymd_of 739616 = (2025, 12, 31) ∧
  ymd_of 737484 = (2020, 2, 29) ∧ ymd_of 737790 = (2020, 12, 31) ∧
  year_of 737791 = 2021 ∧ year_month 737484 = "2020-02".
Proof. by vm_compute. Qed.

(** Proof steps for a computation built from the primitives above:
    [ens_prim] discharges one primitive, keeping or forgetting what it
    guarantees; [ens_go] walks through the binds it can discharge. *)
Ltac ens_use lem :=
  first [ apply lem | eapply ensures_mono; [apply lem | cbv beta; done] ].

Ltac ens_prim :=
  lazymatch goal with
  | |- ensures (randint _ _) _ =>
      first [ apply ensures_randint; first [lia | by vm_compute]
            | eapply ensures_mono;
                [apply ensures_randint; first [lia | by vm_compute]
                | cbv beta; done] ]
  | |- ensures (choice _) _ =>
      first [ apply ensures_choice; done
            | eapply ensures_mono; [apply ensures_choice; done | cbv beta; done] ]
  | |- ensures random _ => ens_use ensures_random
  | |- ensures fake _ => ens_use ensures_fake
  | |- ensures (uniform _ _) _ => ens_use ensures_uniform
  | |- ensures (maybe_null _ _) _ => ens_use ensures_maybe_null
  | |- ensures (rand_ts _) _ => ens_use ensures_rand_ts
  | |- ensures rand_premium _ => ens_use ensures_rand_premium
  | |- ensures (rand_amount _ _) _ => ens_use ensures_rand_amount
  | |- ensures (rand_date 2020 2025) _ =>
      first [ apply ensures_rand_date; done
            | eapply ensures_mono; [apply ensures_rand_date; done | cbv beta; done] ]
  | |- ensures (lob_name _) _ =>
      first [ apply ensures_lob_name; assumption
            | eapply ensures_mono; [apply ensures_lob_name; assumption | done] ]
  end.

Ltac ens_go :=
  repeat (eapply ensures_bind; [ens_prim | intros ? ?; cbv beta in *]).

(** A computation all of whose parts return, when nothing more is asked. *)
Ltac ens_triv :=
  repeat first
    [ apply ensures_ret; exact I
    | apply ensures_if; intros _
    | eapply ensures_bind; [ens_prim | intros ? _ ] ].

(* ===================================================================== *)
(** ** The versioned-policy generator                                     *)
(* ===================================================================== *)

Lemma policy_base_spec (insureds : list Insured) (agents : list Agent) (i : Z) :
  insureds ≠ [] → agents ≠ [] →
  ensures (policy_base insureds agents i) (base_ok i).
Proof.
  intros Hi Ha. unfold policy_base. ens_go.
  eapply (ensures_bind _ _ (λ n, 1 ≤ n ≤ 3)).
  { apply ensures_if; intros _; [|by apply ensures_ret].
    eapply ensures_mono; [apply ensures_choice; done|].
    intros n Hn. cbv beta in Hn.
    repeat (apply elem_of_cons in Hn as [->|Hn]; [lia|]).
    by apply elem_of_nil in Hn. }
  intros n Hn. apply ensures_ret.
  unfold base_ok, to_date; cbn [pb_i pb_num_versions pb_lob pb_eff pb_binding
    pb_issue pb_system_entry pb_booking add_days dt_day].
  repeat split; try done; lia.
Qed.

Lemma policy_version_spec (b : PolicyBase) (v : Z) (st : Z * list Policy) :
  pb_lob b ∈ LOB_CODES →
  ensures (policy_version b v st)
    (λ st', ∃ r, st' = (st.1 + 1, st.2 ++ [r]) ∧ version_row b v r).
Proof.
  intros Hlob. unfold policy_version.
  eapply ensures_bind; [ens_prim|]. intros d Hd. cbv beta in Hd.
  eapply (ensures_bind _ _
            (λ vt, vt = None ↔ (v =? pb_num_versions b - 1) = true)).
  { apply ensures_if; intros Hc; [by apply ensures_ret|].
    eapply ensures_bind; [ens_prim|]. intros d' _. apply ensures_ret.
    rewrite Hc. done. }
  intros valid_to Hvt.
  eapply (ensures_bind _ _ (λ _, True)).
  { apply ensures_if; intros _; [by apply ensures_ret|].
    eapply ensures_bind; [ens_prim|]; intros f _.
    eapply ensures_bind; [ens_prim|]; intros g _.
    eapply ensures_bind; [ens_prim|]; intros u _.
    ens_triv. }
  intros [[[[premium exposure] status] cancel_date] cancel_reason] _.
  eapply (ensures_bind _ _
            (λ del, del = true → (v =? pb_num_versions b - 1) = false)).
  { apply ensures_if; intros Hc.
    - eapply ensures_bind; [ens_prim|]. intros u _. apply ensures_ret.
      intros _. by apply negb_true_iff in Hc.
    - by apply ensures_ret. }
  intros is_deleted Hdel. ens_go. apply ensures_ret.
  eexists. split; [reflexivity|].
  unfold version_row; cbn. repeat split; try done; try apply Hvt.
  exists d. done.
Qed.

Lemma policy_versions_spec (insureds : list Insured) (agents : list Agent)
    (i : Z) (st : Z * list Policy) :
  insureds ≠ [] → agents ≠ [] →
  ensures (policy_versions insureds agents i st)
    (λ st', ∃ rows, st'.2 = st.2 ++ rows ∧ policy_block i rows).
Proof.
  intros Hi Ha. unfold policy_versions.
  eapply ensures_bind; [by apply policy_base_spec|].
  intros b Hb. cbv beta in Hb.
  eapply ensures_mono.
  - apply (ensures_for_each _
             (λ seen st', ∃ rows, st'.2 = st.2 ++ rows
                                  ∧ Forall2 (version_row b) seen rows)).
    + exists []. by rewrite app_nil_r.
    + intros seen v st' _ (rows & Hst & Hrows).
      eapply ensures_mono; [apply policy_version_spec; apply Hb|].
      intros st'' (r & -> & Hr). exists (rows ++ [r]). split.
      * cbn. by rewrite Hst, <- app_assoc.
      * apply Forall2_app; [done|]. by constructor.
  - intros st' (rows & Hst & Hrows). exists rows. split; [done|].
    by exists b.
Qed.

Lemma gen_policies_blocks (insureds : list Insured) (agents : list Agent) :
  insureds ≠ [] → agents ≠ [] →
  ensures (gen_policies_with_cdc insureds agents)
    (blocks_of (range 1 (NUM_POLICIES + 1))).
Proof.
  intros Hi Ha. unfold gen_policies_with_cdc.
  eapply ensures_bind.
  - apply (ensures_for_each _ (λ seen st, blocks_of seen st.2)).
    + by exists [].
    + intros seen i st _ (blocks & Hst & Hblocks).
      eapply ensures_mono; [by apply policy_versions_spec|].
      intros st' (rows & Hst' & Hrows). exists (blocks ++ [rows]). split.
      * rewrite Hst', Hst, concat_app. cbn. by rewrite app_nil_r.
      * apply Forall2_app; [done|]. by constructor.
  - intros st Hst. by apply ensures_ret.
Qed.

(** *** The rows of one policy *)

Lemma version_rows_elem (b : PolicyBase) (vs : list Z) (rows : list Policy)
    (r : Policy) :
  Forall2 (version_row b) vs rows → r ∈ rows →
  ∃ v, v ∈ vs ∧ version_row b v r.
Proof.
  intros H Hr. apply list_elem_of_lookup in Hr as [k Hk].
  destruct (Forall2_lookup_r _ _ _ _ _ H Hk) as (v & Hv & Hvr).
  exists v. split; [|done]. apply list_elem_of_lookup. eauto.
Qed.

(** A block ends with its current row; the rows before it are not current
    and carry smaller version numbers. *)
Lemma policy_block_last (i : Z) (rows : list Policy) :
  policy_block i rows →
  ∃ init cur,
    rows = init ++ [cur] ∧
    pol_policy_id cur = i ∧
    pol_is_current_record cur = true ∧ pol_is_deleted cur = false ∧
    pol_valid_to cur = None ∧
    Forall (λ r, pol_policy_id r = i ∧ pol_is_current_record r = false ∧
                 pol_valid_to r ≠ None ∧
                 pol_version_number r < pol_version_number cur) init.
Proof.
  intros (b & (Hi & Hn & _) & Hrows).
  replace (pb_num_versions b) with (pb_num_versions b - 1 + 1) in Hrows by lia.
  rewrite range_snoc in Hrows by lia.
  apply Forall2_app_inv_l in Hrows as (init & last & Hinit & Hlast & ->).
  apply Forall2_cons_inv_l in Hlast as (cur & tl & Hcur & Htl & ->).
  apply Forall2_nil_inv_l in Htl as ->.
  destruct Hcur as (Hid & Hver & Hcur & Hdel & Hvt & _).
  rewrite Z.eqb_refl in Hcur.
  exists init, cur. repeat split; try done.
  - congruence.
  - destruct (pol_is_deleted cur); [|done].
    specialize (Hdel eq_refl). congruence.
  - by apply Hvt.
  - apply Forall_forall. intros r Hr.
    destruct (version_rows_elem _ _ _ _ Hinit Hr) as (v & Hv & Hrow).
    apply elem_of_range in Hv.
    destruct Hrow as (Hid' & Hver' & Hcur' & _ & Hvt' & _).
    assert (pol_is_current_record r = false) as Hnc.
    { rewrite Hcur'. apply Z.eqb_neq. lia. }
    repeat split; [congruence|done| |lia].
    intros Hnone. apply Hvt' in Hnone. congruence.
Qed.

Lemma policy_block_elem (i : Z) (rows : list Policy) (r : Policy) :
  policy_block i rows → r ∈ rows →
  pol_policy_id r = i ∧
  (pol_is_deleted r = true → pol_is_current_record r = false) ∧
  pol_binding_date r < pol_effective_date r ∧
  pol_binding_date r ≤ pol_issue_date r ∧
  pol_issue_date r ≤ pol_system_entry_date r ∧
  pol_system_entry_date r ≤ pol_booking_date r.
Proof.
  intros (b & (Hi & Hn & _ & Hd) & Hrows) Hr.
  destruct (version_rows_elem _ _ _ _ Hrows Hr) as (v & _ & Hrow).
  destruct Hrow as (Hid & _ & _ & Hdel & _ & _ & -> & -> & -> & -> & ->).
  repeat split; [congruence|done|lia..].
Qed.

(** *** The whole output *)

Lemma elem_of_concat {A} (x : A) (ls : list (list A)) :
  x ∈ concat ls ↔ ∃ l, x ∈ l ∧ l ∈ ls.
Proof.
  induction ls as [|l ls IH]; cbn.
  - split; [by intros ?%elem_of_nil|]. by intros (l & _ & ?%elem_of_nil).
  - rewrite elem_of_app, IH. split.
    + intros [H|(l' & H & Hl')]; [exists l|exists l']; split; try done;
        [left|by right].
    + intros (l' & H & [->|Hl']%elem_of_cons); [by left|right; eauto].
Qed.

Lemma blocks_of_elem (ids : list Z) (ps : list Policy) (p : Policy) :
  blocks_of ids ps → p ∈ ps →
  ∃ i rows, i ∈ ids ∧ policy_block i rows ∧ p ∈ rows.
Proof.
  intros (blocks & -> & Hb) Hp.
  apply elem_of_concat in Hp as (rows & Hp & Hrows).
  apply list_elem_of_lookup in Hrows as [k Hk].
  destruct (Forall2_lookup_r _ _ _ _ _ Hb Hk) as (i & Hi & Hblock).
  exists i, rows. split; [|done]. apply list_elem_of_lookup. eauto.
Qed.

Lemma filter_all {A} (P : A → Prop) `{∀ x, Decision (P x)} (l : list A) :
  Forall P l → filter P l = l.
Proof.
  induction 1 as [|x l Hx Hl IH]; [done|].
  rewrite filter_cons_True by done. by rewrite IH.
Qed.

Lemma filter_none {A} (P : A → Prop) `{∀ x, Decision (P x)} (l : list A) :
  Forall (λ x, ¬ P x) l → filter P l = [].
Proof.
  induction 1 as [|x l Hx Hl IH]; [done|].
  by rewrite filter_cons_False.
Qed.

(** Selecting one [policy_id] from the output yields that policy's block. *)
Lemma blocks_of_filter (ids : list Z) (ps : list Policy) (i : Z) :
  blocks_of ids ps → NoDup ids → i ∈ ids →
  ∃ rows, policy_block i rows ∧ filter (λ p, pol_policy_id p = i) ps = rows.
Proof.
  intros (blocks & -> & Hb). revert i.
  induction Hb as [|j rows ids blocks Hrows Hb IH]; intros i Hnd Hi.
  - by apply elem_of_nil in Hi.
  - apply NoDup_cons in Hnd as [Hj Hnd]. cbn. rewrite filter_app.
    destruct (decide (i = j)) as [->|Hne].
    + exists rows. split; [done|].
      rewrite (filter_all _ rows), (filter_none _ (concat blocks)).
      * by rewrite app_nil_r.
      * apply Forall_forall. intros p Hp Hid.
        destruct (blocks_of_elem ids (concat blocks) p) as (k & rs & Hk & Hrs & Hin);
          [by exists blocks|done|].
        apply (policy_block_elem _ _ _ Hrs) in Hin as [Hin _]. congruence.
      * apply Forall_forall. intros p Hp.
        by apply (policy_block_elem _ _ _ Hrows) in Hp as [Hp _].
    + apply elem_of_cons in Hi as [->|Hi]; [done|].
      destruct (IH i Hnd Hi) as (rs & Hrs & Hf). exists rs. split; [done|].
      rewrite Hf, (filter_none _ rows); [done|].
      apply Forall_forall. intros p Hp Hid.
      apply (policy_block_elem _ _ _ Hrows) in Hp as [Hp _]. congruence.
Qed.

(** The rows of [policy_id = i] that are marked current, in a well-shaped
    output: exactly the last row of the block. *)
Lemma blocks_of_current (ids : list Z) (ps : list Policy) (i : Z) :
  blocks_of ids ps → NoDup ids → i ∈ ids →
  ∃ cur,
    filter (λ p, pol_policy_id p = i ∧ pol_is_current_record p = true) ps
      = [cur] ∧
    pol_is_deleted cur = false ∧ pol_valid_to cur = None ∧
    ∀ p, p ∈ ps → pol_policy_id p = i →
         pol_version_number p ≤ pol_version_number cur ∧
         (pol_is_current_record p = false → pol_valid_to p ≠ None).
Proof.
  intros Hps Hnd Hi.
  destruct (blocks_of_filter ids ps i Hps Hnd Hi) as (rows & Hrows & Hf).
  destruct (policy_block_last i rows Hrows)
    as (init & cur & -> & Hid & Hcur & Hdel & Hvt & Hinit).
  exists cur. split; [|split; [done|split; [done|]]].
  - transitivity (filter (λ p, pol_is_current_record p = true)
                    (filter (λ p, pol_policy_id p = i) ps)).
    { rewrite list_filter_filter. apply list_filter_iff. intros p. tauto. }
    rewrite Hf, filter_app, (filter_none _ init).
    + by rewrite filter_cons_True.
    + eapply Forall_impl; [exact Hinit|]. intros r (_ & Hr & _). congruence.
  - intros p Hp Hpid.
    assert (p ∈ init ++ [cur]) as Hin.
    { rewrite <- Hf. by apply list_elem_of_filter. }
    apply elem_of_app in Hin as [Hin|Hin].
    + rewrite Forall_forall in Hinit.
      destruct (Hinit p Hin) as (_ & _ & Hnn & Hlt). split; [lia|done].
    + apply list_elem_of_singleton in Hin as ->. split; [lia|congruence].
Qed.

(** *** The properties of the policy stream *)

(** C1.  The generator returns, every row carries a [policy_id] of
    1..NUM_POLICIES, and for each such id exactly one row is marked
    [is_current_record]; no row of the id has a larger [version_number]. *)
Theorem C1_one_current_version_is_latest
    (insureds : list Insured) (agents : list Agent) (w : World) :
  insureds ≠ [] → agents ≠ [] →
  ∃ ps w',
    gen_policies_with_cdc insureds agents w = Ok (ps, w') ∧
    (∀ p, p ∈ ps → 1 ≤ pol_policy_id p ≤ NUM_POLICIES) ∧
    ∀ i, 1 ≤ i ≤ NUM_POLICIES →
      ∃ cur,
        filter (λ p, pol_policy_id p = i ∧ pol_is_current_record p = true) ps
          = [cur] ∧
        ∀ p, p ∈ ps → pol_policy_id p = i →
             pol_version_number p ≤ pol_version_number cur.
Proof.
  intros Hi Ha.
  destruct (gen_policies_blocks insureds agents Hi Ha w) as (ps & w' & Hrun & Hps).
  exists ps, w'. split; [done|]. split.
  - intros p Hp.
    destruct (blocks_of_elem _ _ _ Hps Hp) as (i & rows & Hin & Hrows & Hpr).
    apply elem_of_range in Hin.
    apply (policy_block_elem _ _ _ Hrows) in Hpr as [-> _]. lia.
  - intros i Hin.
    destruct (blocks_of_current _ ps i Hps (NoDup_range _ _)) as (cur & Hf & _ & _ & Hmax).
    { apply elem_of_range. lia. }
    exists cur. split; [done|]. intros p Hp Hpid. by apply Hmax.
Qed.

Lemma C1_witness :
  ∃ ps w',
    gen_policies_with_cdc [insured0] [agent0] (world_of []) = Ok (ps, w') ∧
    (∀ p, p ∈ ps → 1 ≤ pol_policy_id p ≤ NUM_POLICIES) ∧
    ∀ i, 1 ≤ i ≤ NUM_POLICIES →
      ∃ cur,
        filter (λ p, pol_policy_id p = i ∧ pol_is_current_record p = true) ps
          = [cur] ∧
        ∀ p, p ∈ ps → pol_policy_id p = i →
             pol_version_number p ≤ pol_version_number cur.
Proof.
  apply (C1_one_current_version_is_latest [insured0] [agent0] (world_of []));
    discriminate.
Defined.

(** C8.  The generator returns, and on every policy-version row
    binding_date <= issue_date <= system_entry_date <= booking_date; the
    binding date lies before the effective date. *)
Theorem C8_policy_dates_ordered
    (insureds : list Insured) (agents : list Agent) (w : World) :
  insureds ≠ [] → agents ≠ [] →
  ∃ ps w',
    gen_policies_with_cdc insureds agents w = Ok (ps, w') ∧
    ∀ p, p ∈ ps →
      pol_binding_date p ≤ pol_issue_date p ∧
      pol_issue_date p ≤ pol_system_entry_date p ∧
      pol_system_entry_date p ≤ pol_booking_date p ∧
      pol_binding_date p < pol_effective_date p.
Proof.
  intros Hi Ha.
  destruct (gen_policies_blocks insureds agents Hi Ha w) as (ps & w' & Hrun & Hps).
  exists ps, w'. split; [done|]. intros p Hp.
  destruct (blocks_of_elem _ _ _ Hps Hp) as (i & rows & _ & Hrows & Hpr).
  apply (policy_block_elem _ _ _ Hrows) in Hpr. tauto.
Qed.

Lemma C8_witness :
  ∃ ps w',
    gen_policies_with_cdc [insured0] [agent0] (world_of []) = Ok (ps, w') ∧
    ∀ p, p ∈ ps →
      pol_binding_date p ≤ pol_issue_date p ∧
      pol_issue_date p ≤ pol_system_entry_date p ∧
      pol_system_entry_date p ≤ pol_booking_date p ∧
      pol_binding_date p < pol_effective_date p.
Proof.
  apply (C8_policy_dates_ordered [insured0] [agent0] (world_of []));
    discriminate.
Defined.

(** What [get_current_policies] keeps of a well-shaped stream: for each id
    its one current row, which is not deleted. *)
Lemma blocks_of_current_state (ids : list Z) (ps : list Policy) (i : Z) :
  blocks_of ids ps → NoDup ids → i ∈ ids →
  ∃ cur,
    filter (λ p, pol_policy_id p = i ∧ pol_is_current_record p = true
                 ∧ pol_is_deleted p = false) ps = [cur] ∧
    filter (λ p, pol_policy_id p = i) (get_current_policies ps) = [cur].
Proof.
  intros Hps Hnd Hi.
  destruct (blocks_of_current ids ps i Hps Hnd Hi) as (cur & Hf & Hdel & _).
  assert (filter (λ p, pol_is_deleted p = false)
            (filter (λ p, pol_policy_id p = i ∧ pol_is_current_record p = true)
               ps) = [cur]) as Hc.
  { rewrite Hf. by rewrite filter_cons_True. }
  rewrite list_filter_filter in Hc.
  exists cur. split.
  - rewrite <- Hc. apply list_filter_iff. intros p. tauto.
  - unfold get_current_policies. rewrite list_filter_filter, <- Hc.
    apply list_filter_iff. intros p. tauto.
Qed.

(** C10.  The generator returns; a soft-deleted row is never the current
    one; and for every id of 1..NUM_POLICIES exactly one row is current and
    not deleted, which is the one row [get_current_policies] returns for
    that id. *)
Theorem C10_every_policy_has_one_current_state
    (insureds : list Insured) (agents : list Agent) (w : World) :
  insureds ≠ [] → agents ≠ [] →
  ∃ ps w',
    gen_policies_with_cdc insureds agents w = Ok (ps, w') ∧
    (∀ p, p ∈ ps → pol_is_deleted p = true → pol_is_current_record p = false) ∧
    ∀ i, 1 ≤ i ≤ NUM_POLICIES →
      ∃ cur,
        filter (λ p, pol_policy_id p = i ∧ pol_is_current_record p = true
                     ∧ pol_is_deleted p = false) ps = [cur] ∧
        filter (λ p, pol_policy_id p = i) (get_current_policies ps) = [cur].
Proof.
  intros Hi Ha.
  destruct (gen_policies_blocks insureds agents Hi Ha w) as (ps & w' & Hrun & Hps).
  exists ps, w'. split; [done|]. split.
  - intros p Hp.
    destruct (blocks_of_elem _ _ _ Hps Hp) as (i & rows & _ & Hrows & Hpr).
    apply (policy_block_elem _ _ _ Hrows) in Hpr. tauto.
  - intros i Hin. apply (blocks_of_current_state _ ps i Hps (NoDup_range _ _)).
    apply elem_of_range. lia.
Qed.

Lemma C10_witness :
  ∃ ps w',
    gen_policies_with_cdc [insured0] [agent0] (world_of []) = Ok (ps, w') ∧
    (∀ p, p ∈ ps → pol_is_deleted p = true → pol_is_current_record p = false) ∧
    ∀ i, 1 ≤ i ≤ NUM_POLICIES →
      ∃ cur,
        filter (λ p, pol_policy_id p = i ∧ pol_is_current_record p = true
                     ∧ pol_is_deleted p = false) ps = [cur] ∧
        filter (λ p, pol_policy_id p = i) (get_current_policies ps) = [cur].
Proof.
  apply (C10_every_policy_has_one_current_state [insured0] [agent0]
           (world_of [])); discriminate.
Defined.

(** *** The CDC window *)

Lemma policy_block_rows (i : Z) (rows : list Policy) :
  policy_block i rows →
  ∃ b, base_ok i b ∧
       ∀ r, r ∈ rows →
         ∃ v, 0 ≤ v < pb_num_versions b ∧ version_row b v r.
Proof.
  intros (b & Hb & Hrows). exists b. split; [done|]. intros r Hr.
  destruct (version_rows_elem _ _ _ _ Hrows Hr) as (v & Hv & Hrow).
  apply elem_of_range in Hv. exists v. split; [lia|done].
Qed.

(** The loop over the policy ids only appends to the list of rows. *)
Lemma policies_loop_extends (insureds : list Insured) (agents : list Agent)
    (ids : list Z) (st : Z * list Policy) :
  insureds ≠ [] → agents ≠ [] →
  ensures (for_each ids (policy_versions insureds agents) st)
    (λ st', ∃ more, st'.2 = st.2 ++ more).
Proof.
  intros Hi Ha.
  apply (ensures_for_each _ (λ _ st', ∃ more, st'.2 = st.2 ++ more)).
  - exists []. by rewrite app_nil_r.
  - intros _ i st' _ (more & Hmore).
    eapply ensures_mono; [by apply policy_versions_spec|].
    intros st'' (rows & Hst'' & _). exists (more ++ rows).
    by rewrite Hst'', Hmore, <- app_assoc.
Qed.

(** What does hold of the window: the current row, and only it, has no
    [_valid_to]; and the first version of a policy becomes valid before
    each of its later versions. *)
Lemma valid_to_null_iff_current
    (insureds : list Insured) (agents : list Agent) (w : World) :
  insureds ≠ [] → agents ≠ [] →
  ∃ ps w',
    gen_policies_with_cdc insureds agents w = Ok (ps, w') ∧
    ∀ p, p ∈ ps → (pol_valid_to p = None ↔ pol_is_current_record p = true).
Proof.
  intros Hi Ha.
  destruct (gen_policies_blocks insureds agents Hi Ha w) as (ps & w' & Hrun & Hps).
  exists ps, w'. split; [done|]. intros p Hp.
  destruct (blocks_of_elem _ _ _ Hps Hp) as (i & rows & _ & Hrows & Hpr).
  destruct (policy_block_rows _ _ Hrows) as (b & _ & Hall).
  destruct (Hall p Hpr) as (v & _ & Hrow). apply Hrow.
Qed.

Lemma first_version_is_earliest
    (insureds : list Insured) (agents : list Agent) (w : World) :
  insureds ≠ [] → agents ≠ [] →
  ∃ ps w',
    gen_policies_with_cdc insureds agents w = Ok (ps, w') ∧
    ∀ p q, p ∈ ps → q ∈ ps → pol_policy_id p = pol_policy_id q →
      pol_version_number p = 1 → 1 < pol_version_number q →
      dt_day (pol_valid_from p) < dt_day (pol_valid_from q).
Proof.
  intros Hi Ha.
  destruct (gen_policies_blocks insureds agents Hi Ha w) as (ps & w' & Hrun & Hps).
  exists ps, w'. split; [done|]. intros p q Hp Hq Hid Hvp Hvq.
  destruct (blocks_of_elem _ _ _ Hps Hp) as (i & rows & Hin & Hrows & Hpr).
  pose proof (policy_block_elem _ _ _ Hrows Hpr) as [Hpi _].
  destruct (blocks_of_filter _ ps i Hps (NoDup_range _ _) Hin) as (rs & Hrs & Hf).
  assert (p ∈ rs ∧ q ∈ rs) as [Hp' Hq'].
  { rewrite <- Hf. split; apply list_elem_of_filter; split; congruence. }
  destruct (policy_block_rows _ _ Hrs) as (b & _ & Hall).
  destruct (Hall p Hp') as (vp & _ & _ & Hnp & _ & _ & _ & (dp & _ & ->) & _).
  destruct (Hall q Hq') as (vq & _ & _ & Hnq & _ & _ & _ & (dq & Hdq & ->) & _).
  cbn [add_days dt_day]. nia.
Qed.

(** C2.  On the draws [nonmonotone_draws] the generator returns a stream in
    which version 2 of policy 1 becomes valid on day 737514 and version 3
    on day 737444, seventy days earlier: [_valid_from] is not increasing in
    [version_number]. *)
Theorem C2_valid_from_can_decrease :
  ∃ ps w' p q,
    gen_policies_with_cdc [insured0] [agent0] (world_of nonmonotone_draws)
      = Ok (ps, w') ∧
    p ∈ ps ∧ q ∈ ps ∧
    pol_policy_id p = 1 ∧ pol_policy_id q = 1 ∧
    pol_version_number p = 2 ∧ pol_version_number q = 3 ∧
    pol_valid_from p = mkDT 737514 0 ∧ pol_valid_from q = mkDT 737444 0.
Proof.
  assert (∃ r1 r2 r3 w1,
            policy_versions [insured0] [agent0] 1 (0, [])
              (world_of nonmonotone_draws) = Ok ((3, [r1; r2; r3]), w1) ∧
            pol_policy_id r2 = 1 ∧ pol_policy_id r3 = 1 ∧
            pol_version_number r2 = 2 ∧ pol_version_number r3 = 3 ∧
            pol_valid_from r2 = mkDT 737514 0 ∧
            pol_valid_from r3 = mkDT 737444 0)
    as (r1 & r2 & r3 & w1 & H1 & Hfacts).
  { vm_compute. do 4 eexists. split; [reflexivity|]. by repeat split. }
  destruct (policies_loop_extends [insured0] [agent0]
              (range 2 (NUM_POLICIES + 1)) (3, [r1; r2; r3])
              ltac:(discriminate) ltac:(discriminate) w1)
    as (st & w' & Hrest & more & Hmore).
  exists st.2, w', r2, r3. split.
  - unfold gen_policies_with_cdc. rewrite (range_cons 1) by done.
    apply bind_Ok. exists st, w'. split; [|done].
    cbn [for_each]. apply bind_Ok. eauto.
  - cbn in Hmore. rewrite Hmore.
    split; [by right; left|]. split; [by right; right; left|]. apply Hfacts.
Qed.

(* ===================================================================== *)
(** ** Claim transactions and their voids                                 *)
(* ===================================================================== *)

Tactic Notation "ens_bind" "as" simple_intropattern(x) simple_intropattern(H) :=
  eapply ensures_bind;
    [ens_prim
    | intros x; let Hf := fresh in
                intros Hf; cbv beta in Hf; revert Hf; intros H].

Lemma void_ok_mono (txns more : list ClaimTxn) (v : ClaimTxn) :
  void_ok txns v → void_ok (txns ++ more) v.
Proof.
  intros H Hv. destruct (H Hv) as (p & Hp & Hrest).
  exists p. split; [|done]. apply elem_of_app. by left.
Qed.

Lemma claim_txns_ok_snoc (claims : list Claim) (id : Z)
    (txns : list ClaimTxn) (t : ClaimTxn) :
  claim_txns_ok claims (id, txns) →
  ctx_transaction_id t = id →
  void_ok (txns ++ [t]) t →
  (∃ c, c ∈ claims ∧ clm_is_deleted c = false ∧
        ctx_claim_id t = clm_claim_id c) →
  claim_txns_ok claims (id + 1, txns ++ [t]).
Proof.
  intros (Hid & Hids & Hvoid & Hclaims) Ht Hv Hc. cbn in *.
  repeat split; cbn.
  - lia.
  - rewrite fmap_app, Hids, range_snoc by lia. cbn. by rewrite Ht.
  - apply Forall_app. split; [|by constructor].
    eapply Forall_impl; [exact Hvoid|]. intros v. apply void_ok_mono.
  - apply Forall_app. split; [done|by constructor].
Qed.

Lemma void_txn_spec (claim : Claim) (txn_id : Z) (txn_date : datetime)
    (amount : Q) (category : string) :
  ensures (void_txn claim txn_id txn_date amount category)
    (λ v, ctx_transaction_id v = txn_id ∧
          ctx_claim_id v = clm_claim_id claim ∧
          ctx_transaction_type v = "VOID" ∧
          ctx_void_of_transaction_id v = Some (txn_id - 1) ∧
          ctx_amount v = (- amount)%Q ∧
          to_date txn_date ≤ ctx_transaction_date v ∧
          ctx_transaction_date v ≤ ctx_posting_date v).
Proof.
  unfold void_txn.
  ens_bind as k Hk. ens_bind as k' Hk'. ens_bind as created_by _.
  ens_bind as load_ts _. apply ensures_ret.
  cbn [ctx_transaction_id ctx_claim_id ctx_transaction_type
       ctx_void_of_transaction_id ctx_amount ctx_transaction_date
       ctx_posting_date to_date add_days dt_day].
  unfold to_date. repeat split; try done; lia.
Qed.

Lemma claim_txn_step_spec (claims : list Claim) (claim : Claim) (j : Z)
    (st : Z * list ClaimTxn) :
  claim ∈ claims → clm_is_deleted claim = false →
  claim_txns_ok claims st →
  ensures (claim_txn_step claim j st)
    (λ c, claim_txns_ok claims (ctl_state c)).
Proof.
  intros Hin Hdel Hst. unfold claim_txn_step.
  destruct (NUM_CLAIM_TRANSACTIONS <? st.1); [by apply ensures_ret|].
  ens_bind as txn_type Hty. ens_bind as txn_date _. ens_bind as k _.
  eapply (ensures_bind _ _ (λ _, True)); [ens_triv|]. intros check_date _.
  ens_bind as amount _. ens_bind as k2 _. ens_bind as load_ts _.
  ens_bind as category _. ens_bind as chk _. ens_bind as check_number _.
  ens_bind as payee _. ens_bind as payee_name _. ens_bind as description _.
  ens_bind as created_by _.
  eapply (ensures_bind _ _
            (λ vd : bool, vd = true → String.eqb txn_type "PAYMENT" = true)).
  { apply ensures_if; intros Hc.
    - ens_bind as u _. by apply ensures_ret.
    - by apply ensures_ret. }
  intros voided Hvoided.
  match goal with
  | |- context [st.2 ++ [?t]] => set (payment := t)
  end.
  assert (claim_txns_ok claims (st.1 + 1, st.2 ++ [payment])) as Hpay.
  { apply claim_txns_ok_snoc; [by destruct st|done| |by exists claim].
    intros Hv. exfalso. cbn in Hv. subst txn_type.
    repeat (apply elem_of_cons in Hty as [Hty|Hty]; [done|]).
    by apply elem_of_nil in Hty. }
  destruct voided; [|by apply ensures_ret].
  destruct (NUM_CLAIM_TRANSACTIONS <? st.1 + 1); [by apply ensures_ret|].
  eapply ensures_bind; [apply void_txn_spec|].
  intros v (Hvid & Hvc & Hvty & Hvof & Hvam & Hvd & Hvp). apply ensures_ret.
  cbn [ctl_state]. apply claim_txns_ok_snoc; [done|done| |exists claim].
  - intros _. exists payment. split; [|split; [|split; [|split]]].
    + apply elem_of_app. left. apply elem_of_app. right. by left.
    + rewrite Hvof. cbn. f_equal. lia.
    + cbn. apply String.eqb_eq. by apply Hvoided.
    + by rewrite Hvc.
    + cbn. split; [done|]. split; [done|lia].
  - by rewrite Hvc.
Qed.

Lemma gen_claim_transactions_spec (claims : list Claim) :
  ensures (gen_claim_transactions claims)
    (λ txns, ∃ n, claim_txns_ok claims (n, txns)).
Proof.
  unfold gen_claim_transactions.
  eapply ensures_bind.
  - apply (ensures_for_loop _ (claim_txns_ok claims)).
    + repeat split; cbn; try done; constructor.
    + intros claim st Hc Hst. unfold claim_txns.
      apply list_elem_of_filter in Hc as [Hdel Hc].
      ens_bind as n Hn.
      apply (ensures_for_loop _ (claim_txns_ok claims)); [done|].
      intros j st' _ Hst'. by apply claim_txn_step_spec.
  - intros c Hc. apply ensures_ret. cbv beta in *.
    destruct (ctl_state c) as [n txns]. by exists n.
Qed.

Lemma elem_of_unique_key {A} (f : A → Z) (l : list A) (x y : A) :
  NoDup (f <$> l) → x ∈ l → y ∈ l → f x = f y → x = y.
Proof.
  induction l as [|a l IH]; intros Hnd Hx Hy Hf; [by apply elem_of_nil in Hx|].
  cbn in Hnd. apply NoDup_cons in Hnd as [Ha Hnd].
  apply elem_of_cons in Hx as [->|Hx]; apply elem_of_cons in Hy as [->|Hy].
  - done.
  - exfalso. apply Ha. rewrite Hf. apply list_elem_of_fmap. eauto.
  - exfalso. apply Ha. rewrite <- Hf. apply list_elem_of_fmap. eauto.
  - by apply IH.
Qed.

(** C3.  [gen_claim_transactions] returns, and for every VOID row [v] of
    its output there is a row [p] of the output, the only one with that
    id, with: [void_of_transaction_id v] is the id of [p]; [p] is a PAYMENT
    on the same claim; the amount of [v] is the negation of that of [p],
    so the two sum to zero; and transaction_date(p) <= transaction_date(v)
    <= posting_date(v). *)
Theorem C3_void_pairs_with_its_payment (claims : list Claim) (w : World) :
  ∃ txns w',
    gen_claim_transactions claims w = Ok (txns, w') ∧
    ∀ v, v ∈ txns → ctx_transaction_type v = "VOID" →
      ∃ p,
        p ∈ txns ∧
        ctx_void_of_transaction_id v = Some (ctx_transaction_id p) ∧
        (∀ t, t ∈ txns → ctx_transaction_id t = ctx_transaction_id p → t = p) ∧
        ctx_transaction_type p = "PAYMENT" ∧
        ctx_claim_id p = ctx_claim_id v ∧
        ctx_amount v = (- ctx_amount p)%Q ∧
        (ctx_amount p + ctx_amount v == 0)%Q ∧
        ctx_transaction_date p ≤ ctx_transaction_date v ∧
        ctx_transaction_date v ≤ ctx_posting_date v.
Proof.
  destruct (gen_claim_transactions_spec claims w)
    as (txns & w' & Hrun & n & Hn & Hids & Hvoid & _).
  exists txns, w'. split; [done|]. intros v Hv Hty. cbn in *.
  rewrite Forall_forall in Hvoid.
  destruct (Hvoid v Hv Hty) as (p & Hp & Hof & Hpty & Hpc & Ham & Hd1 & Hd2).
  exists p. repeat split; try done.
  - intros t Ht Heq. apply (elem_of_unique_key ctx_transaction_id txns); try done.
    rewrite Hids. apply NoDup_range.
  - rewrite Ham. ring.
Qed.

(** The pairing is not vacuous: with the draws 0, 2, 0, 0, ... the one claim
    gets one PAYMENT of -5000.00 dated day 737425 and, the void draw being
    below 0.05, its VOID of +5000.00 dated the day after. *)
Example void_is_generated :
  ∃ p v w',
    gen_claim_transactions [claim0] (world_of [0; 2]%N) = Ok ([p; v], w') ∧
    ctx_transaction_type p = "PAYMENT" ∧ ctx_transaction_id p = 1 ∧
    ctx_amount p = (- 5000)%Q ∧ ctx_transaction_date p = 737425 ∧
    ctx_transaction_type v = "VOID" ∧
    ctx_void_of_transaction_id v = Some 1 ∧
    ctx_amount v = 5000%Q ∧ ctx_transaction_date v = 737426.
Proof. vm_compute. do 3 eexists. split; [reflexivity|]. by repeat split. Qed.

(* ===================================================================== *)
(** ** Premium transactions                                               *)
(* ===================================================================== *)

Ltac ens_skip :=
  eapply (ensures_bind _ _ (λ _, True)); [solve [ens_triv] | intros ? _].

Ltac ens_walk :=
  repeat first
    [ eapply ensures_bind; [ens_prim | intros ? ?; cbv beta in *]
    | ens_skip ].

Lemma premium_txn_ok_mono (txns more : list PremTxn) (t : PremTxn) :
  premium_txn_ok txns t → premium_txn_ok (txns ++ more) t.
Proof.
  intros (H1 & H2 & H3 & H4 & H5).
  split; [done|]. split; [done|]. split; [done|]. split; [done|].
  intros Hr. destruct (H5 Hr) as (Hlt & o & Ho & Hrest).
  split; [done|]. exists o. split; [|done]. apply elem_of_app. by left.
Qed.

Lemma premium_txns_ok_snoc (policies : list Policy) (id : Z)
    (txns : list PremTxn) (t : PremTxn) :
  premium_txns_ok policies (id, txns) →
  ptx_transaction_id t = id →
  premium_txn_ok (txns ++ [t]) t →
  refers_to_current policies (ptx_policy_id t) →
  premium_txns_ok policies (id + 1, txns ++ [t]).
Proof.
  intros (Hid & Hids & Hok & Hrefs) Ht Htok Hc. cbn in *.
  repeat split; cbn.
  - lia.
  - rewrite fmap_app, Hids, range_snoc by lia. cbn. by rewrite Ht.
  - apply Forall_app. split; [|by constructor].
    eapply Forall_impl; [exact Hok|]. intros v. apply premium_txn_ok_mono.
  - apply Forall_app. split; [done|by constructor].
Qed.

Lemma reversal_txn_spec (pol : Policy) (txn_id : Z)
    (txn_date eff_date : datetime) (amount : Q) :
  ensures (reversal_txn pol txn_id txn_date eff_date amount)
    (λ r, ptx_transaction_id r = txn_id ∧
          ptx_policy_id r = pol_policy_id pol ∧
          ptx_transaction_type r = "REVERSAL" ∧
          ptx_reversal_of_transaction_id r = Some (txn_id - 1) ∧
          ptx_amount r = (- amount)%Q ∧
          ptx_effective_date r = to_date eff_date ∧
          to_date txn_date < ptx_transaction_date r ∧
          ptx_transaction_date r ≤ ptx_accounting_date r ∧
          ptx_accounting_date r ≤ ptx_booking_date r).
Proof.
  unfold reversal_txn.
  ens_bind as k Hk. ens_bind as k' Hk'. ens_bind as k2 Hk2.
  ens_bind as source _. ens_bind as k3 _. ens_bind as load_ts _.
  apply ensures_ret.
  cbn [ptx_transaction_id ptx_policy_id ptx_transaction_type
       ptx_reversal_of_transaction_id ptx_amount ptx_effective_date
       ptx_transaction_date ptx_accounting_date ptx_booking_date].
  unfold to_date, add_days; cbn [dt_day]. repeat split; try done; lia.
Qed.

Lemma premium_txn_step_spec (policies : list Policy) (pol : Policy) (j : Z)
    (st : Z * list PremTxn) :
  pol ∈ get_current_policies policies →
  premium_txns_ok policies st →
  ensures (premium_txn_step pol j st)
    (λ c, premium_txns_ok policies (ctl_state c)).
Proof.
  intros Hin Hst. unfold premium_txn_step.
  destruct (NUM_PREMIUM_TRANSACTIONS <? st.1); [by apply ensures_ret|].
  ens_bind as txn_type Hty. ens_bind as txn_date _.
  ens_bind as k Hk. ens_bind as k' Hk'.
  eapply (ensures_bind _ _
    (λ eff, (txn_type = "ENDORSEMENT" ∧
             to_date txn_date - 90 ≤ to_date eff ≤ to_date txn_date) ∨
            (txn_type ≠ "ENDORSEMENT" ∧ eff = txn_date))).
  { apply ensures_if; intros Hc.
    - ens_bind as b Hb. apply ensures_ret. left.
      split; [by apply String.eqb_eq|].
      unfold to_date, add_days; cbn [dt_day]. lia.
    - apply ensures_ret. right. split; [by apply String.eqb_neq|done]. }
  intros eff_date Heff.
  ens_bind as k2 _. ens_bind as load_ts _. ens_bind as amount _.
  ens_bind as source _. ens_bind as u _.
  match goal with
  | |- context [st.2 ++ [?t]] => set (txn := t)
  end.
  assert (txn_type ≠ "REVERSAL") as Hnr.
  { intros ->.
    repeat (apply elem_of_cons in Hty as [Hty|Hty]; [done|]).
    by apply elem_of_nil in Hty. }
  assert (to_date eff_date ≤ to_date txn_date) as Hle.
  { destruct Heff as [[_ ?]|[_ ->]]; lia. }
  assert (premium_txns_ok policies (st.1 + 1, st.2 ++ [txn])) as Htxn.
  { apply premium_txns_ok_snoc; [by destruct st|done| |by exists pol].
    unfold premium_txn_ok, txn; cbn.
    unfold to_date, add_days in *; cbn [dt_day] in *.
    split; [lia|]. split; [lia|]. split; [|split].
    - intros Hne _. destruct Heff as [[? _]|[_ ->]]; done.
    - intros He. destruct Heff as [[_ ?]|[? _]]; [lia|done].
    - intros Hr. done. }
  destruct (Qltb u (3 # 100)); [|by apply ensures_ret].
  destruct (NUM_PREMIUM_TRANSACTIONS <? st.1 + 1); [by apply ensures_ret|].
  eapply ensures_bind; [apply reversal_txn_spec|].
  intros r (Hrid & Hrp & Hrty & Hrof & Hram & Hreff & Hrd & Hra & Hrb).
  apply ensures_ret. cbn [ctl_state].
  apply premium_txns_ok_snoc; [done|done| |exists pol; by rewrite Hrp].
  unfold premium_txn_ok. rewrite Hrty.
  split; [done|]. split; [done|]. split; [done|]. split; [done|].
  intros _. split.
  - rewrite Hreff. lia.
  - exists txn. split; [|split; [|split; [|split]]].
    + apply elem_of_app. left. apply elem_of_app. right. by left.
    + rewrite Hrof. cbn. f_equal. lia.
    + done.
    + by rewrite Hreff.
    + by rewrite Hram.
Qed.

Lemma gen_premium_transactions_spec (policies : list Policy) :
  ensures (gen_premium_transactions policies)
    (λ txns, ∃ n, premium_txns_ok policies (n, txns)).
Proof.
  unfold gen_premium_transactions.
  eapply ensures_bind.
  - apply (ensures_for_loop _ (premium_txns_ok policies)).
    + repeat split; cbn; try done; constructor.
    + intros pol st Hc Hst. unfold policy_premium_txns.
      ens_bind as n Hn.
      apply (ensures_for_loop _ (premium_txns_ok policies)); [done|].
      intros j st' _ Hst'. by apply premium_txn_step_spec.
  - intros c Hc. apply ensures_ret. cbv beta in *.
    destruct (ctl_state c) as [n txns]. by exists n.
Qed.

(** C6, as the code has it.  [gen_premium_transactions] returns, and every
    row has transaction_date <= accounting_date <= booking_date; its
    effective_date equals its transaction_date when its type is neither
    ENDORSEMENT nor REVERSAL; lies up to 90 days before it for an
    ENDORSEMENT; and for a REVERSAL is the effective_date of the
    transaction it reverses, which is before the reversal's own
    transaction_date. *)
Theorem C6_premium_dates (policies : list Policy) (w : World) :
  ∃ txns w',
    gen_premium_transactions policies w = Ok (txns, w') ∧
    ∀ t, t ∈ txns →
      ptx_transaction_date t ≤ ptx_accounting_date t ∧
      ptx_accounting_date t ≤ ptx_booking_date t ∧
      (ptx_transaction_type t ≠ "ENDORSEMENT" →
       ptx_transaction_type t ≠ "REVERSAL" →
       ptx_effective_date t = ptx_transaction_date t) ∧
      (ptx_transaction_type t = "ENDORSEMENT" →
       ptx_transaction_date t - 90 ≤ ptx_effective_date t
         ≤ ptx_transaction_date t) ∧
      (ptx_transaction_type t = "REVERSAL" →
       ptx_effective_date t < ptx_transaction_date t ∧
       ∃ o, o ∈ txns ∧
            ptx_reversal_of_transaction_id t = Some (ptx_transaction_id o) ∧
            ptx_transaction_type o ≠ "REVERSAL" ∧
            ptx_effective_date t = ptx_effective_date o ∧
            ptx_amount t = (- ptx_amount o)%Q).
Proof.
  destruct (gen_premium_transactions_spec policies w)
    as (txns & w' & Hrun & n & _ & _ & Hok & _).
  exists txns, w'. split; [done|]. intros t Ht.
  rewrite Forall_forall in Hok. apply (Hok t Ht).
Qed.

(** C6, as the specification states it, fails: with all raw draws 0 the one
    policy gets a WRITTEN transaction dated day 737425 and its REVERSAL,
    dated the day after and carrying the effective_date 737425 of the
    transaction it reverses. *)
Lemma C6_reversal_keeps_effective_date :
  ∃ txns w',
    gen_premium_transactions [policy0] (world_of []) = Ok (txns, w') ∧
    ¬ (∀ t, t ∈ txns →
         ptx_transaction_type t ≠ "ENDORSEMENT" →
         ptx_effective_date t = ptx_transaction_date t).
Proof.
  destruct (gen_premium_transactions [policy0] (world_of []))
    as [[txns w']|e] eqn:Hrun; [|by vm_compute in Hrun].
  exists txns, w'. split; [done|]. intros Hall.
  vm_compute in Hrun. injection Hrun as <- _.
  match type of Hall with
  | ∀ t, t ∈ [_; ?r] → _ => specialize (Hall r)
  end.
  cbn in Hall. discriminate Hall; [by right; left | done].
Qed.

(* ===================================================================== *)
(** ** What the derived entities refer to                                 *)
(* ===================================================================== *)

Lemma coverage_step_spec (policies : list Policy) (pol : Policy) (j : Z)
    (st : Z * list Coverage) :
  pol ∈ get_current_policies policies →
  Forall (λ c, refers_to_current policies (cov_policy_id c)) st.2 →
  ensures (coverage_step pol j st)
    (λ c, Forall (λ c, refers_to_current policies (cov_policy_id c))
            (ctl_state c).2).
Proof.
  intros Hin Hst. unfold coverage_step.
  destruct (NUM_COVERAGES <? st.1); [by apply ensures_ret|].
  ens_walk. apply ensures_ret. cbn.
  apply Forall_app. split; [done|]. constructor; [|done]. by exists pol.
Qed.

Lemma gen_coverages_spec (policies : list Policy) :
  ensures (gen_coverages policies)
    (λ covs, ∀ c, c ∈ covs → refers_to_current policies (cov_policy_id c)).
Proof.
  unfold gen_coverages.
  eapply ensures_bind.
  - apply (ensures_for_loop _
      (λ st, Forall (λ c, refers_to_current policies (cov_policy_id c)) st.2)).
    + constructor.
    + intros pol st Hpol Hst. unfold policy_coverages.
      ens_bind as n Hn.
      apply (ensures_for_loop _
        (λ st, Forall (λ c, refers_to_current policies (cov_policy_id c))
                 st.2)); [done|].
      intros j st' _ Hst'. by apply coverage_step_spec.
  - intros c Hc. apply ensures_ret. by apply Forall_forall.
Qed.

Lemma claim_step_spec (policies : list Policy) (i : Z) (claims : list Claim) :
  get_current_policies policies ≠ [] →
  ensures (claim_step (get_current_policies policies) i claims)
    (λ claims', ∃ c, claims' = claims ++ [c] ∧ clm_claim_id c = i ∧
                     refers_to_current policies (clm_policy_id c)).
Proof.
  intros Hne. unfold claim_step.
  ens_bind as pol Hpol. ens_walk.
  eapply (ensures_bind _ _ (λ _, True)).
  { match goal with |- ensures (match ?x with _ => _ end) _ => destruct x end;
      ens_triv. }
  intros reopen_date _. ens_walk. apply ensures_ret.
  eexists. split; [reflexivity|]. split; [done|]. by exists pol.
Qed.

Lemma gen_claims_spec (policies : list Policy) :
  get_current_policies policies ≠ [] →
  ensures (gen_claims policies)
    (λ claims, clm_claim_id <$> claims = range 1 (NUM_CLAIMS + 1) ∧
               ∀ c, c ∈ claims → refers_to_current policies (clm_policy_id c)).
Proof.
  intros Hne. unfold gen_claims.
  eapply ensures_mono.
  - apply (ensures_for_each _
      (λ seen claims, clm_claim_id <$> claims = seen ∧
         Forall (λ c, refers_to_current policies (clm_policy_id c)) claims)).
    + split; [done|constructor].
    + intros seen i claims _ [Hids Hrefs].
      eapply ensures_mono; [by apply claim_step_spec|].
      intros claims' (c & -> & Hc & Hp). split.
      * by rewrite fmap_app, Hids; cbn; rewrite Hc.
      * apply Forall_app. split; [done|by constructor].
  - intros claims [Hids Hrefs]. split; [done|]. by apply Forall_forall.
Qed.

Lemma quote_step_spec (insureds : list Insured) (agents : list Agent) (i : Z)
    (quotes : list Quote) :
  insureds ≠ [] → agents ≠ [] →
  ensures (quote_step insureds agents i quotes)
    (λ quotes', ∃ q, quotes' = quotes ++ [q] ∧
       ∀ pid, quo_bound_policy_id q = Some pid → 1 ≤ pid ≤ NUM_POLICIES).
Proof.
  intros Hi Ha. unfold quote_step.
  ens_bind as insured _. ens_bind as agent _. ens_bind as lob _.
  ens_bind as quote_date _. ens_bind as premium _. ens_bind as status _.
  ens_bind as reason _. ens_bind as decline _. ens_bind as company _.
  ens_bind as competitor _. ens_bind as pid Hpid. ens_bind as bound Hbound.
  ens_bind as source _. apply ensures_ret.
  eexists. split; [reflexivity|]. cbn. intros pid' Heq.
  destruct Hbound as [->| ->]; [done|]. by simplify_eq.
Qed.

Lemma gen_quotes_spec (insureds : list Insured) (agents : list Agent) :
  insureds ≠ [] → agents ≠ [] →
  ensures (gen_quotes insureds agents)
    (λ quotes, ∀ q pid, q ∈ quotes → quo_bound_policy_id q = Some pid →
                        1 ≤ pid ≤ NUM_POLICIES).
Proof.
  intros Hi Ha. unfold gen_quotes.
  eapply ensures_mono.
  - apply (ensures_for_each _
      (λ _ quotes, Forall (λ q, ∀ pid, quo_bound_policy_id q = Some pid →
                                       1 ≤ pid ≤ NUM_POLICIES) quotes)).
    + constructor.
    + intros _ i quotes _ Hq.
      eapply ensures_mono; [by apply quote_step_spec|].
      intros quotes' (q & -> & Hb). apply Forall_app. split; [done|].
      by constructor.
  - intros quotes Hq q pid Hin. rewrite Forall_forall in Hq. by apply Hq.
Qed.

(** [random.sample] returns members of the population. *)
Lemma remove_nth_subset {A} (k : nat) (l : list A) (x : A) :
  x ∈ remove_nth k l → x ∈ l.
Proof.
  revert k. induction l as [|a l IH]; intros [|k] Hx; cbn in Hx; try done.
  - by right.
  - apply elem_of_cons in Hx as [->|Hx]; [by left|right; eauto].
Qed.

Lemma remove_nth_length {A} (k : nat) (l : list A) :
  (k < length l)%nat → length (remove_nth k l) = pred (length l).
Proof.
  revert k. induction l as [|a l IH]; intros [|k] H; cbn in *; try lia.
  rewrite IH by lia. destruct l; cbn in *; lia.
Qed.

Lemma sample_loop_spec {A} (k : nat) (pool : list A) :
  (k ≤ length pool)%nat →
  ensures (sample_loop k pool) (λ s, ∀ x, x ∈ s → x ∈ pool).
Proof.
  revert pool. induction k as [|k IH]; intros pool Hk; cbn.
  - apply ensures_ret. by intros x ?%elem_of_nil.
  - destruct pool as [|a pool]; [cbn in Hk; lia|].
    eapply ensures_bind; [apply ensures_getrandbits|]. intros r _.
    set (j := Z.to_nat _).
    assert (j < length (a :: pool))%nat as Hj.
    { subst j.
      pose proof (Z.mod_pos_bound (Z.of_N r) (Z.of_nat (length (a :: pool)))).
      cbn [length] in *. lia. }
    eapply ensures_bind.
    + apply IH. rewrite remove_nth_length by done. cbn in *. lia.
    + intros rest Hrest. apply ensures_ret. intros x Hx.
      apply elem_of_cons in Hx as [->|Hx].
      * by apply nth_elem_of.
      * eapply remove_nth_subset. by apply Hrest.
Qed.

Lemma sample_min_spec {A} (population : list A) (n : Z) :
  0 ≤ n →
  ensures (sample population (Z.min n (Z.of_nat (length population))))
    (λ s, ∀ x, x ∈ s → x ∈ population).
Proof.
  intros Hn. unfold sample.
  replace ((0 <=? _) && (_ <=? _)) with true
    by (symmetry; apply andb_true_iff; split; apply Z.leb_le; lia).
  apply sample_loop_spec. lia.
Qed.

(** A note is attached to a current policy or to a non-deleted claim. *)
Lemma gen_unstructured_notes_spec (claims : list Claim)
    (policies : list Policy) :
  ensures (gen_unstructured_notes claims policies)
    (λ notes, ∀ n, n ∈ notes →
       (note_entity_type n = "POLICY" ∧
        refers_to_current policies (note_entity_id n)) ∨
       (note_entity_type n = "CLAIM" ∧
        refers_to_active claims (note_entity_id n))).
Proof.
  unfold gen_unstructured_notes.
  set (ok := λ n : Note,
         (note_entity_type n = "POLICY" ∧
          refers_to_current policies (note_entity_id n)) ∨
         (note_entity_type n = "CLAIM" ∧
          refers_to_active claims (note_entity_id n))).
  eapply ensures_bind; [by apply sample_min_spec|]. intros sampled Hs.
  eapply ensures_bind.
  { apply (ensures_for_each _ (λ _ st, Forall ok st.2)); [constructor|].
    intros _ claim st Hc Hst. unfold claim_notes. ens_bind as n _.
    eapply ensures_mono.
    - apply (ensures_for_each _ (λ _ st, Forall ok st.2)); [done|].
      intros _ j st' _ Hst'. unfold claim_note_step. ens_walk.
      apply ensures_ret. cbn. apply Forall_app. split; [done|].
      constructor; [|done]. right. split; [done|]. exists claim. split; [|done].
      by apply Hs.
    - done. }
  intros st Hst.
  eapply ensures_bind; [by apply sample_min_spec|]. intros sampled' Hs'.
  eapply ensures_bind.
  { apply (ensures_for_each _ (λ _ st, Forall ok st.2)); [exact Hst|].
    intros _ pol st' Hp Hst'. unfold policy_note. ens_walk.
    apply ensures_ret. cbn. apply Forall_app. split; [done|].
    constructor; [|done]. left. split; [done|]. exists pol. split; [|done].
    by apply Hs'. }
  intros st' Hst'. apply ensures_ret. by apply Forall_forall.
Qed.

Lemma blocks_of_refers (ps : list Policy) (pid : Z) :
  blocks_of (range 1 (NUM_POLICIES + 1)) ps → 1 ≤ pid ≤ NUM_POLICIES →
  refers_to_current ps pid.
Proof.
  intros Hps Hpid.
  destruct (blocks_of_current_state _ ps pid Hps (NoDup_range _ _))
    as (cur & _ & Hf); [apply elem_of_range; lia|].
  assert (cur ∈ filter (λ p, pol_policy_id p = pid) (get_current_policies ps))
    as Hin by (rewrite Hf; by left).
  apply list_elem_of_filter in Hin as [Hid Hin]. by exists cur.
Qed.

(** C7.  [gen_core] returns, and in what it returns every coverage and every
    claim carries the [policy_id] of a row of the current, non-deleted
    policy set; so does every quote that has a [bound_policy_id]; every
    note is attached to such a policy or to a non-deleted claim; and every
    claim transaction carries the [claim_id] of a non-deleted claim, no
    claim with that id being deleted. *)
Theorem C7_references_current_and_active
    (insureds : list Insured) (agents : list Agent) (w : World) :
  insureds ≠ [] → agents ≠ [] →
  ∃ core w',
    gen_core insureds agents w = Ok (core, w') ∧
    (∀ c, c ∈ core_coverages core →
       refers_to_current (core_policies core) (cov_policy_id c)) ∧
    (∀ c, c ∈ core_claims core →
       refers_to_current (core_policies core) (clm_policy_id c)) ∧
    (∀ q pid, q ∈ core_quotes core → quo_bound_policy_id q = Some pid →
       refers_to_current (core_policies core) pid) ∧
    (∀ n, n ∈ core_notes core →
       (note_entity_type n = "POLICY" ∧
        refers_to_current (core_policies core) (note_entity_id n)) ∨
       (note_entity_type n = "CLAIM" ∧
        refers_to_active (core_claims core) (note_entity_id n))) ∧
    (∀ t, t ∈ core_claim_txns core →
       refers_to_active (core_claims core) (ctx_claim_id t) ∧
       ∀ c, c ∈ core_claims core → clm_claim_id c = ctx_claim_id t →
            clm_is_deleted c = false).
Proof.
  intros Hi Ha. revert w. change (ensures (gen_core insureds agents)
    (λ core,
      (∀ c, c ∈ core_coverages core →
         refers_to_current (core_policies core) (cov_policy_id c)) ∧
      (∀ c, c ∈ core_claims core →
         refers_to_current (core_policies core) (clm_policy_id c)) ∧
      (∀ q pid, q ∈ core_quotes core → quo_bound_policy_id q = Some pid →
         refers_to_current (core_policies core) pid) ∧
      (∀ n, n ∈ core_notes core →
         (note_entity_type n = "POLICY" ∧
          refers_to_current (core_policies core) (note_entity_id n)) ∨
         (note_entity_type n = "CLAIM" ∧
          refers_to_active (core_claims core) (note_entity_id n))) ∧
      (∀ t, t ∈ core_claim_txns core →
         refers_to_active (core_claims core) (ctx_claim_id t) ∧
         ∀ c, c ∈ core_claims core → clm_claim_id c = ctx_claim_id t →
              clm_is_deleted c = false))).
  unfold gen_core.
  eapply ensures_bind; [by apply gen_policies_blocks|]. intros policies Hps.
  eapply ensures_bind; [apply gen_coverages_spec|]. intros coverages Hcov.
  assert (get_current_policies policies ≠ []) as Hne.
  { destruct (blocks_of_refers policies 1 Hps) as (p & Hp & _); [done|].
    intros Heq. rewrite Heq in Hp. by apply elem_of_nil in Hp. }
  eapply ensures_bind; [by apply gen_claims_spec|].
  intros claims [Hcids Hclaims].
  eapply ensures_bind; [apply gen_claim_transactions_spec|].
  intros claim_txns (n & _ & _ & _ & Htx).
  eapply ensures_bind; [apply gen_premium_transactions_spec|].
  intros premium_txns _.
  eapply ensures_bind; [by apply gen_quotes_spec|]. intros quotes Hq.
  eapply ensures_bind; [apply gen_unstructured_notes_spec|]. intros notes Hn.
  apply ensures_ret. cbn.
  split; [done|]. split; [done|]. split; [|split; [done|]].
  - intros q pid Hin Hb. eapply blocks_of_refers; [done|]. by eapply Hq.
  - intros t Ht. rewrite Forall_forall in Htx.
    destruct (Htx t Ht) as (c & Hc & Hdel & Heq). split.
    + exists c. split; [|done]. by apply list_elem_of_filter.
    + intros c' Hc' Heq'.
      assert (c' = c) as ->; [|done].
      apply (elem_of_unique_key clm_claim_id claims); try done; [|congruence].
      rewrite Hcids. apply NoDup_range.
Qed.

Lemma C7_witness :
  ∃ core w',
    gen_core [insured0] [agent0] (world_of []) = Ok (core, w') ∧
    (∀ c, c ∈ core_coverages core →
       refers_to_current (core_policies core) (cov_policy_id c)) ∧
    (∀ c, c ∈ core_claims core →
       refers_to_current (core_policies core) (clm_policy_id c)) ∧
    (∀ q pid, q ∈ core_quotes core → quo_bound_policy_id q = Some pid →
       refers_to_current (core_policies core) pid) ∧
    (∀ n, n ∈ core_notes core →
       (note_entity_type n = "POLICY" ∧
        refers_to_current (core_policies core) (note_entity_id n)) ∨
       (note_entity_type n = "CLAIM" ∧
        refers_to_active (core_claims core) (note_entity_id n))) ∧
    (∀ t, t ∈ core_claim_txns core →
       refers_to_active (core_claims core) (ctx_claim_id t) ∧
       ∀ c, c ∈ core_claims core → clm_claim_id c = ctx_claim_id t →
            clm_is_deleted c = false).
Proof.
  apply (C7_references_current_and_active [insured0] [agent0] (world_of []));
    discriminate.
Defined.

(* ===================================================================== *)
(** ** The scoring harness                                                *)
(* ===================================================================== *)

Lemma SFsub_diag (s : bool) (m : positive) (e : Z) :
  SFsub prec emax (S754_finite s m e) (S754_finite s m e) = S754_zero false.
Proof. unfold SFsub. rewrite Z.sub_diag. reflexivity. Qed.

Lemma SFeqb_finite_zero (s : bool) (m : positive) (e : Z) :
  SFeqb (S754_finite s m e) fzero = false.
Proof. by destruct s. Qed.

Lemma SFeqb_zero_zero (s : bool) : SFeqb (S754_zero s) fzero = true.
Proof. by destruct s. Qed.

Section HarnessFacts.
Context {Gold : Type}.
Variable get_gold_answer : Question → option Gold.
Variable round_float : float → Z → float.
Variable float_of_string : string → option float.
Variable str_of_float : float → string.

Abbreviation compare := (compare_numeric round_float).
Abbreviation to_float := (py_float float_of_string).
Abbreviation to_str := (py_str str_of_float).

Lemma compare_numeric_zero (actual expected tolerance : float) :
  SFeqb expected fzero = true →
  cmp_passed (compare actual expected tolerance)
    = SFltb (SFabs actual) f0_01.
Proof. intros H. unfold compare_numeric. by rewrite H. Qed.

Lemma compare_numeric_nonzero (actual expected tolerance : float) :
  SFeqb expected fzero = false →
  cmp_passed (compare actual expected tolerance)
    = SFleb (SFdiv prec emax (SFabs (SFsub prec emax actual expected))
               (SFabs expected)) tolerance.
Proof. intros H. unfold compare_numeric. by rewrite H. Qed.

Lemma compare_numeric_same (s : bool) (m : positive) (e : Z) (t : float) :
  SFleb fzero t = true →
  cmp_passed (compare (S754_finite s m e) (S754_finite s m e) t) = true.
Proof.
  intros Ht. rewrite compare_numeric_nonzero by apply SFeqb_finite_zero.
  by rewrite SFsub_diag.
Qed.

Lemma compare_numeric_zeros (s s' : bool) (t : float) :
  cmp_passed (compare (S754_zero s) (S754_zero s') t) = true.
Proof. rewrite compare_numeric_zero by apply SFeqb_zero_zero. done. Qed.

(** The first comparison rule of [score_question]. *)
Lemma score_question_single (question : Question) (answer : AgentAnswer)
    (gold : Gold) (ev v : pyval) (a e t : float) :
  is_str (default (PyFloat f0_05) (q_tolerance question)) "qualitative"
    = false →
  get_gold_answer question = Some gold →
  q_expected_value question = Some ev →
  a_numeric_result answer = Scalar v → v ≠ PyNone →
  to_float ev = Ok e →
  tolerance_value float_of_string
    (default (PyFloat f0_05) (q_tolerance question)) = Ok t →
  to_float v = Ok a →
  ∃ h, score_question get_gold_answer round_float float_of_string
         str_of_float question answer
       = Ok (Scored h (compare a e t) None).
Proof.
  intros Hq Hg Hev Hnum Hv He Ht Ha. unfold score_question.
  rewrite Hq, Hg, Hev, Hnum. eexists.
  destruct v as [|b|z|f|s|text]; try done;
    cbn; rewrite He; cbn; rewrite Ht; cbn; cbn in Ha.
  - by simplify_eq.
  - destruct (binary_normalize prec emax z 0 false); by simplify_eq.
  - by simplify_eq.
  - destruct (float_of_string s); by simplify_eq.
Qed.

(** C5.  [compare_numeric] passes, when the expected value is zero, iff
    |actual| < 0.01, and otherwise iff |actual - expected| / |expected| <=
    tolerance; the tolerance of a question marked exact is 0 and a numeric
    one is taken as it is; [score_question] scores a single expected value
    against a scalar result by this comparison; hence x against x passes
    for every finite non-zero x and every tolerance >= 0, and 0 against 0
    passes for every tolerance. *)
Theorem C5_compare_numeric_law :
  (∀ actual expected tolerance,
     SFeqb expected fzero = true →
     cmp_passed (compare actual expected tolerance)
       = SFltb (SFabs actual) f0_01) ∧
  (∀ actual expected tolerance,
     SFeqb expected fzero = false →
     cmp_passed (compare actual expected tolerance)
       = SFleb (SFdiv prec emax (SFabs (SFsub prec emax actual expected))
                  (SFabs expected)) tolerance) ∧
  tolerance_value float_of_string (PyStr "exact") = Ok fzero ∧
  (∀ t, tolerance_value float_of_string (PyFloat t) = Ok t) ∧
  (∀ question answer gold ev v a e t,
     is_str (default (PyFloat f0_05) (q_tolerance question)) "qualitative"
       = false →
     get_gold_answer question = Some gold →
     q_expected_value question = Some ev →
     a_numeric_result answer = Scalar v → v ≠ PyNone →
     to_float ev = Ok e →
     tolerance_value float_of_string
       (default (PyFloat f0_05) (q_tolerance question)) = Ok t →
     to_float v = Ok a →
     ∃ h, score_question get_gold_answer round_float float_of_string
            str_of_float question answer
          = Ok (Scored h (compare a e t) None)) ∧
  (∀ s m e t,
     SFleb fzero t = true →
     cmp_passed (compare (S754_finite s m e) (S754_finite s m e) t) = true) ∧
  (∀ s s' t, cmp_passed (compare (S754_zero s) (S754_zero s') t) = true).
Proof.
  split; [exact compare_numeric_zero|].
  split; [exact compare_numeric_nonzero|].
  split; [done|]. split; [done|].
  split; [exact score_question_single|].
  split; [exact compare_numeric_same|exact compare_numeric_zeros].
Qed.
End HarnessFacts.

Lemma C5_witness :
  SFleb fzero f0_05 = true ∧
  cmp_passed (compare_numeric round_id f0_65 f0_65 f0_05) = true.
Proof.
  split; [reflexivity|].
  apply (C5_compare_numeric_law gold_always round_id no_float str_empty);
    reflexivity.
Defined.

(** The scenarios of the specification: expected 0.65 with tolerance 0.05
    passes on 0.64 and fails on 0.80. *)
Example compare_numeric_passes :
  cmp_passed (compare_numeric round_id f0_64 f0_65 f0_05) = true.
Proof. reflexivity. Qed.

Example compare_numeric_fails :
  cmp_passed (compare_numeric round_id f0_8 f0_65 f0_05) = false.
Proof. reflexivity. Qed.

(** An infinite value does not pass against itself, whatever the
    tolerance: inf - inf is not a number. *)
Example compare_numeric_infinite (t : float) :
  cmp_passed (compare_numeric round_id (S754_infinity false)
                (S754_infinity false) t) = false.
Proof. reflexivity. Qed.

(** Text helpers on the forms the harness meets. *)
Example text_checks :
  strip "  Ho " = "Ho" ∧ upper "ho-x1" = "HO-X1" ∧
  first_match "about 1234.5 or -3" = Some "1234.5" ∧
  first_match "x-.5" = Some "5" ∧ first_match "a-12.b" = Some "-12." ∧
  first_match "none" = None.
Proof. by vm_compute. Qed.

Lemma od_set_fresh {K V : Type} `{EqDecision K} (key : K) (v : V)
    (d : list (K * V)) :
  key ∉ d.*1 → od_set key v d = d ++ [(key, v)].
Proof.
  induction d as [|[k v'] d IH]; intros Hk; cbn; [done|].
  cbn in Hk. apply not_elem_of_cons in Hk as [Hne Hk].
  destruct (decide (k = key)); [congruence|]. by rewrite IH.
Qed.

Section KeyedComparison.
Context {Gold : Type}.
Variable get_gold_answer : Question → option Gold.
Variable round_float : float → Z → float.
Variable float_of_string : string → option float.
Variable str_of_float : float → string.

Abbreviation to_float' := (py_float float_of_string).
Abbreviation result_of := (key_result round_float float_of_string str_of_float).

(** [float(v)] raises nothing but [ValueError], [TypeError] and
    [OverflowError]. *)
Lemma py_float_raises (v : pyval) (e : exn) :
  to_float' v = Raise e → e = ValueError ∨ e = TypeError ∨ e = OverflowError.
Proof.
  destruct v as [|b|z|f|s|text]; cbn; intros H; try by simplify_eq; auto.
  - destruct (binary_normalize prec emax z 0 false); simplify_eq; auto.
  - destruct (float_of_string s); simplify_eq; auto.
Qed.

(** The [try] block: numeric when both sides convert, text when one of them
    raises [ValueError] or [TypeError]. *)
Lemma compare_key_spec (numeric : list (string * pyval)) (key : string)
    (actual ev : pyval) (t : float) :
  od_get key numeric = Some actual →
  ¬ overflows (to_float' actual) → ¬ overflows (to_float' ev) →
  compare_key round_float float_of_string str_of_float actual ev t
    = Ok (result_of numeric t (key, ev)).
Proof.
  unfold overflows, compare_key, key_result. intros Hget Ha He.
  cbn [fst snd]. rewrite Hget.
  destruct (to_float' actual) as [a|ea] eqn:Ea.
  - destruct (to_float' ev) as [e|ee] eqn:Ee; [done|].
    destruct (py_float_raises _ _ Ee) as [->|[->| ->]]; done.
  - destruct (py_float_raises _ _ Ea) as [->|[->| ->]]; done.
Qed.

Lemma key_loop_spec (tolerance : pyval) (numeric : list (string * pyval))
    (t : float) (evs : list (string * pyval))
    (comps : list (string * KeyCmp)) (all_passed : bool) :
  tolerance_value float_of_string tolerance = Ok t →
  NoDup evs.*1 →
  (∀ key, key ∈ evs.*1 → key ∉ comps.*1) →
  (∀ key ev actual, (key, ev) ∈ evs → od_get key numeric = Some actual →
     ¬ overflows (to_float' actual) ∧ ¬ overflows (to_float' ev)) →
  key_loop round_float float_of_string str_of_float tolerance numeric evs
    (comps, all_passed)
  = Ok (comps ++ ((λ kv, (kv.1, result_of numeric t kv)) <$> evs),
        all_passed
        && forallb (λ kv, key_passed (result_of numeric t kv)) evs).
Proof.
  intros Ht. revert comps all_passed.
  induction evs as [|[key ev] evs IH]; intros comps all_passed Hnd Hfresh Hov.
  - cbn. by rewrite app_nil_r, andb_true_r.
  - cbn in Hnd. apply NoDup_cons in Hnd as [Hkey Hnd].
    assert (key ∉ comps.*1) as Hk by (apply Hfresh; by left).
    cbn [key_loop].
    assert (∃ c, key_step round_float float_of_string str_of_float tolerance
                   numeric (key, ev) (comps, all_passed)
                 = Ok (comps ++ [(key, c)], all_passed && key_passed c)
                 ∧ c = result_of numeric t (key, ev)) as (c & Hstep & Hc).
    { unfold key_step. destruct (od_get key numeric) as [actual|] eqn:Hget.
      - destruct (Hov key ev actual) as [Ha He]; [by left|done|].
        rewrite Ht. cbn.
        rewrite (compare_key_spec numeric key) by done. cbn.
        eexists. split; [|reflexivity]. by rewrite od_set_fresh.
      - exists KMissing. cbn. rewrite od_set_fresh by done.
        split; [by rewrite andb_false_r|].
        unfold key_result. cbn [fst snd]. by rewrite Hget. }
    rewrite Hstep. unfold mbind, result_bind. cbn beta iota.
    rewrite IH; [|done| |].
    + rewrite <- app_assoc. cbn. rewrite Hc. by rewrite andb_assoc.
    + intros k Hkin. rewrite fmap_app. cbn. intros Hin.
      apply elem_of_app in Hin as [Hin|Hin].
      * revert Hin. apply Hfresh. by right.
      * apply list_elem_of_singleton in Hin as ->. done.
    + intros k e a Hin. apply Hov. by right.
Qed.

End KeyedComparison.


(** The keyed scenario of the specification: 0.551 against 0.55 passes
    within the tolerance, "ho" matches "HO", and the question passes. *)
Example keyed_scenario_passes :
  match score_question gold_always round_id no_float str_empty
          question_keys answer_keys with
  | Ok s => score_passed s
  | Raise _ => None
  end = Some true.
Proof. reflexivity. Qed.

(* ===================================================================== *)
(** ** Gold metrics: what two runs agree on                               *)
(* ===================================================================== *)

Lemma related_ret {A B} (R : A → B → Prop) (a : A) (b : B) :
  R a b → related R (mret a) (mret b).
Proof. by intros H w1 w2. Qed.

Lemma related_bind {A A' B B'} (R : A → A' → Prop) (Q : B → B' → Prop)
    (m1 : M A) (m2 : M A') (k1 : A → M B) (k2 : A' → M B') :
  related R m1 m2 →
  (∀ a1 a2, R a1 a2 → related Q (k1 a1) (k2 a2)) →
  related Q (m1 ≫= k1) (m2 ≫= k2).
Proof.
  intros Hm Hk w1 w2. specialize (Hm w1 w2).
  unfold run_agree, mbind, M_bind in *.
  destruct (m1 w1) as [[a1 w1']|e1], (m2 w2) as [[a2 w2']|e2]; try done.
  apply (Hk a1 a2 Hm w1' w2').
Qed.

Lemma related_uniform (a b : Q) :
  related (λ _ _, True) (uniform a b) (uniform a b).
Proof. by intros w1 w2. Qed.

Lemma related_lob_name (lob : string) :
  related eq (lob_name lob) (lob_name lob).
Proof. intros w1 w2. unfold lob_name. by destruct (assoc lob LOB_NAMES). Qed.

Lemma related_for_each {A A' S S'} (P : A → A' → Prop) (R : S → S' → Prop)
    (body1 : A → S → M S) (body2 : A' → S' → M S')
    (xs1 : list A) (xs2 : list A') (s1 : S) (s2 : S') :
  Forall2 P xs1 xs2 →
  (∀ x1 x2 s1 s2, P x1 x2 → R s1 s2 → related R (body1 x1 s1) (body2 x2 s2)) →
  R s1 s2 →
  related R (for_each xs1 body1 s1) (for_each xs2 body2 s2).
Proof.
  intros Hxs Hbody. revert s1 s2.
  induction Hxs as [|x1 x2 xs1 xs2 Hx Hxs IH]; intros s1 s2 Hs; cbn.
  - by apply related_ret.
  - eapply related_bind; [by apply Hbody|]. intros s1' s2' Hs'. by apply IH.
Qed.

Lemma Forall2_same {A} (P : A → A → Prop) (l : list A) :
  (∀ x, P x x) → Forall2 P l l.
Proof. intros H. induction l; by constructor. Qed.

(** *** Blanking commutes with the steps of the first loop *)

Lemma od_get_view {K} `{EqDecision K} (key : K) (d : list (K * LobYear)) :
  od_get key (key_view d) = without_earned <$> od_get key d.
Proof.
  induction d as [|[k m] d IH]; cbn; [done|]. by destruct (decide (k = key)).
Qed.

Lemma od_set_view {K} `{EqDecision K} (key : K) (m : LobYear)
    (d : list (K * LobYear)) :
  key_view (od_set key m d) = od_set key (without_earned m) (key_view d).
Proof.
  induction d as [|[k m'] d IH]; cbn; [done|].
  destruct (decide (k = key)); cbn; [done|].
  unfold key_view in IH. by rewrite IH.
Qed.

Lemma add_claim_view (m1 m2 : LobYear) (c : Claim) :
  without_earned m1 = without_earned m2 →
  without_earned (add_claim m1 c) = without_earned (add_claim m2 c).
Proof.
  destruct m1, m2. unfold without_earned, add_claim; cbn.
  intros H. injection H; intros; by subst.
Qed.

Lemma add_claims_view (claims : list Claim) (m1 m2 : LobYear) :
  without_earned m1 = without_earned m2 →
  without_earned (foldl add_claim m1 claims)
    = without_earned (foldl add_claim m2 claims).
Proof.
  revert m1 m2. induction claims as [|c claims IH]; intros m1 m2 H; [done|].
  cbn. apply IH. by apply add_claim_view.
Qed.

Lemma add_policy_view (m1 m2 : LobYear) (pol : Policy) (wp ep1 ep2 : Q)
    (n : Z) :
  without_earned m1 = without_earned m2 →
  without_earned (add_policy m1 pol wp ep1 n)
    = without_earned (add_policy m2 pol wp ep2 n).
Proof.
  destruct m1, m2. unfold without_earned, add_policy; cbn.
  intros H. injection H; intros; by subst.
Qed.

Lemma finish_lob_year_view (m1 m2 : LobYear) :
  without_earned m1 = without_earned m2 →
  without_earned (finish_lob_year m1) = without_earned (finish_lob_year m2).
Proof.
  destruct m1, m2. unfold without_earned, finish_lob_year; cbn.
  intros H. injection H; intros; by subst.
Qed.

Lemma lob_year_step_related (cbp : gmap Z (list Claim))
    (pw pe : gmap Z (list PremTxn)) (pol : Policy)
    (d1 d2 : list (string * Z * LobYear)) :
  key_view d1 = key_view d2 →
  related (λ d1' d2', key_view d1' = key_view d2')
    (lob_year_step cbp pw pe pol d1) (lob_year_step cbp pw pe pol d2).
Proof.
  intros Hd. unfold lob_year_step.
  set (key := (pol_line_of_business pol, year_of (pol_effective_date pol))).
  eapply (related_bind (λ m1 m2, without_earned m1 = without_earned m2)).
  { pose proof (od_get_view key d1) as H1.
    pose proof (od_get_view key d2) as H2. rewrite Hd, H2 in H1.
    destruct (od_get key d1) as [m1|], (od_get key d2) as [m2|];
      cbn in H1; try discriminate H1.
    - apply related_ret. symmetry. by apply (inj Some).
    - eapply related_bind; [apply related_lob_name|].
      intros ? desc ->. by apply related_ret. }
  intros m1 m2 Hm.
  eapply (related_bind (λ _ _, True)).
  { destruct (Qeq_bool _ 0).
    - eapply related_bind; [apply related_uniform|].
      intros f1 f2 _. by apply related_ret.
    - by apply related_ret. }
  intros ep1 ep2 _. apply related_ret.
  rewrite !od_set_view, Hd. f_equal.
  apply add_claims_view. by apply add_policy_view.
Qed.

Lemma without_earned_fields (m1 m2 : LobYear) :
  without_earned m1 = without_earned m2 →
  ly_line_of_business m1 = ly_line_of_business m2 ∧
  ly_lob_description m1 = ly_lob_description m2 ∧
  ly_policy_year m1 = ly_policy_year m2 ∧
  ly_written_premium m1 = ly_written_premium m2 ∧
  ly_net_incurred_loss m1 = ly_net_incurred_loss m2 ∧
  ly_total_lae m1 = ly_total_lae m2.
Proof.
  destruct m1, m2. unfold without_earned; cbn.
  intros H. injection H; intros; by subst.
Qed.

Lemma uw_step_related (m1 m2 : LobYear) (l1 l2 : list UwMetric) :
  without_earned m1 = without_earned m2 →
  without_draws <$> l1 = without_draws <$> l2 →
  related (λ l1' l2', without_draws <$> l1' = without_draws <$> l2')
    (uw_step m1 l1) (uw_step m2 l2).
Proof.
  intros Hm Hl. unfold uw_step.
  eapply related_bind; [apply related_uniform|]. intros u1 u2 _.
  apply related_ret. rewrite !fmap_app, Hl. f_equal. cbn.
  destruct (without_earned_fields m1 m2 Hm) as (-> & -> & -> & -> & -> & ->).
  done.
Qed.

Lemma quote_metric_step_related (q : Quote)
    (d : list (string * Z * QuoteMetric)) :
  related eq (quote_metric_step q d) (quote_metric_step q d).
Proof.
  unfold quote_metric_step.
  eapply (related_bind eq).
  - destruct (od_get _ d); [by apply related_ret|].
    eapply related_bind; [apply related_lob_name|].
    intros ? desc ->. by apply related_ret.
  - intros ? qm ->. by apply related_ret.
Qed.

Lemma retention_step_related (pol : Policy) (d : list (string * Retention)) :
  related eq (retention_step pol d) (retention_step pol d).
Proof.
  unfold retention_step.
  eapply (related_bind eq).
  - destruct (od_get _ d); [by apply related_ret|].
    eapply related_bind; [apply related_lob_name|].
    intros ? desc ->. by apply related_ret.
  - intros ? rm ->. by apply related_ret.
Qed.

Lemma related_for_each_eq {A S} (body : A → S → M S) (xs : list A) (s : S) :
  (∀ x s, related eq (body x s) (body x s)) →
  related eq (for_each xs body s) (for_each xs body s).
Proof.
  intros Hbody. apply (related_for_each eq eq); [by apply Forall2_same| |done].
  intros x ? s1 ? -> ->. apply Hbody.
Qed.

Lemma finished_view (d1 d2 : list (string * Z * LobYear)) :
  key_view d1 = key_view d2 →
  Forall2 (λ m1 m2, without_earned m1 = without_earned m2)
    ((λ kv, finish_lob_year kv.2) <$> d1)
    ((λ kv, finish_lob_year kv.2) <$> d2).
Proof.
  revert d2. induction d1 as [|[k1 m1] d1 IH]; intros [|[k2 m2] d2] H;
    cbn in H; try discriminate H; cbn; constructor.
  - apply finish_lob_year_view.
    apply (f_equal (λ l, snd <$> head l)) in H. by apply (inj Some) in H.
  - apply IH. by apply (f_equal tail) in H.
Qed.

Lemma Forall2_fmap_eq {A B} (f : A → B) (l1 l2 : list A) :
  Forall2 (λ a b, f a = f b) l1 l2 → f <$> l1 = f <$> l2.
Proof. induction 1; cbn; congruence. Qed.



(* ===================================================================== *)
(** ** More on the versioned-policy generator                             *)
(* ===================================================================== *)

Lemma policy_base_facts (insureds : list Insured) (agents : list Agent)
    (i : Z) :
  insureds ≠ [] → agents ≠ [] →
  ensures (policy_base insureds agents i)
    (λ b, base_ok i b ∧ base_facts insureds agents b).
Proof.
  intros Hi Ha. unfold policy_base.
  ens_bind as insured Hins. ens_bind as agent Hag. ens_bind as lob Hlob.
  ens_bind as eff Heff. ens_bind as term Hterm.
  ens_bind as k1 Hk1. ens_bind as k2 Hk2. ens_bind as k3 Hk3.
  ens_bind as k4 Hk4. ens_bind as base_premium _. ens_bind as e _.
  ens_bind as base_status Hstatus. ens_bind as u _.
  eapply (ensures_bind _ _ (λ n, 1 ≤ n ≤ 3)).
  { apply ensures_if; intros _; [|by apply ensures_ret].
    eapply ensures_mono; [apply ensures_choice; done|].
    intros n Hn. cbv beta in Hn.
    repeat (apply elem_of_cons in Hn as [->|Hn]; [lia|]).
    by apply elem_of_nil in Hn. }
  intros n Hn. apply ensures_ret.
  unfold base_ok, base_facts, to_date; cbn [pb_i pb_num_versions pb_lob pb_eff
    pb_exp pb_binding pb_issue pb_system_entry pb_booking pb_insured pb_agent
    pb_base_status add_days dt_day].
  destruct Heff as [Heff _].
  repeat split; try done; try lia.
  replace (dt_day eff + term - dt_day eff) with term by lia. done.
Qed.

Lemma policy_version_facts (b : PolicyBase) (v : Z) (st : Z * list Policy) :
  pb_lob b ∈ LOB_CODES →
  ensures (policy_version b v st)
    (λ st', ∃ r, st' = (st.1 + 1, st.2 ++ [r]) ∧ pol_row_id r = st.1 + 1 ∧
                 version_row b v r ∧ row_facts b v r).
Proof.
  intros Hlob. unfold policy_version.
  ens_bind as d Hd.
  eapply (ensures_bind _ _
            (λ vt, vt = None ↔ (v =? pb_num_versions b - 1) = true)).
  { apply ensures_if; intros Hc; [by apply ensures_ret|].
    ens_bind as d' _. apply ensures_ret. rewrite Hc. done. }
  intros valid_to Hvt.
  eapply (ensures_bind _ _
    (λ t : Q * Q * string * option date * option string,
       (v = 0 → t = (pb_base_premium b, pb_base_exposure b, pb_base_status b,
                     None, None)) ∧
       (t.1.2 = None → t.2 = None ∧ t.1.1.2 = pb_base_status b) ∧
       (∀ d, t.1.2 = Some d →
          v ≠ 0 ∧ t.1.1.2 = "CANCELLED" ∧
          to_date (pb_eff b) + 30 ≤ d ≤ to_date (pb_eff b) + 300 ∧
          ∃ reason, t.2 = Some reason ∧
             reason ∈ ["NON_PAY"; "INSURED_REQ"; "UW_ACTION"; "REWRITE"]))).
  { apply ensures_if; intros Hv0.
    - apply ensures_ret. split; [done|]. split; [done|]. by intros d0 ?.
    - apply Z.eqb_neq in Hv0.
      ens_bind as f _. ens_bind as g _. ens_bind as u _.
      apply ensures_if; intros _.
      + ens_bind as k Hk. ens_bind as reason Hreason. apply ensures_ret.
        cbn. split; [done|]. split; [done|]. intros d0 Hd0.
        injection Hd0 as <-. unfold to_date, add_days; cbn [dt_day].
        split; [done|]. split; [done|]. split; [lia|]. by exists reason.
      + apply ensures_ret. cbn. split; [done|]. split; [done|].
        by intros d0 ?. }
  intros [[[[premium exposure] status] cancel_date] cancel_reason] Hev.
  cbn [fst snd] in Hev.
  eapply (ensures_bind _ _
            (λ del, del = true → (v =? pb_num_versions b - 1) = false)).
  { apply ensures_if; intros Hc.
    - ens_bind as u _. apply ensures_ret.
      intros _. by apply negb_true_iff in Hc.
    - by apply ensures_ret. }
  intros is_deleted Hdel.
  eapply (ensures_bind _ _
            (λ desc, assoc (pb_lob b) LOB_NAMES = Some desc)).
  { unfold lob_name. destruct (assoc (pb_lob b) LOB_NAMES) as [n|] eqn:Hn.
    - by apply ensures_ret.
    - exfalso. unfold LOB_CODES in Hlob.
      repeat (apply elem_of_cons in Hlob as [Hlob|Hlob];
              [rewrite Hlob in Hn; discriminate Hn|]).
      by apply elem_of_nil in Hlob. }
  intros lob_description Hdesc.
  ens_bind as product _. ens_bind as term _. ens_bind as terr _.
  ens_bind as deductible _. ens_bind as limit _. ens_bind as underwriter _.
  ens_bind as prior Hprior. ens_bind as renewal Hrenewal.
  ens_bind as source _. apply ensures_ret.
  eexists. split; [reflexivity|]. split; [reflexivity|].
  destruct Hev as (Hev0 & HevN & HevS). split.
  - unfold version_row; cbn. repeat split; try done; try apply Hvt.
    exists d. done.
  - unfold row_facts; cbn.
    split; [done|]. split; [done|]. split; [done|]. split; [done|].
    split; [done|]. split; [done|]. split; [|split; [done|split; [done|]]].
    + intros Hv. specialize (Hev0 Hv). by simplify_eq.
    + intros k Hk. destruct Hrenewal as [?|?]; simplify_eq. done.
Qed.

Lemma policy_versions_facts (insureds : list Insured) (agents : list Agent)
    (i : Z) (st : Z * list Policy) :
  insureds ≠ [] → agents ≠ [] →
  st.1 = Z.of_nat (length st.2) →
  pol_row_id <$> st.2 = range 1 (st.1 + 1) →
  ensures (policy_versions insureds agents i st)
    (λ st', st'.1 = Z.of_nat (length st'.2) ∧
            pol_row_id <$> st'.2 = range 1 (st'.1 + 1) ∧
            ∃ rows, st'.2 = st.2 ++ rows ∧ policy_rows insureds agents i rows).
Proof.
  intros Hi Ha Hlen Hids. unfold policy_versions.
  eapply ensures_bind; [by apply policy_base_facts|].
  intros b [Hb Hbf].
  eapply ensures_mono.
  - apply (ensures_for_each _
      (λ seen st', st'.1 = Z.of_nat (length st'.2) ∧
                   pol_row_id <$> st'.2 = range 1 (st'.1 + 1) ∧
                   ∃ rows, st'.2 = st.2 ++ rows ∧
                     Forall2 (λ v r, version_row b v r ∧ row_facts b v r)
                       seen rows)).
    + split; [done|]. split; [done|]. exists []. by rewrite app_nil_r.
    + intros seen v st' _ (Hlen' & Hids' & rows & Hst & Hrows).
      eapply ensures_mono; [apply policy_version_facts; apply Hb|].
      intros st'' (r & -> & Hrid & Hr & Hf). cbn [fst snd].
      split; [rewrite length_app; cbn; lia|]. split.
      * rewrite fmap_app, Hids', (range_snoc 1 (st'.1 + 1)) by lia.
        cbn. by rewrite Hrid.
      * exists (rows ++ [r]). split; [by rewrite Hst, <- app_assoc|].
        apply Forall2_app; [done|]. by constructor.
  - intros st' (Hlen' & Hids' & rows & Hst & Hrows).
    split; [done|]. split; [done|]. exists rows. split; [done|]. by exists b.
Qed.

Lemma gen_policies_stream (insureds : list Insured) (agents : list Agent) :
  insureds ≠ [] → agents ≠ [] →
  ensures (for_each (range 1 (NUM_POLICIES + 1))
             (policy_versions insureds agents) (0, []))
    (policy_stream insureds agents (range 1 (NUM_POLICIES + 1))).
Proof.
  intros Hi Ha.
  apply (ensures_for_each _ (policy_stream insureds agents)).
  - split; [done|]. split; [done|]. by exists [].
  - intros seen i st _ (Hlen & Hids & blocks & Hst & Hblocks).
    eapply ensures_mono; [by apply policy_versions_facts|].
    intros st' (Hlen' & Hids' & rows & Hst' & Hrows).
    split; [done|]. split; [done|]. exists (blocks ++ [rows]). split.
    + rewrite Hst', Hst, concat_app. cbn. by rewrite app_nil_r.
    + apply Forall2_app; [done|]. by constructor.
Qed.

Lemma policy_rows_block (insureds : list Insured) (agents : list Agent)
    (i : Z) (rows : list Policy) :
  policy_rows insureds agents i rows → policy_block i rows.
Proof.
  intros (b & Hb & _ & Hrows). exists b. split; [done|].
  eapply Forall2_impl; [exact Hrows|]. by intros v r [? _].
Qed.

Lemma policy_stream_blocks (insureds : list Insured) (agents : list Agent)
    (ids : list Z) (st : Z * list Policy) :
  policy_stream insureds agents ids st → blocks_of ids st.2.
Proof.
  intros (_ & _ & blocks & Hst & Hb). exists blocks. split; [done|].
  eapply Forall2_impl; [exact Hb|]. apply policy_rows_block.
Qed.

(** Selecting one key from a concatenation of blocks, each tagged by its
    own key, yields that key's block. *)
Lemma concat_filter_key {A} (f : A → Z) (P : Z → list A → Prop)
    (ids : list Z) (blocks : list (list A)) (i : Z) :
  Forall2 P ids blocks →
  (∀ j rows r, P j rows → r ∈ rows → f r = j) →
  NoDup ids → i ∈ ids →
  ∃ rows, P i rows ∧ filter (λ r, f r = i) (concat blocks) = rows.
Proof.
  intros Hb Htag. revert i.
  induction Hb as [|j rows ids blocks Hrows Hb IH]; intros i Hnd Hi.
  - by apply elem_of_nil in Hi.
  - apply NoDup_cons in Hnd as [Hj Hnd]. cbn. rewrite filter_app.
    assert (∀ k, k ∉ ids →
              filter (λ r, f r = k) (concat blocks) = []) as Hnone.
    { intros k Hk. apply filter_none, Forall_forall. intros r Hr Hfr.
      apply elem_of_concat in Hr as (rs & Hr & Hrs).
      apply list_elem_of_lookup in Hrs as [n Hn].
      destruct (Forall2_lookup_r _ _ _ _ _ Hb Hn) as (k' & Hk' & Hp).
      apply Hk. rewrite <- Hfr, (Htag k' rs r Hp Hr).
      apply list_elem_of_lookup. eauto. }
    destruct (decide (i = j)) as [->|Hne].
    + exists rows. split; [done|].
      rewrite (filter_all _ rows), Hnone by
        (try done; apply Forall_forall; intros r Hr; by apply (Htag j rows)).
      by rewrite app_nil_r.
    + apply elem_of_cons in Hi as [->|Hi]; [done|].
      destruct (IH i Hnd Hi) as (rs & Hrs & Hf). exists rs. split; [done|].
      rewrite Hf, (filter_none _ rows); [done|].
      apply Forall_forall. intros r Hr Hfr.
      apply Hne. by rewrite <- Hfr, (Htag j rows r Hrows Hr).
Qed.

Lemma policy_rows_tag (insureds : list Insured) (agents : list Agent)
    (i : Z) (rows : list Policy) (r : Policy) :
  policy_rows insureds agents i rows → r ∈ rows → pol_policy_id r = i.
Proof.
  intros Hrows Hr.
  by apply (policy_block_elem i rows r (policy_rows_block _ _ _ _ Hrows)) in Hr
    as [? _].
Qed.

(** Every row of the stream, with the draws of its policy. *)
Lemma policy_stream_row (insureds : list Insured) (agents : list Agent)
    (ids : list Z) (st : Z * list Policy) (p : Policy) :
  policy_stream insureds agents ids st → p ∈ st.2 →
  ∃ b v, pb_i b ∈ ids ∧ base_ok (pb_i b) b ∧ base_facts insureds agents b ∧
         0 ≤ v < pb_num_versions b ∧ version_row b v p ∧ row_facts b v p.
Proof.
  intros (_ & _ & blocks & -> & Hb) Hp.
  apply elem_of_concat in Hp as (rows & Hp & Hrows).
  apply list_elem_of_lookup in Hrows as [n Hn].
  destruct (Forall2_lookup_r _ _ _ _ _ Hb Hn) as (i & Hi & b & Hbase & Hbf & Hvs).
  apply list_elem_of_lookup in Hp as [k Hk].
  destruct (Forall2_lookup_r _ _ _ _ _ Hvs Hk) as (v & Hv & Hrow & Hfacts).
  assert (v ∈ range 0 (pb_num_versions b)) as Hvr
    by (apply list_elem_of_lookup; eauto).
  apply elem_of_range in Hvr.
  exists b, v. destruct Hbase as (Hbi & Hrest).
  split; [rewrite Hbi; apply list_elem_of_lookup; eauto|].
  split; [by rewrite Hbi|]. split; [done|]. split; [lia|done].
Qed.

Lemma gen_policies_stream_run (insureds : list Insured) (agents : list Agent)
    (w : World) :
  insureds ≠ [] → agents ≠ [] →
  ∃ ps w' n,
    gen_policies_with_cdc insureds agents w = Ok (ps, w') ∧
    policy_stream insureds agents (range 1 (NUM_POLICIES + 1)) (n, ps).
Proof.
  intros Hi Ha.
  destruct (gen_policies_stream insureds agents Hi Ha w)
    as ([n ps] & w' & Hrun & Hst).
  exists ps, w', n. split; [|done].
  unfold gen_policies_with_cdc. apply bind_Ok. eauto.
Qed.

Lemma length_range (a b : Z) : Z.of_nat (length (range a b)) = Z.max 0 (b - a).
Proof. unfold range. rewrite length_map, length_seq. lia. Qed.

Lemma length_concat_bounds {A} (lo hi : Z) (blocks : list (list A)) :
  Forall (λ rows, lo ≤ Z.of_nat (length rows) ≤ hi) blocks →
  lo * Z.of_nat (length blocks) ≤ Z.of_nat (length (concat blocks))
    ≤ hi * Z.of_nat (length blocks).
Proof.
  induction 1 as [|rows blocks Hrows Hb IH]; cbn; [lia|].
  rewrite length_app. lia.
Qed.

Lemma version_numbers_of_block (b : PolicyBase) (vs : list Z)
    (rows : list Policy) :
  Forall2 (version_row b) vs rows →
  pol_version_number <$> rows = (λ v, v + 1) <$> vs.
Proof.
  induction 1 as [|v r vs rows Hr Hrows IH]; [done|].
  cbn. rewrite IH. by destruct Hr as (_ & -> & _).
Qed.

Lemma range_shift (a b : Z) : (λ v, v + 1) <$> range a b = range (a + 1) (b + 1).
Proof.
  unfold range. rewrite <- list_fmap_compose.
  replace (b + 1 - (a + 1)) with (b - a) by lia.
  apply list_fmap_ext. intros _ k _. cbn. lia.
Qed.

(** X1.  The generator returns; its rows carry the surrogate keys 1, 2, ...
    in order; there are between NUM_POLICIES and 3 * NUM_POLICIES rows; and
    the rows of each policy_id carry the version numbers 1..k, in order,
    for some k of 1..3. *)
Theorem policy_rows_are_numbered
    (insureds : list Insured) (agents : list Agent) (w : World) :
  insureds ≠ [] → agents ≠ [] →
  ∃ ps w',
    gen_policies_with_cdc insureds agents w = Ok (ps, w') ∧
    pol_row_id <$> ps = range 1 (Z.of_nat (length ps) + 1) ∧
    NUM_POLICIES ≤ Z.of_nat (length ps) ≤ 3 * NUM_POLICIES ∧
    ∀ i, 1 ≤ i ≤ NUM_POLICIES →
      ∃ k, 1 ≤ k ≤ 3 ∧
           pol_version_number <$> filter (λ p, pol_policy_id p = i) ps
             = range 1 (k + 1).
Proof.
  intros Hi Ha.
  destruct (gen_policies_stream_run insureds agents w Hi Ha)
    as (ps & w' & n & Hrun & Hst).
  exists ps, w'. split; [done|].
  pose proof (policy_stream_blocks _ _ _ _ Hst) as Hblocks.
  destruct Hst as (Hlen & Hids & blocks & Hps & Hb). cbn [fst snd] in *.
  split; [by rewrite <- Hlen|]. split.
  - assert (Forall (λ rows : list Policy, 1 ≤ Z.of_nat (length rows) ≤ 3)
              blocks) as Hsz.
    { apply Forall_forall. intros rows Hrows.
      apply list_elem_of_lookup in Hrows as [k Hk].
      destruct (Forall2_lookup_r _ _ _ _ _ Hb Hk)
        as (i & _ & b & (_ & Hn & _) & _ & Hvs).
      apply Forall2_length in Hvs. rewrite <- Hvs.
      rewrite length_range. lia. }
    apply length_concat_bounds in Hsz.
    apply Forall2_length in Hb.
    pose proof (length_range 1 (NUM_POLICIES + 1)) as Hr.
    rewrite <- Hb in Hsz. rewrite Hps. unfold NUM_POLICIES in *. lia.
  - intros i Hin.
    destruct (blocks_of_filter _ ps i Hblocks (NoDup_range _ _))
      as (rows & (b & (_ & Hn & _) & Hrows) & ->); [apply elem_of_range; lia|].
    exists (pb_num_versions b). split; [done|].
    rewrite (version_numbers_of_block b _ _ Hrows). apply range_shift.
Qed.

Lemma policy_rows_are_numbered_witness :
  ∃ ps w',
    gen_policies_with_cdc [insured0] [agent0] (world_of []) = Ok (ps, w') ∧
    pol_row_id <$> ps = range 1 (Z.of_nat (length ps) + 1) ∧
    NUM_POLICIES ≤ Z.of_nat (length ps) ≤ 3 * NUM_POLICIES ∧
    ∀ i, 1 ≤ i ≤ NUM_POLICIES →
      ∃ k, 1 ≤ k ≤ 3 ∧
           pol_version_number <$> filter (λ p, pol_policy_id p = i) ps
             = range 1 (k + 1).
Proof.
  apply (policy_rows_are_numbered [insured0] [agent0] (world_of []));
    discriminate.
Defined.

(** X2.  A row with a cancellation date is a later version (not version 1)
    with status CANCELLED, a reason of the four, and a date 30 to 300 days
    after the effective date; a row without one has no reason and keeps
    the status drawn for the policy. *)
Theorem policy_cancellation
    (insureds : list Insured) (agents : list Agent) (w : World) :
  insureds ≠ [] → agents ≠ [] →
  ∃ ps w',
    gen_policies_with_cdc insureds agents w = Ok (ps, w') ∧
    ∀ p, p ∈ ps →
      (∀ d, pol_cancellation_date p = Some d →
         2 ≤ pol_version_number p ∧
         pol_policy_status p = "CANCELLED" ∧
         pol_effective_date p + 30 ≤ d ≤ pol_effective_date p + 300 ∧
         ∃ reason, pol_cancellation_reason p = Some reason ∧
           reason ∈ ["NON_PAY"; "INSURED_REQ"; "UW_ACTION"; "REWRITE"]) ∧
      (pol_cancellation_date p = None →
         pol_cancellation_reason p = None ∧
         pol_policy_status p ∈ POLICY_STATUSES) ∧
      (pol_version_number p = 1 → pol_cancellation_date p = None).
Proof.
  intros Hi Ha.
  destruct (gen_policies_stream_run insureds agents w Hi Ha)
    as (ps & w' & n & Hrun & Hst).
  exists ps, w'. split; [done|]. intros p Hp.
  destruct (policy_stream_row _ _ _ _ p Hst Hp)
    as (b & v & _ & _ & (_ & _ & Hbs & _) & Hv & Hrow & Hfacts).
  destruct Hrow as (_ & Hver & _ & _ & _ & _ & Heff & _).
  destruct Hfacts as (_ & _ & _ & _ & _ & _ & H0 & Hnone & Hsome & _).
  split; [|split].
  - intros d Hd. destruct (Hsome d Hd) as (Hv0 & Hst' & Hrange & Hreason).
    rewrite Heff. split; [lia|done].
  - intros Hd. destruct (Hnone Hd) as [Hr Hs]. split; [done|]. by rewrite Hs.
  - intros Hv1. apply H0. lia.
Qed.

Lemma policy_cancellation_witness :
  ∃ ps w',
    gen_policies_with_cdc [insured0] [agent0] (world_of []) = Ok (ps, w') ∧
    ∀ p, p ∈ ps →
      (∀ d, pol_cancellation_date p = Some d →
         2 ≤ pol_version_number p ∧
         pol_policy_status p = "CANCELLED" ∧
         pol_effective_date p + 30 ≤ d ≤ pol_effective_date p + 300 ∧
         ∃ reason, pol_cancellation_reason p = Some reason ∧
           reason ∈ ["NON_PAY"; "INSURED_REQ"; "UW_ACTION"; "REWRITE"]) ∧
      (pol_cancellation_date p = None →
         pol_cancellation_reason p = None ∧
         pol_policy_status p ∈ POLICY_STATUSES) ∧
      (pol_version_number p = 1 → pol_cancellation_date p = None).
Proof.
  apply (policy_cancellation [insured0] [agent0] (world_of []));
    discriminate.
Defined.

(** Selecting one policy from the stream. *)
Lemma policy_stream_filter (insureds : list Insured) (agents : list Agent)
    (ids : list Z) (st : Z * list Policy) (i : Z) :
  policy_stream insureds agents ids st → NoDup ids → i ∈ ids →
  ∃ rows, policy_rows insureds agents i rows ∧
          filter (λ p, pol_policy_id p = i) st.2 = rows.
Proof.
  intros (_ & _ & blocks & -> & Hb) Hnd Hi.
  apply (concat_filter_key pol_policy_id (policy_rows insureds agents) ids);
    try done.
  intros j rows r. apply policy_rows_tag.
Qed.

(** Two rows of the same policy come from the same per-policy draws. *)
Lemma policy_stream_pair (insureds : list Insured) (agents : list Agent)
    (ids : list Z) (st : Z * list Policy) (p q : Policy) :
  policy_stream insureds agents ids st → NoDup ids →
  p ∈ st.2 → q ∈ st.2 → pol_policy_id p = pol_policy_id q →
  ∃ b vp vq,
    base_ok (pb_i b) b ∧ base_facts insureds agents b ∧
    version_row b vp p ∧ row_facts b vp p ∧
    version_row b vq q ∧ row_facts b vq q.
Proof.
  intros Hst Hnd Hp Hq Hid.
  destruct (policy_stream_row _ _ _ _ p Hst Hp)
    as (b0 & v0 & Hin & _ & _ & _ & (Hpid & _) & _).
  destruct (policy_stream_filter _ _ _ _ (pb_i b0) Hst Hnd Hin)
    as (rows & (b & Hb & Hbf & Hrows) & Hf).
  assert (p ∈ rows ∧ q ∈ rows) as [Hp' Hq'].
  { rewrite <- Hf. split; apply list_elem_of_filter; split; congruence. }
  apply list_elem_of_lookup in Hp' as [kp Hkp].
  apply list_elem_of_lookup in Hq' as [kq Hkq].
  destruct (Forall2_lookup_r _ _ _ _ _ Hrows Hkp) as (vp & _ & Hrp & Hfp).
  destruct (Forall2_lookup_r _ _ _ _ _ Hrows Hkq) as (vq & _ & Hrq & Hfq).
  exists b, vp, vq. destruct Hb as (Hbi & Hb).
  split; [by rewrite Hbi|done].
Qed.

(** X3.  The versions of a policy differ in nothing that is drawn once per
    policy: two rows with the same policy_id have the same insured, agent,
    line of business, state and the same six business dates. *)
Theorem policy_versions_share_base
    (insureds : list Insured) (agents : list Agent) (w : World) :
  insureds ≠ [] → agents ≠ [] →
  ∃ ps w',
    gen_policies_with_cdc insureds agents w = Ok (ps, w') ∧
    ∀ p q, p ∈ ps → q ∈ ps → pol_policy_id p = pol_policy_id q →
      pol_insured_id p = pol_insured_id q ∧
      pol_agent_id p = pol_agent_id q ∧
      pol_line_of_business p = pol_line_of_business q ∧
      pol_lob_description p = pol_lob_description q ∧
      pol_state p = pol_state q ∧
      pol_effective_date p = pol_effective_date q ∧
      pol_expiration_date p = pol_expiration_date q ∧
      pol_binding_date p = pol_binding_date q ∧
      pol_issue_date p = pol_issue_date q ∧
      pol_system_entry_date p = pol_system_entry_date q ∧
      pol_booking_date p = pol_booking_date q.
Proof.
  intros Hi Ha.
  destruct (gen_policies_stream_run insureds agents w Hi Ha)
    as (ps & w' & n & Hrun & Hst).
  exists ps, w'. split; [done|]. intros p q Hp Hq Hid.
  destruct (policy_stream_pair _ _ _ _ p q Hst (NoDup_range _ _) Hp Hq Hid)
    as (b & vp & vq & _ & _ & Hrp & Hfp & Hrq & Hfq).
  destruct Hrp as (_ & _ & _ & _ & _ & _ & -> & -> & -> & -> & ->).
  destruct Hrq as (_ & _ & _ & _ & _ & _ & -> & -> & -> & -> & ->).
  destruct Hfp as (-> & -> & -> & -> & Hdp & -> & _).
  destruct Hfq as (-> & -> & -> & -> & Hdq & -> & _).
  repeat split; try done. congruence.
Qed.

Lemma policy_versions_share_base_witness :
  ∃ ps w',
    gen_policies_with_cdc [insured0] [agent0] (world_of []) = Ok (ps, w') ∧
    ∀ p q, p ∈ ps → q ∈ ps → pol_policy_id p = pol_policy_id q →
      pol_insured_id p = pol_insured_id q ∧
      pol_agent_id p = pol_agent_id q ∧
      pol_line_of_business p = pol_line_of_business q ∧
      pol_lob_description p = pol_lob_description q ∧
      pol_state p = pol_state q ∧
      pol_effective_date p = pol_effective_date q ∧
      pol_expiration_date p = pol_expiration_date q ∧
      pol_binding_date p = pol_binding_date q ∧
      pol_issue_date p = pol_issue_date q ∧
      pol_system_entry_date p = pol_system_entry_date q ∧
      pol_booking_date p = pol_booking_date q.
Proof.
  apply (policy_versions_share_base [insured0] [agent0] (world_of []));
    discriminate.
Defined.

(** The days [rand_date(2020, 2025)] can return lie in those years. *)
Lemma year_of_range (d : date) :
  dt_day (mk_datetime 2020 1 1) ≤ d ≤ dt_day (mk_datetime 2025 12 31) →
  2020 ≤ year_of d ≤ 2025.
Proof.
  intros Hd.
  assert (List.forallb (λ d, (2020 <=? year_of d) && (year_of d <=? 2025))
            (range 737425 739617) = true) as Hall by (by vm_compute).
  rewrite List.forallb_forall in Hall.
  specialize (Hall d). rewrite <- list_elem_of_In, elem_of_range in Hall.
  change (dt_day (mk_datetime 2020 1 1)) with 737425 in Hd.
  change (dt_day (mk_datetime 2025 12 31)) with 739616 in Hd.
  apply andb_true_iff in Hall as [H1 H2]; [lia|lia].
Qed.

(** X4.  Every row takes its insured and its agent from the pools and its
    state from that insured; its line of business is one of LOB_CODES,
    described as in LOB_NAMES; it starts in 2020..2025 and runs 180, 365 or
    730 days. *)
Theorem policy_rows_refer_to_pools
    (insureds : list Insured) (agents : list Agent) (w : World) :
  insureds ≠ [] → agents ≠ [] →
  ∃ ps w',
    gen_policies_with_cdc insureds agents w = Ok (ps, w') ∧
    ∀ p, p ∈ ps →
      (∃ ins, ins ∈ insureds ∧ pol_insured_id p = insured_id ins ∧
              pol_state p = ins_state ins) ∧
      (∃ ag, ag ∈ agents ∧ pol_agent_id p = agent_id ag) ∧
      pol_line_of_business p ∈ LOB_CODES ∧
      assoc (pol_line_of_business p) LOB_NAMES
        = Some (pol_lob_description p) ∧
      2020 ≤ year_of (pol_effective_date p) ≤ 2025 ∧
      pol_expiration_date p - pol_effective_date p ∈ [180; 365; 730].
Proof.
  intros Hi Ha.
  destruct (gen_policies_stream_run insureds agents w Hi Ha)
    as (ps & w' & n & Hrun & Hst).
  exists ps, w'. split; [done|]. intros p Hp.
  destruct (policy_stream_row _ _ _ _ p Hst Hp)
    as (b & v & _ & (_ & _ & Hlob & _) & (Hins & Hag & _ & Heff & Hterm)
        & _ & Hrow & Hfacts).
  destruct Hrow as (_ & _ & _ & _ & _ & _ & Hpe & _).
  destruct Hfacts as (Hpi & Hpa & Hps & Hpl & Hpd & Hpx & _).
  split; [by exists (pb_insured b)|]. split; [by exists (pb_agent b)|].
  rewrite Hpl, Hpe, Hpx. split; [done|]. split; [done|]. split; [|done].
  by apply year_of_range.
Qed.

Lemma policy_rows_refer_to_pools_witness :
  ∃ ps w',
    gen_policies_with_cdc [insured0] [agent0] (world_of []) = Ok (ps, w') ∧
    ∀ p, p ∈ ps →
      (∃ ins, ins ∈ [insured0] ∧ pol_insured_id p = insured_id ins ∧
              pol_state p = ins_state ins) ∧
      (∃ ag, ag ∈ [agent0] ∧ pol_agent_id p = agent_id ag) ∧
      pol_line_of_business p ∈ LOB_CODES ∧
      assoc (pol_line_of_business p) LOB_NAMES
        = Some (pol_lob_description p) ∧
      2020 ≤ year_of (pol_effective_date p) ≤ 2025 ∧
      pol_expiration_date p - pol_effective_date p ∈ [180; 365; 730].
Proof.
  apply (policy_rows_refer_to_pools [insured0] [agent0] (world_of []));
    discriminate.
Defined.

(** X5.  A renewal reference never points to a later policy: when set it
    is an id of 1 .. policy_id - 1, except on policy 1, where it can only
    be 1, the policy itself. *)
Theorem policy_renewal_points_back
    (insureds : list Insured) (agents : list Agent) (w : World) :
  insureds ≠ [] → agents ≠ [] →
  ∃ ps w',
    gen_policies_with_cdc insureds agents w = Ok (ps, w') ∧
    ∀ p k, p ∈ ps → pol_renewal_of_policy_id p = Some k →
      (1 ≤ k < pol_policy_id p) ∨ (pol_policy_id p = 1 ∧ k = 1).
Proof.
  intros Hi Ha.
  destruct (gen_policies_stream_run insureds agents w Hi Ha)
    as (ps & w' & n & Hrun & Hst).
  exists ps, w'. split; [done|]. intros p k Hp Hk.
  destruct (policy_stream_row _ _ _ _ p Hst Hp)
    as (b & v & Hin & _ & _ & _ & (Hid & _) & Hfacts).
  apply elem_of_range in Hin.
  destruct Hfacts as (_ & _ & _ & _ & _ & _ & _ & _ & _ & Hren).
  specialize (Hren k Hk). rewrite Hid. lia.
Qed.

Lemma policy_renewal_points_back_witness :
  ∃ ps w',
    gen_policies_with_cdc [insured0] [agent0] (world_of []) = Ok (ps, w') ∧
    ∀ p k, p ∈ ps → pol_renewal_of_policy_id p = Some k →
      (1 ≤ k < pol_policy_id p) ∨ (pol_policy_id p = 1 ∧ k = 1).
Proof.
  apply (policy_renewal_points_back [insured0] [agent0] (world_of []));
    discriminate.
Defined.

(** Policy 1 can be written as a renewal of itself: when [maybe_null]
    keeps the reference of its first version, that reference is 1. *)
Example policy_one_renews_itself :
  ∃ st w',
    policy_versions [insured0] [agent0] 1 (0, [])
      (world_of [0; 0; 0; 0; 0; 0; 0; 0; 0; 0; 0; 0; half;
                 0; 0; 0; 0; 0; 0; 0; 0; three_quarters]%N) = Ok (st, w') ∧
    (λ p, (pol_policy_id p, pol_renewal_of_policy_id p)) <$> st.2
      = [(1, Some 1)].
Proof. do 2 eexists. split; vm_compute; reflexivity. Qed.

(** X6.  With an empty pool of insureds, or of agents, the generator raises
    [IndexError] at its first policy, whatever the random source; with both
    pools non-empty it returns. *)
Theorem gen_policies_needs_pools
    (insureds : list Insured) (agents : list Agent) (w : World) :
  (insureds = [] ∨ agents = [] →
   gen_policies_with_cdc insureds agents w = Raise IndexError) ∧
  (insureds ≠ [] → agents ≠ [] →
   ∃ ps w', gen_policies_with_cdc insureds agents w = Ok (ps, w')).
Proof.
  split.
  - intros Hempty. unfold gen_policies_with_cdc.
    rewrite (range_cons 1) by done. cbn [for_each].
    unfold policy_versions, policy_base.
    destruct insureds as [|ins insureds]; [done|].
    destruct Hempty as [?| ->]; [done|]. done.
  - intros Hi Ha.
    destruct (gen_policies_blocks insureds agents Hi Ha w)
      as (ps & w' & Hrun & _). eauto.
Qed.

Lemma gen_policies_needs_pools_witness :
  gen_policies_with_cdc [] [agent0] (world_of []) = Raise IndexError ∧
  ∃ ps w', gen_policies_with_cdc [insured0] [agent0] (world_of []) = Ok (ps, w').
Proof.
  split.
  - apply (gen_policies_needs_pools [] [agent0] (world_of [])). by left.
  - apply (gen_policies_needs_pools [insured0] [agent0] (world_of []));
      discriminate.
Defined.
Lemma ensures_and {A} (m : M A) (P Q : A → Prop) :
  ensures m P → ensures m Q → ensures m (λ a, P a ∧ Q a).
Proof.
  intros HP HQ w.
  destruct (HP w) as (a & w' & Ha & Hp), (HQ w) as (a' & w'' & Ha' & Hq).
  exists a, w'. split; [done|]. split; [done|].
  rewrite Ha in Ha'. by simplify_eq.
Qed.

Lemma ensures_bind_assoc {A B C} (m : M A) (k : A → M B) (f : B → M C)
    (Q : C → Prop) :
  ensures (a ← m; k a ≫= f) Q → ensures ((m ≫= k) ≫= f) Q.
Proof.
  intros H w. destruct (H w) as (c & w' & Hc & HQ). exists c, w'.
  split; [|done]. revert Hc. unfold mbind, M_bind.
  by destruct (m w) as [[a w1]|e].
Qed.

Lemma ensures_ret_bind {A B} (a : A) (f : A → M B) (Q : B → Prop) :
  ensures (f a) Q → ensures (mret a ≫= f) Q.
Proof. intros H w. apply (H w). Qed.

(** Brings the computation at the head of the goal into the shape
    [primitive ≫= continuation]. *)
Ltac ens_norm :=
  cbv beta iota zeta;
  repeat (lazymatch goal with
          | |- ensures ((_ ≫= _) ≫= _) _ => apply ensures_bind_assoc
          | |- ensures (mret _ ≫= _) _ => apply ensures_ret_bind
          end; cbv beta iota zeta).

Lemma claim_step_facts (policies : list Policy) (i : Z) (claims : list Claim) :
  get_current_policies policies ≠ [] →
  ensures (claim_step (get_current_policies policies) i claims)
    (λ claims', ∃ c, claims' = claims ++ [c] ∧ clm_claim_id c = i ∧
                     claim_facts policies c ∧ claim_closure c).
Proof.
  intros Hne. unfold claim_step.
  ens_bind as pol Hpol. ens_bind as loss_date Hloss.
  ens_bind as k1 Hk1. ens_bind as k2 Hk2. ens_bind as k3 Hk3.
  ens_bind as u _.
  assert (∀ c, clm_claim_number c = "CLM-" +:+ zfill 8 (clm_claim_id c) →
            clm_policy_id c = pol_policy_id pol →
            clm_policy_number c = pol_policy_number pol →
            clm_insured_id c = pol_insured_id pol →
            clm_line_of_business c = pol_line_of_business pol →
            clm_loss_state c = pol_state pol →
            clm_loss_date c = dt_day loss_date →
            clm_report_date c = dt_day loss_date + k1 →
            clm_entry_date c = dt_day loss_date + k1 + k2 →
            clm_processing_date c = dt_day loss_date + k1 + k2 + k3 →
            dt_day (clm_created_at c) = dt_day loss_date + k1 + k2 →
            dt_day (clm_updated_at c) = dt_day loss_date + k1 + k2 + k3 →
            claim_facts policies c) as Hfacts.
  { intros c ? ? ? ? ? ? Hl Hr He Hp Hc Hu. unfold claim_facts, to_date.
    rewrite Hl, Hr, He, Hp, Hc, Hu.
    split; [done|]. split; [by exists pol|]. lia. }
  destruct (Qltb u (6 # 10)) eqn:Hclosed.
  - ens_norm. ens_bind as k Hk. ens_norm. ens_bind as u' _.
    ens_norm.
    destruct (Qltb u' (8 # 100)) eqn:Hre.
    + ens_norm. ens_bind as kr Hkr. ens_norm. ens_bind as drawn Hdrawn.
      ens_walk. apply ensures_ret.
      eexists. split; [reflexivity|]. split; [done|].
      split; [by apply Hfacts|].
      unfold claim_closure, to_date; cbn [clm_claim_status clm_close_date
        clm_reopen_date clm_report_date add_days dt_day].
      split; [by repeat constructor|]. split; [|split; [|done]].
      * intros cd [= <-]. split; [lia|done].
      * intros rd [= <-]. split; [done|]. eexists. split; [done|]. lia.
    + ens_norm. ens_bind as drawn Hdrawn.
      ens_walk. apply ensures_ret.
      eexists. split; [reflexivity|]. split; [done|].
      split; [by apply Hfacts|].
      unfold claim_closure, to_date; cbn [clm_claim_status clm_close_date
        clm_reopen_date clm_report_date add_days dt_day andb].
      assert ((if negb (String.eqb drawn "CLOSED") then "CLOSED" else drawn)
              = "CLOSED") as ->.
      { destruct (String.eqb drawn "CLOSED") eqn:E; [|done].
        by apply String.eqb_eq in E. }
      split; [by repeat constructor|]. split; [|split; [done|done]].
      intros cd [= <-]. split; [lia|done].
  - ens_norm. ens_bind as drawn Hdrawn.
    ens_walk. apply ensures_ret.
    eexists. split; [reflexivity|]. split; [done|].
    split; [by apply Hfacts|].
    unfold claim_closure, to_date; cbn [clm_claim_status clm_close_date
      clm_reopen_date clm_report_date add_days dt_day andb].
    split; [done|]. done.
Qed.

Lemma gen_claims_facts (policies : list Policy) :
  get_current_policies policies ≠ [] →
  ensures (gen_claims policies)
    (λ claims, clm_claim_id <$> claims = range 1 (NUM_CLAIMS + 1) ∧
               Forall (λ c, claim_facts policies c ∧ claim_closure c) claims).
Proof.
  intros Hne. unfold gen_claims.
  apply (ensures_for_each _
    (λ seen claims, clm_claim_id <$> claims = seen ∧
       Forall (λ c, claim_facts policies c ∧ claim_closure c) claims)).
  - split; [done|constructor].
  - intros seen i claims _ [Hids Hrefs].
    eapply ensures_mono; [by apply claim_step_facts|].
    intros claims' (c & -> & Hc & Hf & Hcl). split.
    + by rewrite fmap_app, Hids; cbn; rewrite Hc.
    + apply Forall_app. split; [done|by constructor].
Qed.

(** X7.  From a version table with at least one current policy,
    [gen_claims] returns exactly NUM_CLAIMS claims, numbered 1, 2, ... in
    order; each copies its policy columns from one current policy, its loss
    falls in 2020..2025, and it is reported at most 60 days after the loss,
    entered at most 30 days after the report and processed at most 7 days
    after the entry. *)
Theorem claims_are_numbered_and_dated (policies : list Policy) (w : World) :
  get_current_policies policies ≠ [] →
  ∃ claims w',
    gen_claims policies w = Ok (claims, w') ∧
    Z.of_nat (length claims) = NUM_CLAIMS ∧
    clm_claim_id <$> claims = range 1 (NUM_CLAIMS + 1) ∧
    ∀ c, c ∈ claims →
      clm_claim_number c = "CLM-" +:+ zfill 8 (clm_claim_id c) ∧
      (∃ pol, pol ∈ get_current_policies policies ∧
         clm_policy_id c = pol_policy_id pol ∧
         clm_policy_number c = pol_policy_number pol ∧
         clm_insured_id c = pol_insured_id pol ∧
         clm_line_of_business c = pol_line_of_business pol ∧
         clm_loss_state c = pol_state pol) ∧
      2020 ≤ year_of (clm_loss_date c) ≤ 2025 ∧
      clm_loss_date c ≤ clm_report_date c ≤ clm_loss_date c + 60 ∧
      clm_report_date c ≤ clm_entry_date c ≤ clm_report_date c + 30 ∧
      clm_entry_date c ≤ clm_processing_date c ≤ clm_entry_date c + 7.
Proof.
  intros Hne.
  destruct (gen_claims_facts policies Hne w) as (claims & w' & Hrun & Hids & Hall).
  exists claims, w'. split; [done|]. split; [|split; [done|]].
  - rewrite <- (length_fmap clm_claim_id), Hids, length_range. by vm_compute.
  - intros c Hc. rewrite Forall_forall in Hall.
    destruct (Hall c Hc) as [(Hn & Hp & Hl & Hr & He & Hpr & _) _].
    split; [done|]. split; [done|]. split; [by apply year_of_range|]. done.
Qed.

Lemma claims_are_numbered_and_dated_witness :
  ∃ claims w',
    gen_claims [policy0] (world_of []) = Ok (claims, w') ∧
    Z.of_nat (length claims) = NUM_CLAIMS ∧
    clm_claim_id <$> claims = range 1 (NUM_CLAIMS + 1) ∧
    ∀ c, c ∈ claims →
      clm_claim_number c = "CLM-" +:+ zfill 8 (clm_claim_id c) ∧
      (∃ pol, pol ∈ get_current_policies [policy0] ∧
         clm_policy_id c = pol_policy_id pol ∧
         clm_policy_number c = pol_policy_number pol ∧
         clm_insured_id c = pol_insured_id pol ∧
         clm_line_of_business c = pol_line_of_business pol ∧
         clm_loss_state c = pol_state pol) ∧
      2020 ≤ year_of (clm_loss_date c) ≤ 2025 ∧
      clm_loss_date c ≤ clm_report_date c ≤ clm_loss_date c + 60 ∧
      clm_report_date c ≤ clm_entry_date c ≤ clm_report_date c + 30 ∧
      clm_entry_date c ≤ clm_processing_date c ≤ clm_entry_date c + 7.
Proof.
  apply (claims_are_numbered_and_dated [policy0] (world_of [])).
  by vm_compute.
Defined.

(** X8.  A claim with a close date was closed 30 to 730 days after its
    report and has status CLOSED, or REOPENED when it also has a reopen
    date; a reopen date lies 30 to 365 days after the close date and is set
    on no claim without one.  The status is always one of CLAIM_STATUSES. *)
Theorem claims_close_and_reopen (policies : list Policy) (w : World) :
  get_current_policies policies ≠ [] →
  ∃ claims w',
    gen_claims policies w = Ok (claims, w') ∧
    ∀ c, c ∈ claims →
      clm_claim_status c ∈ CLAIM_STATUSES ∧
      (∀ cd, clm_close_date c = Some cd →
         clm_report_date c + 30 ≤ cd ≤ clm_report_date c + 730 ∧
         (clm_reopen_date c = None → clm_claim_status c = "CLOSED")) ∧
      (∀ rd, clm_reopen_date c = Some rd →
         clm_claim_status c = "REOPENED" ∧
         ∃ cd, clm_close_date c = Some cd ∧ cd + 30 ≤ rd ≤ cd + 365) ∧
      (clm_close_date c = None → clm_reopen_date c = None).
Proof.
  intros Hne.
  destruct (gen_claims_facts policies Hne w) as (claims & w' & Hrun & _ & Hall).
  exists claims, w'. split; [done|]. intros c Hc.
  rewrite Forall_forall in Hall. by destruct (Hall c Hc) as [_ ?].
Qed.

Lemma claims_close_and_reopen_witness :
  ∃ claims w',
    gen_claims [policy0] (world_of []) = Ok (claims, w') ∧
    ∀ c, c ∈ claims →
      clm_claim_status c ∈ CLAIM_STATUSES ∧
      (∀ cd, clm_close_date c = Some cd →
         clm_report_date c + 30 ≤ cd ≤ clm_report_date c + 730 ∧
         (clm_reopen_date c = None → clm_claim_status c = "CLOSED")) ∧
      (∀ rd, clm_reopen_date c = Some rd →
         clm_claim_status c = "REOPENED" ∧
         ∃ cd, clm_close_date c = Some cd ∧ cd + 30 ≤ rd ≤ cd + 365) ∧
      (clm_close_date c = None → clm_reopen_date c = None).
Proof.
  apply (claims_close_and_reopen [policy0] (world_of [])).
  by vm_compute.
Defined.

(** The converse fails: a claim that was never closed can carry the status
    CLOSED (the status is then the one drawn from CLAIM_STATUSES). *)
Example closed_status_without_close_date :
  ∃ claims w',
    claim_step [policy0] 1 []
      (world_of [0; 0; 0; 0; 0; three_quarters; 1]%N) = Ok (claims, w') ∧
    (λ c, (clm_claim_status c, clm_close_date c)) <$> claims
      = [("CLOSED", None)].
Proof. do 2 eexists. split; vm_compute; reflexivity. Qed.
Lemma coverage_step_facts (policies : list Policy) (pol : Policy) (j : Z)
    (st : Z * list Coverage) :
  pol ∈ get_current_policies policies →
  coverages_ok policies st →
  ensures (coverage_step pol j st) (λ c, coverages_ok policies (ctl_state c)).
Proof.
  intros Hin (Hid & Hids & Hall). unfold coverage_step.
  destruct (NUM_COVERAGES <? st.1) eqn:Hcap; [by apply ensures_ret|].
  apply Z.ltb_ge in Hcap.
  ens_bind as cov_type Hty. ens_bind as limit Hlim. ens_bind as ded Hded.
  ens_walk. apply ensures_ret. unfold coverages_ok. cbn.
  split; [lia|]. split.
  - rewrite fmap_app, Hids, range_snoc by lia. done.
  - apply Forall_app. split; [done|]. constructor; [|done].
    split; [by exists pol|]. done.
Qed.

Lemma gen_coverages_facts (policies : list Policy) :
  ensures (gen_coverages policies)
    (λ covs, ∃ n, coverages_ok policies (n, covs)).
Proof.
  unfold gen_coverages.
  eapply ensures_bind.
  - apply (ensures_for_loop _ (coverages_ok policies)).
    + split; [by vm_compute|]. split; [done|constructor].
    + intros pol st Hpol Hst. unfold policy_coverages.
      ens_bind as n Hn.
      apply (ensures_for_loop _ (coverages_ok policies)); [done|].
      intros j st' _ Hst'. by apply coverage_step_facts.
  - intros c Hc. apply ensures_ret. cbv beta in *.
    destruct (ctl_state c) as [n covs]. by exists n.
Qed.

(** X9.  [gen_coverages] returns for every version table and every state
    of the random source, with at most NUM_COVERAGES rows numbered 1, 2, ...
    in order; each row takes its policy id and its two dates from one
    current policy, its code from COVERAGE_TYPES, and is described as
    "<code> Coverage". *)
Theorem coverages_are_numbered (policies : list Policy) (w : World) :
  ∃ covs w',
    gen_coverages policies w = Ok (covs, w') ∧
    Z.of_nat (length covs) ≤ NUM_COVERAGES ∧
    cov_coverage_id <$> covs = range 1 (Z.of_nat (length covs) + 1) ∧
    ∀ c, c ∈ covs →
      (∃ pol, pol ∈ get_current_policies policies ∧
         cov_policy_id c = pol_policy_id pol ∧
         cov_effective_date c = pol_effective_date pol ∧
         cov_expiration_date c = pol_expiration_date pol) ∧
      cov_coverage_code c ∈ COVERAGE_TYPES ∧
      cov_coverage_description c = cov_coverage_code c +:+ " Coverage".
Proof.
  destruct (gen_coverages_facts policies w)
    as (covs & w' & Hrun & n & Hn & Hids & Hall).
  cbn [fst snd] in *.
  assert (Z.of_nat (length covs) = n - 1) as Hlen.
  { rewrite <- (length_fmap cov_coverage_id), Hids, length_range. lia. }
  exists covs, w'. split; [done|]. split; [lia|]. split.
  - rewrite Hlen, Hids. f_equal. lia.
  - intros c Hc. rewrite Forall_forall in Hall.
    destruct (Hall c Hc) as (Hp & Hcode & Hdesc & _). done.
Qed.
(** [rand_ts] of a midnight stays on that day. *)
Lemma ensures_rand_ts_day (base : datetime) :
  dt_sec base = 0 →
  ensures (rand_ts base)
    (λ t, dt_day t = dt_day base ∧ 0 ≤ dt_sec t < 86400).
Proof.
  intros Hb. unfold rand_ts.
  ens_bind as h Hh. ens_bind as m Hm. ens_bind as s Hs.
  apply ensures_ret. unfold add_hms. cbn [dt_day dt_sec]. rewrite Hb.
  split.
  - rewrite Z.div_small; lia.
  - apply Z.mod_pos_bound. lia.
Qed.

Lemma void_txn_facts (claims : list Claim) (claim : Claim) (txn_id : Z)
    (txn_date : datetime) (amount : Q) (category : string) :
  claim ∈ get_active_claims claims → dt_sec txn_date = 0 →
  category ∈ ["LOSS"; "ALAE"; "ULAE"; "SALVAGE"; "SUBRO"] →
  ensures (void_txn claim txn_id txn_date amount category)
    (claim_txn_facts claims).
Proof.
  intros Hc Hmid Hcat. unfold void_txn.
  ens_bind as k Hk. ens_bind as k' Hk'. ens_bind as created_by _.
  eapply ensures_bind; [by apply ensures_rand_ts_day|].
  intros load_ts [Hday _]. apply ensures_ret.
  unfold claim_txn_facts, to_date.
  cbn [ctx_transaction_id ctx_claim_id ctx_claim_number ctx_transaction_type ctx_category
       ctx_is_void ctx_void_of_transaction_id ctx_transaction_date
       ctx_posting_date ctx_check_date ctx_check_number ctx_payee_name
       ctx_created_at ctx_load_ts].
  rewrite Hday. unfold to_date, add_days; cbn [dt_day].
  split; [by exists claim|]. split; [by repeat constructor|].
  split; [done|]. split; [done|]. split; [by split; [|eexists]|].
  split; [lia|]. split; [by split; [intros [? ?]|]|].
  split; [done|]. split; [done|]. split; [done|]. split; [lia|].
  by intros ? [= <-].
Qed.

Lemma claim_txn_step_facts (claims : list Claim) (claim : Claim) (j : Z)
    (st : Z * list ClaimTxn) :
  claim ∈ get_active_claims claims →
  claim_txns_rows claims st →
  ensures (claim_txn_step claim j st)
    (λ c, claim_txns_rows claims (ctl_state c)).
Proof.
  intros Hin (Hlen & Hid & Hst). unfold claim_txn_step.
  destruct (NUM_CLAIM_TRANSACTIONS <? st.1) eqn:Hcap;
    [by apply ensures_ret|].
  apply Z.ltb_ge in Hcap.
  ens_bind as txn_type Hty. ens_bind as txn_date Hdate. ens_bind as k Hk.
  eapply (ensures_bind _ _
    (λ cd, (is_Some cd ↔ txn_type = "PAYMENT") ∧
           ∀ d, cd = Some d →
             dt_day txn_date + k ≤ d ≤ dt_day txn_date + k + 10)).
  { destruct (String.eqb txn_type "PAYMENT") eqn:E.
    - apply String.eqb_eq in E. ens_bind as k' Hk'. apply ensures_ret.
      split; [by split|]. intros d [= <-].
      unfold to_date, add_days; cbn [dt_day]. lia.
    - apply String.eqb_neq in E. apply ensures_ret.
      split; [by split; [intros [? ?]|]|done]. }
  intros check_date [Hcd Hcdr].
  ens_bind as amount _. ens_bind as k2 Hk2.
  eapply ensures_bind;
    [apply ensures_rand_ts_day; cbn [add_days dt_sec]; tauto|].
  intros load_ts [Hload _]. cbn [add_days dt_day] in Hload.
  ens_bind as category Hcat. ens_bind as chk _.
  ens_bind as check_number _. ens_bind as payee _. ens_bind as payee_name _.
  ens_bind as description _. ens_bind as created_by _.
  match goal with
  | |- context [st.2 ++ [?t]] => set (txn := t)
  end.
  assert (txn_type ≠ "VOID") as Hnv.
  { intros ->.
    repeat (apply elem_of_cons in Hty as [Hty|Hty]; [done|]).
    by apply elem_of_nil in Hty. }
  assert (Forall (claim_txn_facts claims) (st.2 ++ [txn])) as Htxn.
  { apply Forall_app. split; [done|]. constructor; [|done].
    unfold claim_txn_facts, txn, to_date.
    cbn [ctx_transaction_id ctx_claim_id ctx_claim_number ctx_transaction_type ctx_category
         ctx_is_void ctx_void_of_transaction_id ctx_transaction_date
         ctx_posting_date ctx_check_date ctx_check_number ctx_payee_name
         ctx_created_at ctx_load_ts].
    rewrite Hload. unfold to_date, add_days; cbn [dt_day].
    split; [by exists claim|]. split; [set_unfold; tauto|].
    split; [done|]. split; [done|]. split; [by split; [intros [? ?]|]|].
    split; [lia|]. split; [done|]. split; [done|]. split; [done|].
    split; [done|]. split; [lia|]. done. }
  eapply (ensures_bind _ _ (λ _, True)); [ens_triv|]. intros voided _.
  assert (claim_txns_rows claims (st.1 + 1, st.2 ++ [txn])) as Hrows.
  { split; [|split; [cbn; lia|done]].
    cbn [fst snd]. rewrite length_app. cbn [length]. lia. }
  destruct voided; [|by apply ensures_ret].
  destruct (NUM_CLAIM_TRANSACTIONS <? st.1 + 1) eqn:Hcap';
    [by apply ensures_ret|].
  apply Z.ltb_ge in Hcap'.
  eapply ensures_bind; [apply (void_txn_facts claims); tauto|].
  intros v Hv. apply ensures_ret. cbn [ctl_state].
  split; [|split; [cbn; lia|]].
  - cbn [fst snd]. rewrite !length_app. cbn [length]. lia.
  - cbn. apply Forall_app. split; [done|by constructor].
Qed.

Lemma gen_claim_transactions_facts (claims : list Claim) :
  ensures (gen_claim_transactions claims)
    (λ txns, ∃ n, claim_txns_rows claims (n, txns)).
Proof.
  unfold gen_claim_transactions.
  eapply ensures_bind.
  - apply (ensures_for_loop _ (claim_txns_rows claims)).
    + split; [done|]. split; [by vm_compute|constructor].
    + intros claim st Hc Hst. unfold claim_txns.
      ens_bind as n Hn.
      apply (ensures_for_loop _ (claim_txns_rows claims)); [done|].
      intros j st' _ Hst'. by apply claim_txn_step_facts.
  - intros c Hc. apply ensures_ret. cbv beta in *.
    destruct (ctl_state c) as [n txns]. by exists n.
Qed.

(** X10.  [gen_claim_transactions] returns at most NUM_CLAIM_TRANSACTIONS
    rows, numbered 1, 2, ... in order, each on a non-deleted claim.  A row
    is flagged is_void exactly when its type is VOID, and exactly then it
    names a voided transaction; it is posted 0 to 5 days after its
    transaction date; it has a check date exactly when it is a PAYMENT, 0 to
    10 days after the posting; a VOID has neither check number nor payee;
    the load timestamp falls 0 to 3 days after the posting; and the row a
    VOID names is the one written just before it. *)
Theorem claim_txns_are_typed (claims : list Claim) (w : World) :
  ∃ txns w',
    gen_claim_transactions claims w = Ok (txns, w') ∧
    Z.of_nat (length txns) ≤ NUM_CLAIM_TRANSACTIONS ∧
    ctx_transaction_id <$> txns = range 1 (Z.of_nat (length txns) + 1) ∧
    ∀ t, t ∈ txns →
      (∃ c, c ∈ get_active_claims claims ∧
         ctx_claim_id t = clm_claim_id c ∧
         ctx_claim_number t = clm_claim_number c) ∧
      (ctx_is_void t = true ↔ ctx_transaction_type t = "VOID") ∧
      (is_Some (ctx_void_of_transaction_id t)
         ↔ ctx_transaction_type t = "VOID") ∧
      ctx_transaction_date t ≤ ctx_posting_date t
        ≤ ctx_transaction_date t + 5 ∧
      (is_Some (ctx_check_date t) ↔ ctx_transaction_type t = "PAYMENT") ∧
      (∀ d, ctx_check_date t = Some d →
         ctx_posting_date t ≤ d ≤ ctx_posting_date t + 10) ∧
      (ctx_transaction_type t = "VOID" →
         ctx_check_number t = None ∧ ctx_payee_name t = None) ∧
      ctx_posting_date t ≤ to_date (ctx_load_ts t) ≤ ctx_posting_date t + 3 ∧
      (∀ k, ctx_void_of_transaction_id t = Some k →
         k = ctx_transaction_id t - 1).
Proof.
  destruct (ensures_and _ _ _ (gen_claim_transactions_spec claims)
              (gen_claim_transactions_facts claims) w)
    as (txns & w' & Hrun & (n & Hn & Hids & _) & (n' & Hlen' & Hn' & Hall)).
  cbn [fst snd] in *.
  assert (Z.of_nat (length txns) = n - 1) as Hlen.
  { rewrite <- (length_fmap ctx_transaction_id), Hids, length_range. lia. }
  exists txns, w'. split; [done|]. split; [lia|]. split.
  - rewrite Hlen, Hids. f_equal. lia.
  - intros t Ht. rewrite Forall_forall in Hall.
    destruct (Hall t Ht)
      as (Hc & _ & _ & Hv & Hvo & Hp & Hcd & Hcdr & Hvn & _ & Hl & Hk).
    done.
Qed.
Lemma reversal_txn_facts (policies : list Policy) (pol : Policy) (txn_id : Z)
    (txn_date eff_date : datetime) (amount : Q) :
  pol ∈ get_current_policies policies → dt_sec txn_date = 0 →
  ensures (reversal_txn pol txn_id txn_date eff_date amount)
    (premium_txn_facts policies).
Proof.
  intros Hc Hmid. unfold reversal_txn.
  ens_bind as k Hk. ens_bind as k' Hk'. ens_bind as k2 Hk2.
  ens_bind as source Hsrc. ens_bind as k3 Hk3.
  eapply ensures_bind; [by apply ensures_rand_ts_day|].
  intros load_ts [Hday _]. apply ensures_ret.
  unfold premium_txn_facts, to_date.
  cbn [ptx_transaction_id ptx_policy_id ptx_policy_number ptx_line_of_business ptx_state
       ptx_agent_id ptx_transaction_type ptx_is_reversal
       ptx_reversal_of_transaction_id ptx_transaction_date
       ptx_accounting_date ptx_booking_date ptx_accounting_period
       ptx_source_system ptx_created_at ptx_load_ts].
  rewrite Hday. unfold to_date, add_days; cbn [dt_day].
  split; [by exists pol|]. split; [by repeat constructor|].
  split; [done|]. split; [by split; [|eexists]|].
  split; [lia|]. split; [lia|]. split; [done|]. split; [done|].
  split; [done|]. split; [lia|]. by intros ? [= <-].
Qed.

Lemma premium_txn_step_facts (policies : list Policy) (pol : Policy) (j : Z)
    (st : Z * list PremTxn) :
  pol ∈ get_current_policies policies →
  premium_txns_rows policies st →
  ensures (premium_txn_step pol j st)
    (λ c, premium_txns_rows policies (ctl_state c)).
Proof.
  intros Hin (Hlen & Hid & Hst). unfold premium_txn_step.
  destruct (NUM_PREMIUM_TRANSACTIONS <? st.1) eqn:Hcap;
    [by apply ensures_ret|].
  apply Z.ltb_ge in Hcap.
  ens_bind as txn_type Hty. ens_bind as txn_date Hdate.
  ens_bind as k Hk. ens_bind as k' Hk'.
  eapply (ensures_bind _ _ (λ _, True)); [ens_triv|]. intros eff_date _.
  ens_bind as k2 Hk2.
  eapply ensures_bind;
    [apply ensures_rand_ts_day; cbn [add_days dt_sec]; tauto|].
  intros load_ts [Hload _]. cbn [add_days dt_day] in Hload.
  ens_bind as amount _. ens_bind as source Hsrc. ens_bind as u _.
  match goal with
  | |- context [st.2 ++ [?t]] => set (txn := t)
  end.
  assert (txn_type ≠ "REVERSAL") as Hnr.
  { intros ->.
    repeat (apply elem_of_cons in Hty as [Hty|Hty]; [done|]).
    by apply elem_of_nil in Hty. }
  assert (premium_txns_rows policies (st.1 + 1, st.2 ++ [txn])) as Hrows.
  { split; [|split; [cbn; lia|]].
    { cbn [fst snd]. rewrite length_app. cbn [length]. lia. }
    apply Forall_app. split; [done|]. constructor; [|done].
    unfold premium_txn_facts, txn, to_date.
    cbn [ptx_transaction_id ptx_policy_id ptx_policy_number ptx_line_of_business ptx_state
         ptx_agent_id ptx_transaction_type ptx_is_reversal
         ptx_reversal_of_transaction_id ptx_transaction_date
         ptx_accounting_date ptx_booking_date ptx_accounting_period
         ptx_source_system ptx_created_at ptx_load_ts].
    rewrite Hload. unfold to_date, add_days; cbn [dt_day].
    split; [by exists pol|]. split; [set_unfold; tauto|].
    split; [done|]. split; [by split; [intros [? ?]|]|].
    split; [lia|]. split; [lia|]. split; [done|]. split; [done|].
    split; [done|]. split; [lia|]. done. }
  destruct (Qltb u (3 # 100)); [|by apply ensures_ret].
  destruct (NUM_PREMIUM_TRANSACTIONS <? st.1 + 1) eqn:Hcap';
    [by apply ensures_ret|].
  apply Z.ltb_ge in Hcap'.
  eapply ensures_bind; [apply (reversal_txn_facts policies); tauto|].
  intros r Hr. apply ensures_ret. cbn [ctl_state].
  destruct Hrows as (Hlen' & _ & Hall).
  split; [|split; [cbn; lia|]].
  - cbn [fst snd] in *. rewrite length_app. cbn [length]. lia.
  - cbn. apply Forall_app. split; [done|by constructor].
Qed.

Lemma gen_premium_transactions_facts (policies : list Policy) :
  ensures (gen_premium_transactions policies)
    (λ txns, ∃ n, premium_txns_rows policies (n, txns)).
Proof.
  unfold gen_premium_transactions.
  eapply ensures_bind.
  - apply (ensures_for_loop _ (premium_txns_rows policies)).
    + split; [done|]. split; [by vm_compute|constructor].
    + intros pol st Hc Hst. unfold policy_premium_txns.
      ens_bind as n Hn.
      apply (ensures_for_loop _ (premium_txns_rows policies)); [done|].
      intros j st' _ Hst'. by apply premium_txn_step_facts.
  - intros c Hc. apply ensures_ret. cbv beta in *.
    destruct (ctl_state c) as [n txns]. by exists n.
Qed.

(** X11.  [gen_premium_transactions] returns at most
    NUM_PREMIUM_TRANSACTIONS rows, numbered 1, 2, ... in order; each copies
    policy number, line of business, state and agent from one current
    policy; it is flagged is_reversal exactly when its type is REVERSAL, and
    exactly then it names a reversed transaction; its accounting period is
    the year and month of its accounting date; accounting follows the
    transaction by at most 30 days and booking the accounting by at most 7;
    and the row a REVERSAL names is the one written just before it. *)
Theorem premium_txns_are_typed (policies : list Policy) (w : World) :
  ∃ txns w',
    gen_premium_transactions policies w = Ok (txns, w') ∧
    Z.of_nat (length txns) ≤ NUM_PREMIUM_TRANSACTIONS ∧
    ptx_transaction_id <$> txns = range 1 (Z.of_nat (length txns) + 1) ∧
    ∀ t, t ∈ txns →
      (∃ pol, pol ∈ get_current_policies policies ∧
         ptx_policy_id t = pol_policy_id pol ∧
         ptx_policy_number t = pol_policy_number pol ∧
         ptx_line_of_business t = pol_line_of_business pol ∧
         ptx_state t = pol_state pol ∧
         ptx_agent_id t = pol_agent_id pol) ∧
      (ptx_is_reversal t = true ↔ ptx_transaction_type t = "REVERSAL") ∧
      (is_Some (ptx_reversal_of_transaction_id t)
         ↔ ptx_transaction_type t = "REVERSAL") ∧
      ptx_accounting_date t ≤ ptx_transaction_date t + 30 ∧
      ptx_booking_date t ≤ ptx_accounting_date t + 7 ∧
      ptx_accounting_period t = year_month (ptx_accounting_date t) ∧
      ptx_accounting_date t ≤ to_date (ptx_load_ts t)
        ≤ ptx_booking_date t + 2 ∧
      (∀ k, ptx_reversal_of_transaction_id t = Some k →
         k = ptx_transaction_id t - 1).
Proof.
  destruct (ensures_and _ _ _ (gen_premium_transactions_spec policies)
              (gen_premium_transactions_facts policies) w)
    as (txns & w' & Hrun & (n & Hn & Hids & _) & (n' & Hlen' & Hn' & Hall)).
  cbn [fst snd] in *.
  assert (Z.of_nat (length txns) = n - 1) as Hlen.
  { rewrite <- (length_fmap ptx_transaction_id), Hids, length_range. lia. }
  exists txns, w'. split; [done|]. split; [lia|]. split.
  - rewrite Hlen, Hids. f_equal. lia.
  - intros t Ht. rewrite Forall_forall in Hall.
    destruct (Hall t Ht)
      as (Hc & _ & Hv & Hvo & Ha & Hb & Hp & _ & _ & Hl & Hk).
    done.
Qed.
Lemma quote_step_facts (insureds : list Insured) (agents : list Agent) (i : Z)
    (quotes : list Quote) :
  insureds ≠ [] → agents ≠ [] →
  ensures (quote_step insureds agents i quotes)
    (λ quotes', ∃ q, quotes' = quotes ++ [q] ∧ quo_quote_id q = i ∧
                     quote_facts insureds agents q).
Proof.
  intros Hi Ha. unfold quote_step.
  ens_bind as insured Hins. ens_bind as agent Hag. ens_bind as lob Hlob.
  ens_bind as quote_date Hdate. ens_bind as premium _.
  ens_bind as status Hstatus. ens_bind as reason Hreason.
  ens_bind as decline Hdecline. ens_bind as company _.
  ens_bind as competitor _. ens_bind as pid Hpid. ens_bind as bound Hbound.
  ens_bind as source Hsource. apply ensures_ret.
  eexists. split; [reflexivity|]. split; [done|].
  unfold quote_facts, to_date.
  cbn [quo_quote_number quo_quote_id quo_insured_id quo_state quo_agent_id
       quo_line_of_business quo_status quo_quote_date quo_created_at
       quo_decline_reason quo_bound_policy_id quo_source_system].
  split; [done|]. split; [by exists insured|]. split; [by exists agent|].
  split; [done|]. split; [done|]. split; [unfold to_date; tauto|].
  split; [done|]. split; [|split; [|done]].
  - intros r Hr. destruct Hdecline as [->| ->]; [done|]. by simplify_eq.
  - intros p Hp. destruct Hbound as [->| ->]; [done|]. by simplify_eq.
Qed.

(** X12.  [gen_quotes] raises [IndexError] when the pool of insureds or of
    agents is empty.  Otherwise it returns exactly NUM_QUOTES quotes,
    numbered 1, 2, ... in order, each with insured and state taken from one
    member of the insured pool and an agent of the agent pool, a line of
    business of LOB_CODES, a quote date in 2020..2025, and a bound policy
    id, when set, among 1..NUM_POLICIES. *)
Theorem quotes_are_numbered
    (insureds : list Insured) (agents : list Agent) (w : World) :
  (insureds = [] ∨ agents = [] →
   gen_quotes insureds agents w = Raise IndexError) ∧
  (insureds ≠ [] → agents ≠ [] →
   ∃ quotes w',
     gen_quotes insureds agents w = Ok (quotes, w') ∧
     Z.of_nat (length quotes) = NUM_QUOTES ∧
     quo_quote_id <$> quotes = range 1 (NUM_QUOTES + 1) ∧
     ∀ q, q ∈ quotes →
       quo_quote_number q = "QUO-" +:+ zfill 6 (quo_quote_id q) ∧
       (∃ ins, ins ∈ insureds ∧ quo_insured_id q = insured_id ins ∧
               quo_state q = ins_state ins) ∧
       (∃ ag, ag ∈ agents ∧ quo_agent_id q = agent_id ag) ∧
       quo_line_of_business q ∈ LOB_CODES ∧
       2020 ≤ year_of (quo_quote_date q) ≤ 2025 ∧
       (∀ pid, quo_bound_policy_id q = Some pid → 1 ≤ pid ≤ NUM_POLICIES)).
Proof.
  split.
  - intros Hempty. unfold gen_quotes.
    rewrite (range_cons 1) by (by vm_compute). cbn [for_each].
    unfold quote_step.
    destruct insureds as [|ins insureds]; [reflexivity|].
    destruct Hempty as [?| ->]; [done|]. reflexivity.
  - intros Hi Ha.
    assert (ensures (gen_quotes insureds agents)
              (λ quotes, quo_quote_id <$> quotes = range 1 (NUM_QUOTES + 1) ∧
                         Forall (quote_facts insureds agents) quotes)) as H.
    { unfold gen_quotes.
      apply (ensures_for_each _
        (λ seen quotes, quo_quote_id <$> quotes = seen ∧
                        Forall (quote_facts insureds agents) quotes)).
      - split; [done|constructor].
      - intros seen i quotes _ [Hids Hall].
        eapply ensures_mono; [by apply quote_step_facts|].
        intros quotes' (q & -> & Hq & Hf). split.
        + by rewrite fmap_app, Hids; cbn; rewrite Hq.
        + apply Forall_app. split; [done|by constructor]. }
    destruct (H w) as (quotes & w' & Hrun & Hids & Hall).
    exists quotes, w'. split; [done|]. split; [|split; [done|]].
    + rewrite <- (length_fmap quo_quote_id), Hids, length_range.
      by vm_compute.
    + intros q Hq. rewrite Forall_forall in Hall.
      destruct (Hall q Hq) as (Hn & Hin & Hag & Hlob & _ & Hd & _ & _ & Hb & _).
      split; [done|]. split; [done|]. split; [done|]. split; [done|].
      split; [by apply year_of_range|done].
Qed.

Lemma quotes_are_numbered_witness :
  gen_quotes [] [agent0] (world_of []) = Raise IndexError ∧
  ∃ quotes w',
    gen_quotes [insured0] [agent0] (world_of []) = Ok (quotes, w') ∧
    Z.of_nat (length quotes) = NUM_QUOTES.
Proof.
  split.
  - apply (quotes_are_numbered [] [agent0] (world_of [])). by left.
  - destruct (proj2 (quotes_are_numbered [insured0] [agent0] (world_of [])))
      as (quotes & w' & Hrun & Hlen & _); [discriminate|discriminate|].
    exists quotes, w'. split; [exact Hrun|exact Hlen].
Defined.

(** The bound policy id does not depend on the status: a quote that is
    still QUOTED can name a bound policy. *)
Example quoted_with_bound_policy :
  ∃ quotes w',
    quote_step [insured0] [agent0] 1 []
      (world_of [0; 0; 0; 0; 0; 0; 0; 0; 0; 0; three_quarters; 0]%N)
      = Ok (quotes, w') ∧
    (λ q, (quo_status q, quo_bound_policy_id q)) <$> quotes
      = [("QUOTED", Some 1)].
Proof. do 2 eexists. split; vm_compute; reflexivity. Qed.
(** [random.sample] draws without replacement: [k] elements, at distinct
    positions of the population. *)
Lemma remove_nth_perm {A} (j : nat) (l : list A) (d : A) :
  (j < length l)%nat → nth j l d :: remove_nth j l ≡ₚ l.
Proof.
  revert j. induction l as [|a l IH]; intros [|j] Hj; cbn in *; try lia.
  - done.
  - etransitivity; [apply perm_swap|]. apply perm_skip, IH. lia.
Qed.

Lemma sample_loop_facts {A} (k : nat) (pool : list A) :
  (k ≤ length pool)%nat →
  ensures (sample_loop k pool) (λ s, length s = k ∧ s ⊆+ pool).
Proof.
  revert pool. induction k as [|k IH]; intros pool Hk; cbn.
  - apply ensures_ret. split; [done|]. apply submseteq_nil_l.
  - destruct pool as [|a pool]; [cbn in Hk; lia|].
    eapply ensures_bind; [apply ensures_getrandbits|]. intros r _.
    set (j := Z.to_nat _).
    assert (j < length (a :: pool))%nat as Hj.
    { subst j.
      pose proof (Z.mod_pos_bound (Z.of_N r) (Z.of_nat (length (a :: pool)))).
      cbn [length] in *. lia. }
    eapply ensures_bind.
    + apply IH. rewrite remove_nth_length by done. cbn in *. lia.
    + intros rest [Hlen Hsub]. apply ensures_ret. split; [cbn; lia|].
      transitivity (nth j (a :: pool) a :: remove_nth j (a :: pool)).
      * by apply submseteq_skip.
      * by apply Permutation_submseteq, remove_nth_perm.
Qed.

Lemma sample_min_facts {A} (population : list A) (n : Z) :
  0 ≤ n →
  ensures (sample population (Z.min n (Z.of_nat (length population))))
    (λ s, Z.of_nat (length s) = Z.min n (Z.of_nat (length population)) ∧
          s ⊆+ population).
Proof.
  intros Hn. unfold sample.
  replace ((0 <=? _) && (_ <=? _)) with true
    by (symmetry; apply andb_true_iff; split; apply Z.leb_le; lia).
  eapply ensures_mono; [apply sample_loop_facts; lia|].
  intros s [Hlen Hsub]. split; [lia|done].
Qed.

Lemma range_app (a b c : Z) :
  a ≤ b ≤ c → range a c = range a b ++ range b c.
Proof.
  intros [Hab Hbc]. unfold range.
  replace (Z.to_nat (c - a)) with (Z.to_nat (b - a) + Z.to_nat (c - b))%nat
    by lia.
  rewrite seq_app, map_app. f_equal.
  assert (∀ n s, map (λ k, a + Z.of_nat k) (seq (s + Z.to_nat (b - a)) n)
                 = map (λ k, b + Z.of_nat k) (seq s n)) as H.
  { induction n as [|n IH]; intros s; [done|].
    cbn. f_equal; [lia|]. apply (IH (S s)). }
  apply (H _ 0%nat).
Qed.

Lemma claim_notes_facts (claim : Claim) (st : Z * list Note) :
  ensures (claim_notes claim st)
    (λ st', ∃ block, st'.2 = st.2 ++ block ∧
       st'.1 = st.1 + Z.of_nat (length block) ∧
       (1 ≤ length block ≤ 5)%nat ∧
       note_id <$> block = range st.1 st'.1 ∧
       Forall (λ n, note_entity_type n = "CLAIM" ∧
                    note_entity_id n = clm_claim_id claim ∧
                    note_entity_number n = clm_claim_number claim) block).
Proof.
  unfold claim_notes. ens_bind as n Hn.
  eapply ensures_mono.
  - apply (ensures_for_each _
      (λ seen st', ∃ block, st'.2 = st.2 ++ block ∧
         st'.1 = st.1 + Z.of_nat (length block) ∧
         length block = length seen ∧
         note_id <$> block = range st.1 st'.1 ∧
         Forall (λ n, note_entity_type n = "CLAIM" ∧
                      note_entity_id n = clm_claim_id claim ∧
                      note_entity_number n = clm_claim_number claim) block)).
    + exists []. rewrite app_nil_r. cbn.
      split; [done|]. split; [lia|]. split; [done|].
      split; [|done]. unfold range. by rewrite Z.sub_diag.
    + intros seen j st' _ (block & Hst & Hid & Hlen & Hids & Hall).
      unfold claim_note_step. ens_walk. apply ensures_ret.
      eexists (block ++ [_]). cbn [fst snd]. rewrite Hst, <- app_assoc.
      split; [done|]. rewrite !length_app. cbn [length].
      split; [lia|]. split; [lia|]. split.
      * rewrite fmap_app, Hids, range_snoc by lia. done.
      * apply Forall_app. split; [done|]. by repeat constructor.
  - intros st' (block & Hst & Hid & Hlen & Hids & Hall). exists block.
    rewrite Hlen. split; [done|]. split; [by rewrite <- Hlen|].
    split; [|done].
    assert (Z.of_nat (length (range 0 n)) = n) as Hr
      by (rewrite length_range; lia). lia.
Qed.

Lemma policy_note_facts (pol : Policy) (st : Z * list Note) :
  ensures (policy_note pol st)
    (λ st', ∃ n, st'.2 = st.2 ++ [n] ∧ st'.1 = st.1 + 1 ∧
       note_id n = st.1 ∧ note_entity_type n = "POLICY" ∧
       note_entity_id n = pol_policy_id pol ∧
       note_entity_number n = pol_policy_number pol).
Proof.
  unfold policy_note. ens_walk. apply ensures_ret. by eexists.
Qed.

(** X13.  [gen_unstructured_notes] returns for all inputs.  Its notes are
    numbered 1, 2, ... in order; first come the notes of
    min(1500, number of non-deleted claims) claims, drawn without
    replacement from the non-deleted claims, one to five notes each; then
    exactly one note for each of min(1000, number of current policies)
    policies, drawn without replacement from the current policies.  Each
    note carries the id and the number of its claim or policy. *)
Theorem notes_are_ordered (claims : list Claim) (policies : list Policy)
    (w : World) :
  ∃ notes w',
    gen_unstructured_notes claims policies w = Ok (notes, w') ∧
    note_id <$> notes = range 1 (Z.of_nat (length notes) + 1) ∧
    ∃ sampled_claims sampled_policies blocks policy_notes,
      notes = concat blocks ++ policy_notes ∧
      sampled_claims ⊆+ get_active_claims claims ∧
      Z.of_nat (length sampled_claims)
        = Z.min 1500 (Z.of_nat (length (get_active_claims claims))) ∧
      Forall2 claim_notes_of sampled_claims blocks ∧
      sampled_policies ⊆+ get_current_policies policies ∧
      Z.of_nat (length sampled_policies)
        = Z.min 1000 (Z.of_nat (length (get_current_policies policies))) ∧
      Forall2 policy_note_of sampled_policies policy_notes.
Proof.
  assert (ensures (gen_unstructured_notes claims policies)
    (λ notes,
       note_id <$> notes = range 1 (Z.of_nat (length notes) + 1) ∧
       ∃ sc sp blocks pn,
         notes = concat blocks ++ pn ∧
         sc ⊆+ get_active_claims claims ∧
         Z.of_nat (length sc)
           = Z.min 1500 (Z.of_nat (length (get_active_claims claims))) ∧
         Forall2 claim_notes_of sc blocks ∧
         sp ⊆+ get_current_policies policies ∧
         Z.of_nat (length sp)
           = Z.min 1000 (Z.of_nat (length (get_current_policies policies))) ∧
         Forall2 policy_note_of sp pn)) as H.
  { unfold gen_unstructured_notes.
    eapply ensures_bind; [by apply sample_min_facts|].
    intros sc [Hsc_len Hsc]. cbv beta in Hsc_len.
    eapply ensures_bind.
    { apply (ensures_for_each _
        (λ seen st, st.1 = 1 + Z.of_nat (length st.2) ∧
           note_id <$> st.2 = range 1 st.1 ∧
           ∃ blocks, st.2 = concat blocks ∧
                     Forall2 claim_notes_of seen blocks)).
      - split; [done|]. split; [done|]. exists []. by split; [|constructor].
      - intros seen claim st _ (Hid & Hids & blocks & Hst & Hb).
        eapply ensures_mono; [apply claim_notes_facts|].
        intros st' (block & Hst' & Hid' & Hlen & Hids' & Hall).
        rewrite Hst'. split; [rewrite length_app; lia|]. split.
        + rewrite fmap_app, Hids, Hids'.
          by rewrite <- (range_app 1 st.1 st'.1) by lia.
        + exists (blocks ++ [block]). split.
          * rewrite concat_app, Hst. cbn. by rewrite app_nil_r.
          * apply Forall2_app; [done|]. constructor; [by split|constructor]. }
    intros st (Hid & Hids & blocks & Hst & Hb). cbv beta in *.
    eapply ensures_bind; [by apply sample_min_facts|].
    intros sp [Hsp_len Hsp]. cbv beta in Hsp_len.
    eapply ensures_bind.
    { apply (ensures_for_each _
        (λ seen st', st'.1 = 1 + Z.of_nat (length st'.2) ∧
           note_id <$> st'.2 = range 1 st'.1 ∧
           ∃ pn, st'.2 = st.2 ++ pn ∧ Forall2 policy_note_of seen pn)).
      - split; [done|]. split; [done|]. exists [].
        rewrite app_nil_r. by split; [|constructor].
      - intros seen pol st' _ (Hid' & Hids' & pn & Hst' & Hpn).
        eapply ensures_mono; [apply policy_note_facts|].
        intros st'' (n & Hst'' & Hid'' & Hn & Hty & Hk & Hnum).
        rewrite Hst''. split; [rewrite length_app; cbn [length]; lia|]. split.
        + rewrite fmap_app, Hids', Hid'', range_snoc by lia. cbn.
          by rewrite Hn.
        + exists (pn ++ [n]). split; [by rewrite Hst', <- app_assoc|].
          apply Forall2_app; [done|].
          constructor; [by repeat split|constructor]. }
    intros st' (Hid' & Hids' & pn & Hst' & Hpn). apply ensures_ret.
    split.
    - rewrite Hids'. f_equal. lia.
    - exists sc, sp, blocks, pn. rewrite Hst', Hst. done. }
  destruct (H w) as (notes & w' & Hrun & Hnotes). by exists notes, w'.
Qed.
(** The calendar: [year_of] inverts [days_before_year]. *)
Lemma year_of_spec (d y : Z) :
  1 ≤ y → days_before_year y < d ≤ days_before_year (y + 1) → year_of d = y.
Proof.
  intros Hy Hd. unfold year_of, ymd_of, days_before_year in *.
  cbv zeta.
  destruct ((((d - 1) mod 146097 mod 36524 mod 1461 / 365 =? 4)
             || ((d - 1) mod 146097 / 36524 =? 4))) eqn:E.
  - cbn [fst]. apply orb_true_iff in E as [E|E]; apply Z.eqb_eq in E;
      Z.div_mod_to_equations; lia.
  - apply orb_false_iff in E as [E1 E2].
    apply Z.eqb_neq in E1, E2.
    assert (((d - 1) / 146097 * 400 + 1 + (d - 1) mod 146097 / 36524 * 100 +
             (d - 1) mod 146097 mod 36524 / 1461 * 4 +
             (d - 1) mod 146097 mod 36524 mod 1461 / 365) = y) as Hyear.
    { Z.div_mod_to_equations. lia. }
    match goal with
    | |- (if ?c then _ else _).1.1 = _ => destruct c
    end; cbn [fst]; exact Hyear.
Qed.
(** [round(x, 2)] keeps a value between two whole numbers between them and
    returns a whole number of hundredths. *)
Lemma py_round_2_bounds (x : Q) (lo hi : Z) :
  (inject_Z lo <= x)%Q → (x <= inject_Z hi)%Q →
  (inject_Z lo <= py_round x 2)%Q ∧ (py_round x 2 <= inject_Z hi)%Q ∧
  ∃ cents : Z, (py_round x 2 == cents # 100)%Q.
Proof.
  intros Hlo Hhi. unfold py_round. change (10 ^ 2) with 100.
  set (s := (x * inject_Z 100)%Q). set (f := Qfloor s).
  pose proof (Qfloor_le s) as Hf1. pose proof (Qlt_floor s) as Hf2.
  fold f in Hf1, Hf2.
  assert (lo * 100 ≤ f) as Hlo'.
  { rewrite <- (Qfloor_Z (lo * 100)). apply Qfloor_resp_le. subst s.
    rewrite inject_Z_mult. apply Qmult_le_compat_r; [done|]. done. }
  assert (f ≤ hi * 100) as Hhi'.
  { rewrite <- (Qfloor_Z (hi * 100)). apply Qfloor_resp_le. subst s.
    rewrite inject_Z_mult. apply Qmult_le_compat_r; [done|]. done. }
  set (r := if Qltb (s - inject_Z f) (1 # 2) then f
            else if Qltb (1 # 2) (s - inject_Z f) then f + 1
            else if Z.even f then f else f + 1).
  assert (lo * 100 ≤ r ≤ hi * 100) as Hr.
  { subst r. destruct (Qltb (s - inject_Z f) (1 # 2)) eqn:E; [lia|].
    assert (f < hi * 100).
    { unfold Qltb in E. apply negb_false_iff, Qle_bool_iff in E.
      destruct (Z.eq_dec f (hi * 100)) as [Heq|]; [|lia]. exfalso.
      assert (s <= inject_Z f)%Q.
      { rewrite Heq, inject_Z_mult. subst s.
        apply Qmult_le_compat_r; [done|]. done. }
      lra. }
    destruct (Qltb (1 # 2) (s - inject_Z f)); [lia|]. destruct (Z.even f); lia. }
  assert (Qred (inject_Z r / inject_Z 100) == r # 100)%Q as Heq.
  { rewrite Qred_correct. unfold Qdiv, Qinv, Qeq, Qmult; cbn. lia. }
  split; [|split].
  - rewrite Heq. unfold Qle; cbn. lia.
  - rewrite Heq. unfold Qle; cbn. lia.
  - by exists r.
Qed.

Lemma uniform_bounds (a b : Q) :
  (a <= b)%Q → ensures (uniform a b) (λ x, (a <= x)%Q ∧ (x <= b)%Q).
Proof.
  intros Hab. unfold uniform, random.
  eapply (ensures_bind _ _ (λ u, (0 <= u)%Q ∧ (u <= 1)%Q)).
  { eapply ensures_bind; [apply ensures_getrandbits|]. intros r _.
    apply ensures_ret.
    pose proof (Z.mod_pos_bound (Z.of_N r) (2 ^ 53) eq_refl) as Hr.
    unfold Qle; cbn -[Z.pow Z.modulo]. lia. }
  intros u [Hu0 Hu1]. apply ensures_ret. rewrite Qred_correct. nra.
Qed.

Lemma ensures_rand_amount_bounds (lo hi : Z) :
  lo ≤ hi →
  ensures (rand_amount (inject_Z lo) (inject_Z hi))
    (λ q, (inject_Z lo <= q)%Q ∧ (q <= inject_Z hi)%Q ∧
          ∃ cents : Z, (q == cents # 100)%Q).
Proof.
  intros Hle. unfold rand_amount.
  eapply ensures_bind; [apply uniform_bounds; by rewrite <- Zle_Qle|].
  intros u [Hu1 Hu2]. apply ensures_ret. by apply py_round_2_bounds.
Qed.

(** X16.  [round(random.uniform(lo, hi), 2)] between two whole numbers
    [lo <= hi] returns an amount between them with two decimals; so
    [rand_premium] returns one between 200 and 25000. *)
Theorem rand_amounts_in_range (lo hi : Z) (w : World) :
  (lo ≤ hi →
   ∃ q w',
     rand_amount (inject_Z lo) (inject_Z hi) w = Ok (q, w') ∧
     (inject_Z lo <= q)%Q ∧ (q <= inject_Z hi)%Q ∧
     ∃ cents : Z, (q == cents # 100)%Q) ∧
  (∃ q w',
     rand_premium w = Ok (q, w') ∧
     (200 <= q)%Q ∧ (q <= 25000)%Q ∧ ∃ cents : Z, (q == cents # 100)%Q).
Proof.
  split.
  - intros Hle.
    destruct (ensures_rand_amount_bounds lo hi Hle w) as (q & w' & Hrun & H).
    by exists q, w'.
  - destruct (ensures_rand_amount_bounds 200 25000 ltac:(lia) w)
      as (q & w' & Hrun & H).
    by exists q, w'.
Qed.

Lemma rand_amounts_in_range_witness :
  ∃ q w',
    rand_amount (inject_Z 0) (inject_Z 150000) (world_of [half]) = Ok (q, w') ∧
    (inject_Z 0 <= q)%Q ∧ (q <= inject_Z 150000)%Q ∧
    ∃ cents : Z, (q == cents # 100)%Q.
Proof.
  apply (proj1 (rand_amounts_in_range 0 150000 (world_of [half]))). lia.
Defined.
Lemma days_before_year_succ (y : Z) :
  days_before_year (y + 1)
  = days_before_year y + (if is_leap y then 366 else 365).
Proof.
  unfold days_before_year, is_leap. cbv zeta.
  replace (y + 1 - 1) with y by lia.
  destruct (y mod 4 =? 0) eqn:E4; destruct (y mod 100 =? 0) eqn:E100;
    destruct (y mod 400 =? 0) eqn:E400; cbn [andb orb negb];
    rewrite ?Z.eqb_eq, ?Z.eqb_neq in *; Z.div_mod_to_equations; lia.
Qed.

Lemma year_start (y : Z) : dt_day (mk_datetime y 1 1) = days_before_year y + 1.
Proof.
  unfold mk_datetime, days_before_month. cbn [dt_day].
  change (nth (Z.to_nat (1 - 1)) _ 0) with 0.
  change (2 <? 1) with false. cbn [andb]. lia.
Qed.

Lemma year_end (y : Z) :
  dt_day (mk_datetime y 12 31) = days_before_year (y + 1).
Proof.
  rewrite days_before_year_succ. unfold mk_datetime, days_before_month.
  cbn [dt_day]. change (nth (Z.to_nat (12 - 1)) _ 0) with 334.
  change (2 <? 12) with true. cbn [andb]. destruct (is_leap y); lia.
Qed.

Lemma days_before_year_mono (y1 y2 : Z) :
  y1 ≤ y2 → days_before_year y1 ≤ days_before_year y2.
Proof.
  intros H. unfold days_before_year. cbv zeta.
  Z.div_mod_to_equations. lia.
Qed.

Lemma year_of_between (s e d : Z) :
  1 ≤ s → days_before_year s < d ≤ days_before_year (e + 1) →
  s ≤ year_of d ≤ e.
Proof.
  intros Hs [Hlo Hhi].
  assert (s ≤ e) as Hse.
  { destruct (Z.le_gt_cases s e) as [|Hlt]; [done|].
    pose proof (days_before_year_mono (e + 1) s). lia. }
  assert (∀ n : nat, ∀ e, e = s + Z.of_nat n →
            d ≤ days_before_year (e + 1) → s ≤ year_of d ≤ e) as Hind.
  { induction n as [|n IH]; intros e' -> Hd.
    - rewrite (year_of_spec d s); [lia|lia|].
      replace (s + Z.of_nat 0) with s in Hd by lia. lia.
    - destruct (Z.le_gt_cases d (days_before_year (s + Z.of_nat (S n))))
        as [Hle|Hgt].
      + assert (s ≤ year_of d ≤ s + Z.of_nat n); [|lia].
        apply IH; [done|].
        replace (s + Z.of_nat n + 1) with (s + Z.of_nat (S n)) by lia. done.
      + rewrite (year_of_spec d (s + Z.of_nat (S n))); lia. }
  apply (Hind (Z.to_nat (e - s))); [lia|done].
Qed.

(** X14.  For years [start_year <= end_year] that [datetime] accepts (1 to
    9999), [rand_date] returns a midnight whose year lies between the two;
    for an end year before the start year it raises [ValueError]. *)
Theorem rand_date_years (start_year end_year : Z) (w : World) :
  1 ≤ start_year ≤ 9999 → 1 ≤ end_year ≤ 9999 →
  (start_year ≤ end_year →
   ∃ t w', rand_date start_year end_year w = Ok (t, w') ∧ dt_sec t = 0 ∧
           start_year ≤ year_of (to_date t) ≤ end_year) ∧
  (end_year < start_year →
   rand_date start_year end_year w = Raise ValueError).
Proof.
  intros [Hs _] [He _]. split.
  - intros Hle.
    assert (dt_day (mk_datetime start_year 1 1)
            ≤ dt_day (mk_datetime end_year 12 31)) as Hdays.
    { rewrite year_start, year_end.
      pose proof (days_before_year_mono start_year end_year Hle).
      pose proof (days_before_year_succ end_year).
      destruct (is_leap end_year); lia. }
    destruct (ensures_rand_date start_year end_year Hdays w)
      as (t & w' & Hrun & Hd & Hsec).
    exists t, w'. split; [done|]. split; [done|].
    rewrite year_start, year_end in Hd.
    apply year_of_between; [done|]. unfold to_date. lia.
  - intros Hlt. unfold rand_date. cbv zeta. unfold randint.
    rewrite year_start, year_end.
    pose proof (days_before_year_mono (end_year + 1) start_year ltac:(lia)).
    destruct (0 <=? _) eqn:E; [|done]. apply Z.leb_le in E. lia.
Qed.

Lemma rand_date_years_witness :
  (2020 ≤ 2025 →
   ∃ t w', rand_date 2020 2025 (world_of []) = Ok (t, w') ∧ dt_sec t = 0 ∧
           2020 ≤ year_of (to_date t) ≤ 2025) ∧
  (2025 < 2020 → rand_date 2020 2025 (world_of []) = Raise ValueError).
Proof. apply (rand_date_years 2020 2025 (world_of [])); lia. Defined.

(** X15.  [rand_ts] adds less than a day: the result is a well-formed time
    at most 23:59:59 after its argument, on the same day when the argument
    is a midnight. *)
Theorem rand_ts_within_a_day (base : datetime) (w : World) :
  0 ≤ dt_sec base < 86400 →
  ∃ t w',
    rand_ts base w = Ok (t, w') ∧
    0 ≤ dt_sec t < 86400 ∧
    0 ≤ (dt_day t - dt_day base) * 86400 + dt_sec t - dt_sec base ≤ 86399 ∧
    (dt_sec base = 0 → dt_day t = dt_day base).
Proof.
  intros Hb.
  assert (ensures (rand_ts base)
    (λ t, 0 ≤ dt_sec t < 86400 ∧
          0 ≤ (dt_day t - dt_day base) * 86400 + dt_sec t - dt_sec base
            ≤ 86399)) as H.
  { unfold rand_ts.
    ens_bind as h Hh. ens_bind as m Hm. ens_bind as s Hs.
    apply ensures_ret. unfold add_hms. cbn [dt_day dt_sec].
    Z.div_mod_to_equations. lia. }
  destruct (H w) as (t & w' & Hrun & Hsec & Hoff).
  exists t, w'. split; [done|]. split; [done|]. split; [done|].
  intros Hmid. lia.
Qed.

Lemma rand_ts_within_a_day_witness :
  ∃ t w',
    rand_ts (mk_datetime 2020 1 1) (world_of []) = Ok (t, w') ∧
    0 ≤ dt_sec t < 86400 ∧
    0 ≤ (dt_day t - dt_day (mk_datetime 2020 1 1)) * 86400 + dt_sec t
        - dt_sec (mk_datetime 2020 1 1) ≤ 86399 ∧
    (dt_sec (mk_datetime 2020 1 1) = 0 →
     dt_day t = dt_day (mk_datetime 2020 1 1)).
Proof.
  apply (rand_ts_within_a_day (mk_datetime 2020 1 1) (world_of [])).
  by vm_compute.
Defined.

(** X17.  [maybe_null] returns the value or None; with a null share of 0 or
    less it always returns the value, with a share of 1 or more always
    None. *)
Theorem maybe_null_extremes {A} (value : A) (null_pct : Q) (w : World) :
  ∃ o w',
    maybe_null value null_pct w = Ok (o, w') ∧
    (o = None ∨ o = Some value) ∧
    ((null_pct <= 0)%Q → o = Some value) ∧
    ((1 <= null_pct)%Q → o = None).
Proof.
  unfold maybe_null, random.
  do 2 eexists. split; [reflexivity|].
  set (r := rand_tape w (rand_pos w)).
  pose proof (Z.mod_pos_bound (Z.of_N r) (2 ^ 53) eq_refl) as Hr.
  set (u := (Z.of_N r mod 2 ^ 53 # 2 ^ 53)) in *.
  assert (0 <= u)%Q as Hu0 by (unfold Qle; cbn -[Z.pow Z.modulo]; lia).
  assert (u < 1)%Q as Hu1 by (unfold Qlt; cbn -[Z.pow Z.modulo]; lia).
  unfold Qltb. destruct (Qle_bool null_pct u) eqn:E; cbn [negb].
  - apply Qle_bool_iff in E. split; [by right|]. split; [done|].
    intros Hp. lra.
  - split; [by left|]. split; [|done].
    intros Hp. assert (Qle_bool null_pct u = true) as E'; [|congruence].
    apply Qle_bool_iff. lra.
Qed.

(** X18.  Without a current policy [gen_claims] raises [IndexError] (it
    draws a policy for its first claim) while [gen_coverages] and
    [gen_premium_transactions] return no rows and draw nothing; without a
    non-deleted claim [gen_claim_transactions] returns no rows; and with
    neither, [gen_unstructured_notes] returns no notes. *)
Theorem generators_on_empty_input (policies : list Policy)
    (claims : list Claim) (w : World) :
  (get_current_policies policies = [] →
   gen_claims policies w = Raise IndexError ∧
   gen_coverages policies w = Ok ([], w) ∧
   gen_premium_transactions policies w = Ok ([], w)) ∧
  (get_active_claims claims = [] →
   gen_claim_transactions claims w = Ok ([], w)) ∧
  (get_current_policies policies = [] → get_active_claims claims = [] →
   gen_unstructured_notes claims policies w = Ok ([], w)).
Proof.
  split; [|split].
  - intros H. unfold gen_claims, gen_coverages, gen_premium_transactions.
    rewrite H. split; [|done].
    rewrite (range_cons 1) by done. done.
  - intros H. unfold gen_claim_transactions. by rewrite H.
  - intros Hp Hc. unfold gen_unstructured_notes. by rewrite Hp, Hc.
Qed.

Lemma generators_on_empty_input_witness :
  gen_claims [] (world_of []) = Raise IndexError ∧
  gen_coverages [] (world_of []) = Ok ([], world_of []) ∧
  gen_premium_transactions [] (world_of []) = Ok ([], world_of []).
Proof.
  by apply (proj1 (generators_on_empty_input [] [] (world_of []))).
Defined.
(* ===================================================================== *)
(** ** The shape of the gold metrics                                      *)
(* ===================================================================== *)

Section OrderedDictFacts.
Context {K V : Type} `{EqDecision K}.

Lemma od_get_None (key : K) (d : list (K * V)) :
  od_get key d = None ↔ key ∉ d.*1.
Proof.
  induction d as [|[k v] d IH]; cbn.
  - split; [intros _; apply not_elem_of_nil|done].
  - destruct (decide (k = key)) as [->|Hne].
    + split; [done|]. intros Hk. exfalso. apply Hk. by left.
    + rewrite IH, not_elem_of_cons.
      split; [intros Hd; split; [congruence|done] | by intros [_ Hd]].
Qed.

Lemma od_get_Some (key : K) (d : list (K * V)) (v : V) :
  od_get key d = Some v → (key, v) ∈ d.
Proof.
  induction d as [|[k v'] d IH]; cbn; [done|].
  destruct (decide (k = key)) as [->|Hne].
  - intros [= ->]. by left.
  - intros Hget. right. by apply IH.
Qed.

Lemma od_set_keys (key : K) (v : V) (d : list (K * V)) :
  (od_set key v d).*1 = if decide (key ∈ d.*1) then d.*1 else d.*1 ++ [key].
Proof.
  induction d as [|[k v'] d IH]; cbn.
  - by rewrite decide_False by apply not_elem_of_nil.
  - destruct (decide (k = key)) as [->|Hne]; cbn.
    + by rewrite decide_True by left.
    + rewrite IH. destruct (decide (key ∈ d.*1)) as [Hin|Hnin].
      * by rewrite decide_True by (by right).
      * rewrite decide_False; [done|]. rewrite not_elem_of_cons.
        split; [congruence|done].
Qed.

Lemma od_set_NoDup (key : K) (v : V) (d : list (K * V)) :
  NoDup d.*1 → NoDup (od_set key v d).*1.
Proof.
  intros Hnd. rewrite od_set_keys. destruct (decide (key ∈ d.*1)); [done|].
  apply NoDup_app. split; [done|]. split; [|apply NoDup_singleton].
  intros x Hx ->%list_elem_of_singleton. done.
Qed.

Lemma od_set_Forall (P : K * V → Prop) (key : K) (v : V) (d : list (K * V)) :
  Forall P d → P (key, v) → Forall P (od_set key v d).
Proof.
  intros Hd Hv. induction Hd as [|[k v'] d Hkv Hd IH]; cbn.
  - by repeat constructor.
  - destruct (decide (k = key)) as [->|Hne]; by constructor.
Qed.

Lemma od_set_sum (f : V → Z) (key : K) (v : V) (d : list (K * V)) :
  zsum ((λ kv, f kv.2) <$> od_set key v d)
  = zsum ((λ kv, f kv.2) <$> d) + f v
    - match od_get key d with Some v' => f v' | None => 0 end.
Proof.
  induction d as [|[k v'] d IH]; cbn [od_set od_get].
  - cbn. lia.
  - destruct (decide (k = key)) as [->|Hne].
    + cbn. lia.
    + rewrite !fmap_cons. cbn [zsum foldr snd]. fold (zsum
        ((λ kv : K * V, f kv.2) <$> od_set key v d)).
      rewrite IH. unfold zsum. lia.
Qed.
End OrderedDictFacts.

Lemma add_claims_counts (claims : list Claim) (m : LobYear) :
  let m' := foldl add_claim m claims in
  ly_line_of_business m' = ly_line_of_business m ∧
  ly_lob_description m' = ly_lob_description m ∧
  ly_policy_year m' = ly_policy_year m ∧
  ly_policy_count m' = ly_policy_count m ∧
  ly_claim_count m' = ly_claim_count m ∧
  ly_open_claim_count m ≤ ly_open_claim_count m' ∧
  ly_closed_claim_count m ≤ ly_closed_claim_count m' ∧
  ly_open_claim_count m' + ly_closed_claim_count m'
  = ly_open_claim_count m + ly_closed_claim_count m
    + Z.of_nat (length claims).
Proof.
  revert m. induction claims as [|c claims IH]; intros m; cbn zeta.
  - cbn. repeat split; lia.
  - cbn [foldl length]. specialize (IH (add_claim m c)). cbn zeta in IH.
    destruct IH as (-> & -> & -> & -> & -> & Ho & Hc & Hsum).
    unfold add_claim in *; cbn in *.
    destruct (is_open_status (clm_claim_status c)); repeat split; lia.
Qed.

Lemma ensures_lob_name_assoc (lob : string) :
  lob ∈ LOB_CODES →
  ensures (lob_name lob) (λ n, assoc lob LOB_NAMES = Some n).
Proof.
  intros H. unfold lob_name, LOB_CODES in *.
  repeat (apply elem_of_cons in H as [->|H]; [by apply ensures_ret|]).
  by apply elem_of_nil in H.
Qed.

Lemma lob_year_ok_mono (seen more : list Policy)
    (kv : string * Z * LobYear) :
  lob_year_ok seen kv → lob_year_ok (seen ++ more) kv.
Proof.
  intros (Hk & Hd & (pol & Hpol & Hp) & Hrest).
  split; [done|]. split; [done|]. split; [|done].
  exists pol. split; [|done]. apply elem_of_app. by left.
Qed.

Lemma lob_year_step_ok (cbp : gmap Z (list Claim))
    (pw pe : gmap Z (list PremTxn)) (pol : Policy) (seen : list Policy)
    (d : list (string * Z * LobYear)) :
  pol_line_of_business pol ∈ LOB_CODES →
  lob_years_ok seen d →
  ensures (lob_year_step cbp pw pe pol d) (lob_years_ok (seen ++ [pol])).
Proof.
  intros Hlob (Hnd & Hsum & Hall). unfold lob_year_step.
  set (key := (pol_line_of_business pol, year_of (pol_effective_date pol))).
  eapply (ensures_bind _ _
    (λ m, lob_year_key m = key ∧
          assoc (ly_line_of_business m) LOB_NAMES
            = Some (ly_lob_description m) ∧
          0 ≤ ly_policy_count m ∧
          0 ≤ ly_open_claim_count m ∧ 0 ≤ ly_closed_claim_count m ∧
          ly_claim_count m = ly_open_claim_count m + ly_closed_claim_count m ∧
          ly_policy_count m
          = match od_get key d with
            | Some m' => ly_policy_count m'
            | None => 0
            end)).
  { destruct (od_get key d) as [m|] eqn:Hget.
    - apply ensures_ret. apply od_get_Some in Hget.
      rewrite Forall_forall in Hall.
      destruct (Hall _ Hget) as (Hk & Hd & _ & Hpc & Ho & Hc & Hcc).
      cbn [fst snd] in *. repeat split; try done; lia.
    - eapply ensures_bind; [by apply ensures_lob_name_assoc|].
      intros desc Hdesc. apply ensures_ret. by cbn. }
  intros m (Hk & Hd & Hpc & Ho & Hc & Hcc & Hget).
  eapply (ensures_bind _ _ (λ _, True)); [ens_triv|]. intros ep _.
  apply ensures_ret.
  match goal with
  | |- lob_years_ok _ (od_set key (foldl add_claim ?m0 ?cl) d) =>
      pose proof (add_claims_counts cl m0) as Hcounts;
      set (m' := foldl add_claim m0 cl) in *
  end.
  cbn zeta in Hcounts. cbn [add_policy ly_line_of_business ly_lob_description
    ly_policy_year ly_policy_count ly_claim_count ly_open_claim_count
    ly_closed_claim_count] in Hcounts.
  destruct Hcounts as (Hl' & Hd' & Hy' & Hpc' & Hcc' & Ho' & Hc' & Hsum').
  split; [by apply od_set_NoDup|]. split.
  - rewrite (od_set_sum ly_policy_count), Hsum, Hpc', length_app. cbn [length].
    destruct (od_get key d); lia.
  - apply od_set_Forall.
    + eapply Forall_impl; [exact Hall|]. intros kv. apply lob_year_ok_mono.
    + unfold lob_year_ok, lob_year_key in *. cbn [fst snd].
      rewrite Hl', Hd', Hy'. split; [done|]. split; [done|]. split.
      * exists pol. split; [apply elem_of_app; right; by left|].
        by injection Hk.
      * lia.
Qed.

Lemma uw_step_ok (m : LobYear) (seen : list LobYear) (l : list UwMetric) :
  Forall2 uw_of seen l →
  ensures (uw_step m l) (Forall2 uw_of (seen ++ [m])).
Proof.
  intros Hl. unfold uw_step. ens_bind as u _. apply ensures_ret.
  apply Forall2_app; [done|]. constructor; [|constructor].
  by repeat split.
Qed.

Lemma quote_metric_step_ok (q : Quote) (seen : list Quote)
    (d : list (string * Z * QuoteMetric)) :
  quo_line_of_business q ∈ LOB_CODES →
  quote_metrics_ok seen d →
  ensures (quote_metric_step q d) (quote_metrics_ok (seen ++ [q])).
Proof.
  intros Hlob (Hnd & Hsum & Hall). unfold quote_metric_step.
  set (key := (quo_line_of_business q, year_of (quo_quote_date q))).
  eapply (ensures_bind _ _
    (λ qm, quote_metric_ok (key, qm) ∧
           qm_total_quotes qm
           = match od_get key d with
             | Some qm' => qm_total_quotes qm'
             | None => 0
             end)).
  { destruct (od_get key d) as [qm|] eqn:Hget.
    - apply ensures_ret. apply od_get_Some in Hget.
      rewrite Forall_forall in Hall. split; [by apply Hall|done].
    - eapply ensures_bind; [by apply ensures_lob_name|].
      intros desc _. apply ensures_ret. split; [|done].
      unfold quote_metric_ok. cbn. repeat split; lia. }
  intros qm [(Hk & Hb & Hdc & He & Hl & Hle) Hget]. cbn [fst snd] in *.
  apply ensures_ret.
  split; [by apply od_set_NoDup|]. split.
  - rewrite (od_set_sum qm_total_quotes), Hsum, length_app.
    cbn [length qm_total_quotes]. destruct (od_get key d); lia.
  - apply od_set_Forall; [done|].
    unfold quote_metric_ok.
    cbn [fst snd qm_line_of_business qm_quote_year qm_bound_quotes
         qm_declined_quotes qm_expired_quotes qm_lost_quotes qm_total_quotes].
    split; [done|].
    destruct (String.eqb (quo_status q) "BOUND");
      destruct (String.eqb (quo_status q) "DECLINED");
      destruct (String.eqb (quo_status q) "EXPIRED");
      destruct (String.eqb (quo_status q) "LOST");
      cbn [negb andb]; lia.
Qed.

Lemma retention_step_ok (pol : Policy) (seen : list Policy)
    (d : list (string * Retention)) :
  pol_line_of_business pol ∈ LOB_CODES →
  retentions_ok seen d →
  ensures (retention_step pol d) (retentions_ok (seen ++ [pol])).
Proof.
  intros Hlob (Hnd & Hsum & Hall). unfold retention_step.
  set (key := pol_line_of_business pol).
  eapply (ensures_bind _ _
    (λ rm, retention_ok (key, rm) ∧
           rt_total_policies rm
           = match od_get key d with
             | Some rm' => rt_total_policies rm'
             | None => 0
             end)).
  { destruct (od_get key d) as [rm|] eqn:Hget.
    - apply ensures_ret. apply od_get_Some in Hget.
      rewrite Forall_forall in Hall. split; [by apply Hall|done].
    - eapply ensures_bind; [by apply ensures_lob_name|].
      intros desc _. apply ensures_ret. split; [|done].
      unfold retention_ok. cbn. repeat split; lia. }
  intros rm [(Hk & Hr & Hn & Ht) Hget]. cbn [fst snd] in *.
  apply ensures_ret.
  split; [by apply od_set_NoDup|]. split.
  - rewrite (od_set_sum rt_total_policies), Hsum, length_app.
    cbn [length rt_total_policies]. destruct (od_get key d); lia.
  - apply od_set_Forall; [done|].
    unfold retention_ok.
    cbn [fst snd rt_line_of_business rt_renewal_policies rt_new_policies
         rt_total_policies].
    split; [done|].
    destruct (bool_decide _); lia.
Qed.

Lemma finished_keys {K V} (key : V → K) (finish : V → V)
    (d : list (K * V)) :
  (∀ v, key (finish v) = key v) →
  Forall (λ kv, kv.1 = key kv.2) d →
  key <$> ((λ kv, finish kv.2) <$> d) = d.*1.
Proof.
  intros Hfin Hd. rewrite <- list_fmap_compose. symmetry.
  apply Forall_fmap_ext. eapply Forall_impl; [exact Hd|].
  intros kv Hkv. cbn. by rewrite Hfin.
Qed.

Lemma compute_gold_metrics_shape (policies : list Policy)
    (claims : list Claim) (premium_txns : list PremTxn)
    (coverages : list Coverage) (quotes : list Quote) :
  Forall (λ p, pol_line_of_business p ∈ LOB_CODES)
    (get_current_policies policies) →
  Forall (λ q, quo_line_of_business q ∈ LOB_CODES) quotes →
  ensures (compute_gold_metrics policies claims premium_txns coverages quotes)
    (gold_shape policies quotes).
Proof.
  intros Hpol Hquo. rewrite Forall_forall in Hpol. rewrite Forall_forall in Hquo.
  unfold compute_gold_metrics. cbv zeta.
  eapply ensures_bind.
  { apply (ensures_for_each _ lob_years_ok).
    - split; [constructor|]. split; [done|constructor].
    - intros seen pol d Hin Hd. apply lob_year_step_ok; [by apply Hpol|done]. }
  intros d (Hnd & Hsum & Hall). cbv beta in *.
  eapply ensures_bind.
  { apply (ensures_for_each _ (Forall2 uw_of)); [constructor|].
    intros seen m l _ Hl. by apply uw_step_ok. }
  intros uw Huw. cbv beta in *.
  eapply ensures_bind.
  { apply (ensures_for_each _ quote_metrics_ok).
    - split; [constructor|]. split; [done|constructor].
    - intros seen q qd Hin Hd.
      apply quote_metric_step_ok; [by apply Hquo|done]. }
  intros qd (Hqnd & Hqsum & Hqall). cbv beta in *.
  eapply ensures_bind.
  { apply (ensures_for_each _ retentions_ok).
    - split; [constructor|]. split; [done|constructor].
    - intros seen pol rd Hin Hd.
      apply retention_step_ok; [by apply Hpol|done]. }
  intros rd (Hrnd & Hrsum & Hrall). cbv beta in *.
  apply ensures_ret. unfold gold_shape.
  split; [|split].
  - split; [|split; [|split; [|done]]].
    + rewrite (finished_keys lob_year_key finish_lob_year); [done|done|].
      eapply Forall_impl; [exact Hall|]. by intros kv (? & _).
    + by rewrite <- list_fmap_compose.
    + intros m' Hm'. apply list_elem_of_fmap in Hm' as (kv & -> & Hkv).
      rewrite Forall_forall in Hall.
      destruct (Hall kv Hkv) as (_ & Hd & Hp & Hpc & Ho & Hc & Hcc). done.
  - split; [|split].
    + rewrite (finished_keys (λ q, (qm_line_of_business q, qm_quote_year q))
                 finish_quote_metric); [done|done|].
      eapply Forall_impl; [exact Hqall|]. by intros kv (? & _).
    + by rewrite <- list_fmap_compose.
    + intros q' Hq'. apply list_elem_of_fmap in Hq' as (kv & -> & Hkv).
      rewrite Forall_forall in Hqall.
      destruct (Hqall kv Hkv) as (_ & Hrest). done.
  - split; [|split].
    + rewrite (finished_keys rt_line_of_business finish_retention);
        [done|done|].
      eapply Forall_impl; [exact Hrall|]. by intros kv (? & _).
    + by rewrite <- list_fmap_compose.
    + intros r' Hr'. apply list_elem_of_fmap in Hr' as (kv & -> & Hkv).
      rewrite Forall_forall in Hrall.
      destruct (Hrall kv Hkv) as (_ & Hrest). done.
Qed.

(** X19.  When every current policy and every quote carries a line of
    business of LOB_CODES, [compute_gold_metrics] returns, and
    [gold_lob_year] has one row per (line of business, policy year) of a
    current policy: the keys are distinct, the policy counts add up to the
    number of current policies, every row counts at least one policy, and
    its claim count is the sum of its open and closed claim counts.
    [gold_uw] has one row per row of [gold_lob_year], in the same order,
    with the same key, premiums, losses and ratios. *)
Theorem gold_lob_year_shape (policies : list Policy) (claims : list Claim)
    (premium_txns : list PremTxn) (coverages : list Coverage)
    (quotes : list Quote) (w : World) :
  Forall (λ p, pol_line_of_business p ∈ LOB_CODES)
    (get_current_policies policies) →
  Forall (λ q, quo_line_of_business q ∈ LOB_CODES) quotes →
  ∃ ly uw qm rt w',
    compute_gold_metrics policies claims premium_txns coverages quotes w
      = Ok ((ly, uw, qm, rt), w') ∧
    NoDup (lob_year_key <$> ly) ∧
    zsum (ly_policy_count <$> ly)
      = Z.of_nat (length (get_current_policies policies)) ∧
    (∀ m, m ∈ ly →
       assoc (ly_line_of_business m) LOB_NAMES = Some (ly_lob_description m) ∧
       (∃ pol, pol ∈ get_current_policies policies ∧
               ly_line_of_business m = pol_line_of_business pol ∧
               ly_policy_year m = year_of (pol_effective_date pol)) ∧
       1 ≤ ly_policy_count m ∧
       0 ≤ ly_open_claim_count m ∧ 0 ≤ ly_closed_claim_count m ∧
       ly_claim_count m = ly_open_claim_count m + ly_closed_claim_count m) ∧
    Forall2 uw_of ly uw.
Proof.
  intros Hpol Hquo.
  destruct (compute_gold_metrics_shape policies claims premium_txns coverages
              quotes Hpol Hquo w)
    as ([[[ly uw] qm] rt] & w' & Hrun & (H1 & H2 & H3 & H4) & _).
  exists ly, uw, qm, rt, w'. done.
Qed.

Lemma gold_lob_year_shape_witness :
  ∃ ly uw qm rt w',
    compute_gold_metrics [policy0] [claim0] [] [] [] (world_of [])
      = Ok ((ly, uw, qm, rt), w') ∧
    NoDup (lob_year_key <$> ly) ∧
    zsum (ly_policy_count <$> ly)
      = Z.of_nat (length (get_current_policies [policy0])) ∧
    (∀ m, m ∈ ly →
       assoc (ly_line_of_business m) LOB_NAMES = Some (ly_lob_description m) ∧
       (∃ pol, pol ∈ get_current_policies [policy0] ∧
               ly_line_of_business m = pol_line_of_business pol ∧
               ly_policy_year m = year_of (pol_effective_date pol)) ∧
       1 ≤ ly_policy_count m ∧
       0 ≤ ly_open_claim_count m ∧ 0 ≤ ly_closed_claim_count m ∧
       ly_claim_count m = ly_open_claim_count m + ly_closed_claim_count m) ∧
    Forall2 uw_of ly uw.
Proof.
  apply (gold_lob_year_shape [policy0] [claim0] [] [] [] (world_of [])).
  - repeat constructor.
  - constructor.
Defined.

(** X20.  Under the same condition, [gold_quotes] has one row per (line of
    business, quote year) of a quote and its totals add up to the number of
    quotes; in each row the bound, declined, expired and lost counts are
    disjoint parts of the total.  [gold_retention] has one row per line of
    business of a current policy, its totals add up to the number of
    current policies, and each total is renewals plus new policies. *)
Theorem gold_quotes_and_retention_shape (policies : list Policy)
    (claims : list Claim) (premium_txns : list PremTxn)
    (coverages : list Coverage) (quotes : list Quote) (w : World) :
  Forall (λ p, pol_line_of_business p ∈ LOB_CODES)
    (get_current_policies policies) →
  Forall (λ q, quo_line_of_business q ∈ LOB_CODES) quotes →
  ∃ ly uw qm rt w',
    compute_gold_metrics policies claims premium_txns coverages quotes w
      = Ok ((ly, uw, qm, rt), w') ∧
    NoDup ((λ q, (qm_line_of_business q, qm_quote_year q)) <$> qm) ∧
    zsum (qm_total_quotes <$> qm) = Z.of_nat (length quotes) ∧
    (∀ q, q ∈ qm →
       0 ≤ qm_bound_quotes q ∧ 0 ≤ qm_declined_quotes q ∧
       0 ≤ qm_expired_quotes q ∧ 0 ≤ qm_lost_quotes q ∧
       qm_bound_quotes q + qm_declined_quotes q + qm_expired_quotes q
         + qm_lost_quotes q ≤ qm_total_quotes q) ∧
    NoDup (rt_line_of_business <$> rt) ∧
    zsum (rt_total_policies <$> rt)
      = Z.of_nat (length (get_current_policies policies)) ∧
    (∀ r, r ∈ rt →
       0 ≤ rt_renewal_policies r ∧ 0 ≤ rt_new_policies r ∧
       rt_total_policies r = rt_renewal_policies r + rt_new_policies r).
Proof.
  intros Hpol Hquo.
  destruct (compute_gold_metrics_shape policies claims premium_txns coverages
              quotes Hpol Hquo w)
    as ([[[ly uw] qm] rt] & w' & Hrun & _ & (H1 & H2 & H3) & (H4 & H5 & H6)).
  exists ly, uw, qm, rt, w'. done.
Qed.

Lemma gold_quotes_and_retention_shape_witness :
  ∃ ly uw qm rt w',
    compute_gold_metrics [policy0] [] [] [] [] (world_of [])
      = Ok ((ly, uw, qm, rt), w') ∧
    NoDup ((λ q, (qm_line_of_business q, qm_quote_year q)) <$> qm) ∧
    zsum (qm_total_quotes <$> qm) = Z.of_nat (length (@nil Quote)) ∧
    (∀ q, q ∈ qm →
       0 ≤ qm_bound_quotes q ∧ 0 ≤ qm_declined_quotes q ∧
       0 ≤ qm_expired_quotes q ∧ 0 ≤ qm_lost_quotes q ∧
       qm_bound_quotes q + qm_declined_quotes q + qm_expired_quotes q
         + qm_lost_quotes q ≤ qm_total_quotes q) ∧
    NoDup (rt_line_of_business <$> rt) ∧
    zsum (rt_total_policies <$> rt)
      = Z.of_nat (length (get_current_policies [policy0])) ∧
    (∀ r, r ∈ rt →
       0 ≤ rt_renewal_policies r ∧ 0 ≤ rt_new_policies r ∧
       rt_total_policies r = rt_renewal_policies r + rt_new_policies r).
Proof.
  apply (gold_quotes_and_retention_shape [policy0] [] [] [] []
           (world_of [])).
  - repeat constructor.
  - constructor.
Defined.

(* ===================================================================== *)
(** ** A line of business outside LOB_NAMES                               *)
(* ===================================================================== *)

Lemma assoc_lob_names (lob : string) :
  is_Some (assoc lob LOB_NAMES) ↔ lob ∈ LOB_CODES.
Proof.
  split.
  - unfold LOB_NAMES, LOB_CODES. cbn [assoc].
    repeat match goal with
           | |- context [String.eqb ?k lob] =>
               destruct (String.eqb_spec k lob) as [E|_];
                 [intros _; rewrite <- E, list_elem_of_In; cbn; tauto|]
           end.
    by intros [? ?].
  - intros H. unfold LOB_CODES in H.
    repeat (apply elem_of_cons in H as [->|H]; [by eexists|]).
    by apply elem_of_nil in H.
Qed.

Lemma lob_name_raises (lob : string) (w : World) :
  lob ∉ LOB_CODES → lob_name lob w = Raise KeyError.
Proof.
  intros H. unfold lob_name.
  destruct (assoc lob LOB_NAMES) as [n|] eqn:E; [|done].
  exfalso. apply H, assoc_lob_names. by eexists.
Qed.

(** A loop raises what its body raises at the first item that makes it
    raise, when the body returns and keeps an invariant before. *)
Lemma for_each_raises {A S} (body : A → S → M S) (I : S → Prop)
    (good : list A) (bad : A) (rest : list A) (s : S) (e : exn) (w : World) :
  I s →
  (∀ x s, x ∈ good → I s → ensures (body x s) I) →
  (∀ s w, I s → body bad s w = Raise e) →
  for_each (good ++ bad :: rest) body s w = Raise e.
Proof.
  intros Hs Hgood Hbad. revert s w Hs.
  induction good as [|x good IH]; intros s w Hs; cbn.
  - unfold mbind, M_bind. by rewrite Hbad.
  - destruct (Hgood x s ltac:(by left) Hs w) as (s' & w' & Hrun & Hs').
    unfold mbind, M_bind. rewrite Hrun. apply IH; [|done].
    intros y s'' Hy. apply Hgood. by right.
Qed.

Lemma first_bad {A} (P : A → Prop) `{∀ x, Decision (P x)} (l : list A) :
  ¬ Forall P l →
  ∃ good bad rest, l = good ++ bad :: rest ∧ Forall P good ∧ ¬ P bad.
Proof.
  induction l as [|x l IH]; intros Hl; [exfalso; apply Hl; constructor|].
  destruct (decide (P x)) as [Hx|Hx].
  - destruct IH as (good & bad & rest & -> & Hgood & Hbad).
    { intros Hl'. apply Hl. by constructor. }
    exists (x :: good), bad, rest.
    split; [done|]. split; [by constructor|done].
  - exists [], x, l. split; [done|]. split; [constructor|done].
Qed.

Lemma ensures_then_raises {A B} (m : M A) (k : A → M B) (P : A → Prop)
    (e : exn) (w : World) :
  ensures m P → (∀ a w, P a → k a w = Raise e) → (m ≫= k) w = Raise e.
Proof.
  intros Hm Hk. destruct (Hm w) as (a & w' & Hrun & Ha).
  unfold mbind, M_bind. rewrite Hrun. by apply Hk.
Qed.

(** X21.  [compute_gold_metrics] looks every line of business up in
    LOB_NAMES: when a current policy, or a quote, carries one that is not in
    LOB_CODES, it raises [KeyError] whatever the random source. *)
Theorem gold_metrics_unknown_lob (policies : list Policy)
    (claims : list Claim) (premium_txns : list PremTxn)
    (coverages : list Coverage) (quotes : list Quote) (w : World) :
  ¬ (Forall (λ p, pol_line_of_business p ∈ LOB_CODES)
       (get_current_policies policies) ∧
     Forall (λ q, quo_line_of_business q ∈ LOB_CODES) quotes) →
  compute_gold_metrics policies claims premium_txns coverages quotes w
    = Raise KeyError.
Proof.
  intros Hbad. unfold compute_gold_metrics. cbv zeta.
  destruct (decide (Forall (λ p, pol_line_of_business p ∈ LOB_CODES)
                      (get_current_policies policies))) as [Hpol|Hpol].
  - assert (¬ Forall (λ q, quo_line_of_business q ∈ LOB_CODES) quotes)
      as Hquo by tauto.
    rewrite Forall_forall in Hpol.
    eapply ensures_then_raises.
    { apply (ensures_for_each _ lob_years_ok).
      - split; [constructor|]. split; [done|constructor].
      - intros seen pol d Hin Hd.
        apply lob_year_step_ok; [by apply Hpol|done]. }
    intros d w1 _. cbv beta.
    eapply ensures_then_raises.
    { apply (ensures_for_each _ (Forall2 uw_of)); [constructor|].
      intros seen m l _ Hl. by apply uw_step_ok. }
    intros uw w2 _. cbv beta.
    destruct (first_bad _ quotes Hquo)
      as (good & bad & rest & -> & Hgood & Hbadq).
    rewrite Forall_forall in Hgood.
    unfold mbind at 1, M_bind at 1.
    rewrite (for_each_raises quote_metric_step
               (Forall (λ kv, kv.1.1 ∈ LOB_CODES)) good bad rest [] KeyError);
      [done|constructor| |].
    + intros q d' Hq Hd'. unfold quote_metric_step.
      eapply (ensures_bind _ _ (λ _, True)).
      { destruct (od_get _ d'); [by apply ensures_ret|].
        eapply ensures_bind; [apply ensures_lob_name; by apply Hgood|].
        intros desc _. by apply ensures_ret. }
      intros qm _. apply ensures_ret. apply od_set_Forall; [done|].
      cbn. by apply Hgood.
    + intros d' w' Hd'. unfold quote_metric_step.
      assert (od_get (quo_line_of_business bad, year_of (quo_quote_date bad))
                d' = None) as ->.
      { apply od_get_None. intros Hin.
        apply list_elem_of_fmap in Hin as ([k v] & Hk & Hkv). cbn in Hk.
        rewrite Forall_forall in Hd'. apply Hd' in Hkv.
        rewrite <- Hk in Hkv. by apply Hbadq. }
      unfold mbind, M_bind. by rewrite lob_name_raises.
  - destruct (first_bad _ _ Hpol) as (good & bad & rest & Heq & Hgood & Hbadp).
    rewrite Heq. rewrite Forall_forall in Hgood.
    unfold mbind at 1, M_bind at 1.
    rewrite (for_each_raises _ (Forall (λ kv, kv.1.1 ∈ LOB_CODES))
               good bad rest [] KeyError); [done|constructor| |].
    + intros pol d' Hp Hd'. unfold lob_year_step.
      eapply (ensures_bind _ _ (λ _, True)).
      { destruct (od_get _ d'); [by apply ensures_ret|].
        eapply ensures_bind; [apply ensures_lob_name; by apply Hgood|].
        intros desc _. by apply ensures_ret. }
      intros m _.
      eapply (ensures_bind _ _ (λ _, True)); [ens_triv|]. intros ep _.
      apply ensures_ret. apply od_set_Forall; [done|].
      cbn. by apply Hgood.
    + intros d' w' Hd'. unfold lob_year_step.
      assert (od_get (pol_line_of_business bad,
                      year_of (pol_effective_date bad)) d' = None) as ->.
      { apply od_get_None. intros Hin.
        apply list_elem_of_fmap in Hin as ([k v] & Hk & Hkv). cbn in Hk.
        rewrite Forall_forall in Hd'. apply Hd' in Hkv.
        rewrite <- Hk in Hkv. by apply Hbadp. }
      unfold mbind, M_bind. by rewrite lob_name_raises.
Qed.

Lemma gold_metrics_unknown_lob_witness :
  compute_gold_metrics [policy0] [] [] [] [quote_other_lob] (world_of [])
    = Raise KeyError.
Proof.
  apply (gold_metrics_unknown_lob [policy0] [] [] [] [quote_other_lob]
           (world_of [])).
  intros [_ H]. apply Forall_cons in H as [H _]. cbn in H.
  unfold LOB_CODES in H.
  repeat (apply elem_of_cons in H as [H|H]; [discriminate H|]).
  by apply elem_of_nil in H.
Defined.
(* ===================================================================== *)
(** ** The evaluation run                                                 *)
(* ===================================================================== *)

Section EvalRunFacts.
Context {Gold : Type}.
Variable get_gold_answer : Question → option Gold.
Variable round_float : float → Z → float.
Variable float_of_string : string → option float.
Variable str_of_float : float → string.

Local Abbreviation score := (score_question get_gold_answer round_float
                           float_of_string str_of_float).
Local Abbreviation run_with := (run_eval_loop get_gold_answer round_float
                              float_of_string str_of_float).

Lemma score_question_stub (q : Question) (text : string) :
  ∃ s, score q (call_agent text) = Ok s ∧ score_passed s = None.
Proof.
  unfold score_question, call_agent.
  cbn [a_response a_numeric_result a_sql_used default].
  destruct (is_str _ "qualitative"); [by eexists|].
  destruct (get_gold_answer q) as [gold|]; [|by eexists].
  assert (extract_number float_of_string
            "[AGENT NOT CONNECTED] – stub response" = Ok None) as Hex
    by reflexivity.
  destruct (q_expected_value q) as [ev|], (q_expected_values q) as [evs|];
    rewrite ?Hex; by eexists.
Qed.

Lemma run_eval_loop_app (agent : string → AgentAnswer)
    (questions : list Question) (results : list (@Score Gold)) :
  run_with agent questions results
  = (rs ← run_with agent questions []; mret (results ++ rs)).
Proof.
  revert results. induction questions as [|q qs IH]; intros results; cbn.
  - by rewrite app_nil_r.
  - destruct (score q (agent (q_question q))) as [s|e]; cbn; [|done].
    rewrite (IH (results ++ [s])), (IH [s]).
    destruct (run_with agent qs []) as [rs|e]; cbn; [|done].
    by rewrite <- app_assoc.
Qed.

Lemma run_eval_stub (questions : list Question) :
  ∃ results,
    run_eval get_gold_answer round_float float_of_string str_of_float
      questions = Ok results ∧
    length results = length questions ∧
    Forall (λ r, score_passed r = None) results.
Proof.
  unfold run_eval. induction questions as [|q qs IH]; cbn.
  - exists []. by repeat split.
  - destruct (score_question_stub q (q_question q)) as (s & -> & Hs). cbn.
    rewrite run_eval_loop_app.
    destruct IH as (rs & -> & Hlen & Hall). cbn.
    exists (s :: rs). split; [done|]. split; [cbn; lia|by constructor].
Qed.

Lemma zsum_app (l1 l2 : list Z) : zsum (l1 ++ l2) = zsum l1 + zsum l2.
Proof.
  unfold zsum. induction l1 as [|x l1 IH]; cbn; [done|]. rewrite IH. lia.
Qed.

Lemma zsum_add {A} (f g : A → Z) (l : list A) :
  zsum ((λ x, f x + g x) <$> l) = zsum (f <$> l) + zsum (g <$> l).
Proof.
  unfold zsum. induction l as [|x l IH]; cbn; [done|]. rewrite IH. lia.
Qed.

Lemma zsum_indicator (L : list string) (k0 : option string) (n : Z) :
  NoDup L →
  zsum ((λ k, if decide (k0 = Some k) then n else 0) <$> L)
  = if decide (k0 ∈ Some <$> L) then n else 0.
Proof.
  unfold zsum. induction 1 as [|k L Hk Hnd IH]; cbn.
  - rewrite decide_False; [done|]. apply not_elem_of_nil.
  - rewrite IH.
    destruct (decide (k0 = Some k)) as [->|Hne];
      destruct (decide (_ ∈ Some <$> L)) as [Hin|Hnin];
      destruct (decide (_ ∈ Some k :: (Some <$> L))) as [Hin'|Hnin'];
      try lia; exfalso.
    + apply list_elem_of_fmap in Hin as (k' & [= <-] & ?). done.
    + apply list_elem_of_fmap in Hin as (k' & [= <-] & ?). done.
    + apply Hnin'. by left.
    + apply Hnin'. by right.
    + apply elem_of_cons in Hin' as [?|?]; done.
Qed.

Lemma count_if_cons {A} (P : A → bool) (x : A) (l : list A) :
  count_if P (x :: l) = (if P x then 1 else 0) + count_if P l.
Proof.
  unfold count_if. rewrite filter_cons.
  destruct (P x); [rewrite decide_True by done|rewrite decide_False by done];
    cbn [length]; lia.
Qed.

Lemma count_if_bounds {A} (P : A → bool) (l : list A) :
  0 ≤ count_if P l ≤ Z.of_nat (length l).
Proof.
  induction l as [|x l IH]; [done|]. rewrite count_if_cons. cbn [length].
  destruct (P x); lia.
Qed.

Lemma count_if_impl {A} (P Q : A → bool) (l : list A) :
  (∀ x, P x = true → Q x = true) → count_if P l ≤ count_if Q l.
Proof.
  intros HPQ. induction l as [|x l IH]; [done|]. rewrite !count_if_cons.
  specialize (HPQ x). destruct (P x), (Q x); try lia.
  all: by specialize (HPQ eq_refl).
Qed.

(** Counting by group: over distinct keys that cover every counted item,
    the group counts add up to the count. *)
Lemma count_by_key {A} (key : A → option string) (P : A → bool)
    (L : list string) (l : list A) :
  NoDup L →
  (∀ x, x ∈ l → P x = true → ∃ k, key x = Some k ∧ k ∈ L) →
  zsum ((λ k, count_if P (filter (λ r, key r = Some k) l)) <$> L)
  = count_if P l.
Proof.
  intros Hnd. induction l as [|x l IH]; intros Hcover.
  - cbn. clear. unfold zsum. induction L as [|k L IHL]; [done|]. cbn.
    by rewrite IHL.
  - rewrite count_if_cons, <- IH
      by (intros y Hy; apply Hcover; by right).
    assert ((if P x then 1 else 0)
            = zsum ((λ k, if decide (key x = Some k)
                          then (if P x then 1 else 0) else 0) <$> L)) as ->.
    { rewrite (zsum_indicator L (key x) _ Hnd).
      destruct (decide (key x ∈ Some <$> L)) as [|Hnex]; [done|].
      destruct (P x) eqn:HP; [|done]. exfalso. apply Hnex.
      destruct (Hcover x ltac:(by left) HP) as (k & -> & Hk).
      apply list_elem_of_fmap. by exists k. }
    rewrite <- zsum_add. f_equal. apply list_fmap_ext. intros _ k _.
    rewrite filter_cons. destruct (decide (key x = Some k)).
    + by rewrite count_if_cons.
    + lia.
Qed.

Lemma sorted_set_spec (l : list string) :
  NoDup (sorted_set l) ∧ ∀ x, x ∈ sorted_set l ↔ x ∈ l.
Proof.
  unfold sorted_set. split.
  - rewrite merge_sort_Permutation. apply NoDup_remove_dups.
  - intros x. rewrite merge_sort_Permutation. apply elem_of_remove_dups.
Qed.

Lemma count_if_none {A} (P : A → bool) (l : list A) :
  Forall (λ x, P x = false) l → count_if P l = 0.
Proof.
  induction 1 as [|x l Hx Hl IH]; [done|].
  by rewrite count_if_cons, Hx, IH.
Qed.

Lemma count_if_all {A} (P : A → bool) (l : list A) :
  Forall (λ x, P x = true) l → count_if P l = Z.of_nat (length l).
Proof.
  induction 1 as [|x l Hx Hl IH]; [done|].
  rewrite count_if_cons, Hx, IH. cbn [length]. lia.
Qed.

Lemma count_passed_partition (results : list (@Score Gold)) :
  count_if (passed_is (Some true)) results
  + count_if (passed_is (Some false)) results
  + count_if (passed_is None) results = Z.of_nat (length results).
Proof.
  induction results as [|r rs IH]; [done|]. rewrite !count_if_cons.
  cbn [length]. unfold passed_is at 1 3 5.
  destruct (score_passed r) as [[|]|];
    repeat first [ rewrite bool_decide_eq_true_2 by done
                 | rewrite bool_decide_eq_false_2 by done ]; lia.
Qed.

(** X22.  With the agent stub as it is, [run_eval] scores every question
    for manual review and never raises, whatever the questions and the
    database: one result per question, none passed and none failed, and
    the scorecard prints no score line. *)
Theorem stub_run_is_all_manual (questions : list Question) :
  ∃ results,
    run_eval get_gold_answer round_float float_of_string str_of_float
      questions = Ok results ∧
    length results = length questions ∧
    (∀ r, r ∈ results → score_passed r = None) ∧
    sc_passed (print_scorecard results) = 0 ∧
    sc_failed (print_scorecard results) = 0 ∧
    sc_manual (print_scorecard results) = Z.of_nat (length questions) ∧
    sc_score (print_scorecard results) = None.
Proof.
  destruct (run_eval_stub questions) as (results & Hrun & Hlen & Hall).
  exists results. split; [done|]. split; [done|].
  split; [by apply Forall_forall|].
  assert (count_if (passed_is (Some true)) results = 0) as Hp.
  { apply count_if_none. eapply Forall_impl; [exact Hall|].
    intros r Hr. unfold passed_is. by rewrite Hr. }
  assert (count_if (passed_is (Some false)) results = 0) as Hf.
  { apply count_if_none. eapply Forall_impl; [exact Hall|].
    intros r Hr. unfold passed_is. by rewrite Hr. }
  assert (count_if (passed_is None) results = Z.of_nat (length results))
    as Hm.
  { apply count_if_all. eapply Forall_impl; [exact Hall|].
    intros r Hr. unfold passed_is. by rewrite Hr. }
  unfold print_scorecard. cbn [sc_passed sc_failed sc_manual sc_score].
  rewrite Hp, Hf, Hm, Hlen, Z.sub_diag. done.
Qed.

(** X23.  The scorecard adds up: passed, failed and manual review
    partition the results; the score line is printed exactly when some
    result passed or failed, and reads passed out of passed plus failed;
    when the table by category is printed its rows add up to the score
    line; and a row for the category unknown, which stands for results
    without a category, counts nothing unless a result names that category
    itself. *)
Theorem scorecard_adds_up (results : list (@Score Gold)) :
  let sc := print_scorecard results in
  sc_total sc = Z.of_nat (length results) ∧
  sc_passed sc + sc_failed sc + sc_manual sc = sc_total sc ∧
  sc_score sc
    = (if 0 <? sc_passed sc + sc_failed sc
       then Some (sc_passed sc, sc_passed sc + sc_failed sc) else None) ∧
  (sc_by_category sc ≠ [] →
   zsum ((λ row, row.1.2) <$> sc_by_category sc) = sc_passed sc ∧
   zsum ((λ row, row.2) <$> sc_by_category sc)
     = sc_passed sc + sc_failed sc) ∧
  (∀ cat p t, (cat, p, t) ∈ sc_by_category sc → 0 ≤ p ≤ t) ∧
  ((∀ r, r ∈ results → score_category r ≠ Some "unknown") →
   ∀ p t, ("unknown", p, t) ∈ sc_by_category sc → p = 0 ∧ t = 0).
Proof.
  cbv zeta. pose proof (count_passed_partition results) as Hpart.
  unfold print_scorecard.
  cbn [sc_total sc_passed sc_failed sc_manual sc_score sc_by_category].
  set (passed := count_if (passed_is (Some true)) results) in *.
  set (failed := count_if (passed_is (Some false)) results) in *.
  set (manual := count_if (passed_is None) results) in *.
  set (categories := sorted_set _).
  destruct (sorted_set_spec
              ((λ r, default "unknown" (score_category r)) <$> results))
    as [Hnd Hcat]. fold categories in Hnd, Hcat.
  split; [done|]. split; [lia|]. split.
  { by replace (Z.of_nat (length results) - manual) with (passed + failed)
      by lia. }
  assert (∀ r : @Score Gold, r ∈ results → score_passed r ≠ None →
            ∃ k, score_category r = Some k ∧ k ∈ categories) as Hcover.
  { intros r Hr Hp.
    assert (default "unknown" (score_category r) ∈ categories) as Hin.
    { apply Hcat, list_elem_of_fmap. by exists r. }
    destruct r; cbn in *; try done; by eexists. }
  split; [|split].
  - destruct (1 <? length categories)%nat; [|done]. intros _.
    rewrite <- !list_fmap_compose. split.
    + apply (count_by_key score_category (passed_is (Some true)));
        [done|].
      intros r Hr Hp. apply Hcover; [done|].
      unfold passed_is in Hp. apply bool_decide_eq_true in Hp.
      by rewrite Hp.
    + assert (passed + failed = count_if passed_is_not_none results) as ->.
      { clear. subst passed failed.
        induction results as [|r rs IH]; [done|]. rewrite !count_if_cons.
        unfold passed_is at 1 3, passed_is_not_none at 1.
        destruct (score_passed r) as [[|]|];
          repeat first [ rewrite bool_decide_eq_true_2 by done
                       | rewrite bool_decide_eq_false_2 by (by intros []) 
                       | rewrite bool_decide_eq_false_2 by done ]; lia. }
      apply (count_by_key score_category passed_is_not_none); [done|].
      intros r Hr Hp. apply Hcover; [done|].
      unfold passed_is_not_none in Hp. by apply bool_decide_eq_true in Hp.
  - intros cat p t Hrow.
    destruct (1 <? length categories)%nat; [|by apply elem_of_nil in Hrow].
    apply list_elem_of_fmap in Hrow as (c & [= -> -> ->] & _).
    split; [apply count_if_bounds|]. apply count_if_impl.
    intros r Hp. unfold passed_is in Hp. unfold passed_is_not_none.
    apply bool_decide_eq_true in Hp. apply bool_decide_eq_true.
    by rewrite Hp.
  - intros Hno p t Hrow.
    destruct (1 <? length categories)%nat; [|by apply elem_of_nil in Hrow].
    apply list_elem_of_fmap in Hrow as (c & [= <- -> ->] & _).
    rewrite (filter_none _ results); [done|].
    apply Forall_forall. intros r Hr. by apply Hno.
Qed.
End EvalRunFacts.
(* ===================================================================== *)
(** ** Numbers in the response text, and what [score_question] raises     *)
(* ===================================================================== *)

Lemma span_digits_head (c : ascii) (s : string) :
  (span_digits (String c s)).1 = EmptyString ↔ is_digit c = false.
Proof.
  cbn [span_digits]. destruct (is_digit c); [|done].
  destruct (span_digits s). by cbn.
Qed.

Lemma match_unsigned_None (s : string) :
  match_unsigned s = None ↔
  match s with String c _ => is_digit c = false | EmptyString => True end.
Proof.
  unfold match_unsigned. destruct s as [|c s]; [done|].
  pose proof (span_digits_head c s) as H.
  destruct (span_digits (String c s)) as [d r]. cbn [fst] in H.
  destruct d as [|c' d].
  - split; [intros _; by apply H|done].
  - split.
    + destruct r as [|[[] [] [] [] [] [] [] []] r]; done.
    + intros Hc. apply H in Hc. done.
Qed.

Lemma match_number_digit (c : ascii) (s : string) :
  is_digit c = true → match_number (String c s) ≠ None.
Proof.
  intros Hc Hm. unfold match_number in Hm.
  assert (match_unsigned (String c s) ≠ None) as Hu.
  { intros Hu. apply match_unsigned_None in Hu. congruence. }
  destruct c as [[] [] [] [] [] [] [] []]; try done.
Qed.

Lemma first_match_None (s : string) :
  first_match s = None ↔ has_digit s = false.
Proof.
  induction s as [|c s IH]; [done|].
  cbn [first_match has_digit]. split.
  - destruct (match_number (String c s)) eqn:Hm; [done|].
    intros Hs. apply IH in Hs. rewrite Hs, orb_false_r.
    destruct (is_digit c) eqn:Hc; [|done].
    by apply (match_number_digit c s) in Hc.
  - intros [Hc Hs]%orb_false_iff. apply IH in Hs.
    assert (match_number (String c s) = None) as ->; [|done].
    unfold match_number.
    assert (match_unsigned (String c s) = None) as Hu
      by (by apply match_unsigned_None).
    assert (match_unsigned s = None) as Hu'.
    { apply match_unsigned_None. destruct s as [|c' s']; [done|].
      cbn in Hs. rewrite IH in Hs. cbn in Hs.
      by apply orb_false_iff in Hs as [? _]. }
    destruct c as [[] [] [] [] [] [] [] []]; rewrite ?Hu, ?Hu'; done.
Qed.

Lemma has_digit_remove_char (c : ascii) (s : string) :
  is_digit c = false → has_digit (remove_char c s) = has_digit s.
Proof.
  intros Hc. induction s as [|c' s IH]; [done|]. cbn [remove_char has_digit].
  destruct (Ascii.eqb_spec c c') as [<-|Hne]; cbn [has_digit].
  - by rewrite IH, Hc.
  - by rewrite IH.
Qed.

Section ScoreFacts.
Context {Gold : Type}.
Variable get_gold_answer : Question → option Gold.
Variable round_float : float → Z → float.
Variable float_of_string : string → option float.
Variable str_of_float : float → string.

(** X24.  [extract_number] finds no number exactly in a text without a
    digit, commas, dollar and percent signs set aside; in a text with a
    digit it returns the float of the first match, or raises [ValueError]
    when [float] rejects it, and nothing else. *)
Theorem extract_number_none_iff (text : string) :
  (extract_number float_of_string text = Ok None ↔ has_digit text = false) ∧
  (has_digit text = true →
   ∃ m, first_match (remove_char "%" (remove_char "$" (remove_char "," text)))
          = Some m ∧
        extract_number float_of_string text
          = match float_of_string m with
            | Some f => Ok (Some f)
            | None => Raise ValueError
            end).
Proof.
  unfold extract_number.
  set (cleaned := remove_char "%" (remove_char "$" (remove_char "," text))).
  assert (has_digit cleaned = has_digit text) as Hclean.
  { subst cleaned. by rewrite !has_digit_remove_char. }
  pose proof (first_match_None cleaned) as Hnone. rewrite Hclean in Hnone.
  destruct (first_match cleaned) as [m|] eqn:Hm.
  - split.
    + split.
      * cbn. destruct (float_of_string m); done.
      * intros Hd. apply Hnone in Hd. done.
    + intros _. exists m. split; [done|]. cbn.
      by destruct (float_of_string m).
  - split; [split; [intros _; by apply Hnone|done]|].
    intros Hd. assert (has_digit text = false) by (by apply Hnone).
    congruence.
Qed.

(** X25.  What [score_question] raises on a question with a single
    expected value that is neither qualitative nor without gold answer:
    [TypeError] when the agent's numeric result is a dict, even if the
    question also has expected values by key; and [ValueError] when the
    tolerance is a text other than exact that is not a number, whatever
    numeric result the agent gave. *)
Theorem score_question_raises (question : Question) (answer : AgentAnswer)
    (gold : Gold) (ev : pyval) (e : float) :
  is_str (default (PyFloat f0_05) (q_tolerance question)) "qualitative"
    = false →
  get_gold_answer question = Some gold →
  q_expected_value question = Some ev →
  py_float float_of_string ev = Ok e →
  (∀ d t, a_numeric_result answer = Mapping d →
     tolerance_value float_of_string
       (default (PyFloat f0_05) (q_tolerance question)) = Ok t →
     score_question get_gold_answer round_float float_of_string str_of_float
       question answer = Raise TypeError) ∧
  (∀ s, q_tolerance question = Some (PyStr s) → s ≠ "exact" →
     float_of_string s = None →
     a_numeric_result answer ≠ Scalar PyNone →
     score_question get_gold_answer round_float float_of_string str_of_float
       question answer = Raise ValueError).
Proof.
  intros Hq Hg Hev He. split.
  - intros d t Hnum Ht. unfold score_question.
    rewrite Hq, Hg, Hev, Hnum. cbn. by rewrite He, Ht.
  - intros s Htol Hexact Hfloat Hnum. unfold score_question.
    rewrite Hq, Hg, Hev.
    assert (tolerance_value float_of_string
              (default (PyFloat f0_05) (q_tolerance question))
            = Raise ValueError) as Ht.
    { rewrite Htol. unfold tolerance_value. cbn.
      destruct (String.eqb_spec s "exact"); [done|]. by rewrite Hfloat. }
    destruct (a_numeric_result answer) as [[| | | | |]|d]; try done;
      cbn; by rewrite He, Ht.
Qed.
End ScoreFacts.

Lemma score_question_raises_witness :
  score_question gold_always round_id no_float str_empty
    question_both answer_keys = Raise TypeError.
Proof.
  apply (proj1 (score_question_raises gold_always round_id no_float str_empty
                  question_both answer_keys tt (PyFloat f0_65) f0_65
                  eq_refl eq_refl eq_refl eq_refl)
           [("loss_ratio", PyFloat f0_551); ("lob", PyStr "ho")] f0_05);
    reflexivity.
Defined.
(* ===================================================================== *)
(** ** Loading the questions                                              *)
(* ===================================================================== *)

Section OrderedDictLookup.
Context {K V : Type} `{EqDecision K}.

Lemma od_get_set (key key' : K) (v : V) (d : list (K * V)) :
  od_get key' (od_set key v d)
  = if decide (key' = key) then Some v else od_get key' d.
Proof.
  induction d as [|[k v'] d IH]; cbn.
  - destruct (decide (key = key')), (decide (key' = key)); congruence.
  - destruct (decide (k = key)) as [->|Hne]; cbn.
    + destruct (decide (key = key')), (decide (key' = key)); congruence.
    + rewrite IH.
      destruct (decide (k = key')), (decide (key' = key)); congruence.
Qed.
End OrderedDictLookup.

Section LoadQuestionsFacts.
Context {V : Type} `{EqDecision V}.
Variable of_str : string → V.
Variable hashable : V → bool.

Local Abbreviation record := (list (string * V)).

Lemma merge_gold_lookup (gold q : record) (key : string) :
  od_get key (merge_gold gold q)
  = if decide (key ∈ GOLD_KEYS)
    then match od_get key gold with
         | Some v => Some v
         | None => od_get key q
         end
    else od_get key q.
Proof.
  unfold merge_gold. generalize GOLD_KEYS. intros ks. revert q.
  induction ks as [|k ks IH]; intros q; cbn [foldl].
  - rewrite decide_False; [done|]. apply not_elem_of_nil.
  - rewrite IH.
    assert (od_get key (match od_get k gold with
                        | Some v => od_set k v q
                        | None => q
                        end)
            = if decide (key = k)
              then match od_get key gold with
                   | Some v => Some v
                   | None => od_get key q
                   end
              else od_get key q) as ->.
    { destruct (decide (key = k)) as [->|Hne].
      - destruct (od_get k gold); [|done].
        rewrite od_get_set. by rewrite decide_True.
      - destruct (od_get k gold); [|done].
        rewrite od_get_set. by rewrite decide_False. }
    destruct (decide (key = k)) as [->|Hne];
      destruct (decide (_ ∈ ks)) as [Hin|Hnin];
      destruct (decide (_ ∈ k :: ks)) as [Hin'|Hnin']; try done.
    + by destruct (od_get k gold).
    + exfalso. apply Hnin'. by left.
    + exfalso. apply Hnin'. by left.
    + exfalso. apply Hnin'. by right.
    + exfalso. apply elem_of_cons in Hin' as [?|?]; done.
Qed.

Lemma gold_index_lookup (gold_answers : list record)
    (index : list (V * record)) :
  Forall (λ g, ∃ id, od_get "id" g = Some id ∧ hashable id = true)
    gold_answers →
  ∃ index', gold_index hashable gold_answers index = Ok index' ∧
    ∀ id, od_get id index'
          = match last (filter (λ g, od_get "id" g = Some id) gold_answers)
            with
            | Some g => Some g
            | None => od_get id index
            end.
Proof.
  intros Hall. revert index.
  induction Hall as [|g gs (gid & Hg & Hh) _ IH]; intros index.
  - by exists index.
  - cbn [gold_index]. unfold getitem. rewrite Hg.
    unfold mbind, result_bind. rewrite Hh.
    destruct (IH (od_set gid g index)) as (index' & -> & Hlook).
    exists index'. split; [done|]. intros id. rewrite Hlook, filter_cons.
    rewrite Hg. destruct (decide (Some gid = Some id)) as [[= ->]|Hne].
    + destruct (filter _ gs) as [|g' l] eqn:Hf.
      * cbn. rewrite od_get_set. by rewrite decide_True.
      * rewrite last_cons_cons.
        destruct (last (g' :: l)) eqn:E; [done|]. by apply last_None in E.
    + destruct (last (filter _ gs)); [done|].
      rewrite od_get_set. rewrite decide_False; [done|]. congruence.
Qed.

Lemma merge_questions_spec (gold_by_id : list (V * record))
    (questions : list record) :
  Forall (λ q, ∃ id, od_get "id" q = Some id ∧ hashable id = true)
    questions →
  ∃ merged, merge_questions hashable gold_by_id questions = Ok merged ∧
    Forall2 (λ q q', ∃ id, od_get "id" q = Some id ∧
               q' = merge_gold (default [] (od_get id gold_by_id)) q)
      questions merged.
Proof.
  induction 1 as [|q qs (id & Hq & Hh) _ (merged & IH & Hall)].
  - exists []. by split; [|constructor].
  - cbn [merge_questions]. unfold merge_question, getitem. rewrite Hq.
    unfold mbind, result_bind. rewrite Hh, IH.
    eexists. split; [done|]. constructor; [|done]. by exists id.
Qed.

Lemma merge_questions_ids (gold_by_id : list (V * record))
    (questions merged : list record) :
  merge_questions hashable gold_by_id questions = Ok merged →
  Forall (λ q, is_Some (od_get "id" q)) merged.
Proof.
  revert merged. induction questions as [|q qs IH]; intros merged; cbn.
  - intros [= <-]. constructor.
  - unfold merge_question, getitem.
    destruct (od_get "id" q) as [id|] eqn:Hq; [|done].
    unfold mbind, result_bind. destruct (hashable id); [|done].
    destruct (merge_questions hashable gold_by_id qs) as [rest|]; [|done].
    intros [= <-]. constructor; [|by apply IH].
    rewrite merge_gold_lookup. rewrite decide_False; [by rewrite Hq|].
    unfold GOLD_KEYS. rewrite list_elem_of_In. cbn.
    intros H'; repeat (destruct H' as [H'|H']; [discriminate H'|]); done.
Qed.

Lemma filter_by_spec (key : string) (keep : V → bool)
    (questions : list record) :
  Forall (λ q, is_Some (od_get key q)) questions →
  filter_by key keep questions
  = Ok (filter (λ q, has_value key keep q = true) questions).
Proof.
  induction 1 as [|q qs [v Hq] _ IH]; [done|].
  cbn [filter_by]. unfold getitem. rewrite Hq.
  unfold mbind, result_bind. rewrite IH. rewrite filter_cons.
  assert (has_value key keep q = keep v) as Hv
    by (unfold has_value; by rewrite Hq).
  destruct (keep v);
    [rewrite decide_True by done|rewrite decide_False by (by rewrite Hv)];
    done.
Qed.

(** X26.  When every gold answer and every question has a hashable id,
    [load_questions] without filters returns the questions in their
    order, each with its own values except under the six gold keys, where
    the value of its gold answer, if that has the key, replaces its own; the
    gold answer of a question is the last one of the file with its id. *)
Theorem load_questions_merges (questions gold_answers : list record) :
  Forall (λ g, ∃ id, od_get "id" g = Some id ∧ hashable id = true)
    gold_answers →
  Forall (λ q, ∃ id, od_get "id" q = Some id ∧ hashable id = true)
    questions →
  ∃ merged,
    load_questions of_str hashable None None None questions gold_answers
      = Ok merged ∧
    Forall2
      (λ q q', ∃ id, od_get "id" q = Some id ∧
         ∀ key, od_get key q'
                = if decide (key ∈ GOLD_KEYS)
                  then match od_get key (gold_of gold_answers id) with
                       | Some v => Some v
                       | None => od_get key q
                       end
                  else od_get key q)
      questions merged.
Proof.
  intros Hg Hq. unfold load_questions.
  destruct (gold_index_lookup gold_answers [] Hg) as (index & -> & Hlook).
  unfold mbind, result_bind.
  destruct (merge_questions_spec index questions Hq) as (merged & -> & Hall).
  exists merged. split; [done|].
  eapply Forall2_impl; [exact Hall|].
  intros q q' (id & Hid & ->). exists id. split; [done|]. intros key.
  rewrite merge_gold_lookup. unfold gold_of. rewrite Hlook.
  by destruct (last _).
Qed.

(** X27.  With filters, [load_questions] returns, in their order, the
    merged questions whose id is among [ids], whose category is
    [category] and whose difficulty is [difficulty]; a filter that is None,
    an empty list or an empty text selects everything. *)
Theorem load_questions_filters (ids : option (list string))
    (category difficulty : option string)
    (questions gold_answers merged : list record) :
  load_questions of_str hashable None None None questions gold_answers
    = Ok merged →
  (is_Some (given_text category) →
   Forall (λ q, is_Some (od_get "category" q)) merged) →
  (is_Some (given_text difficulty) →
   Forall (λ q, is_Some (od_get "difficulty" q)) merged) →
  load_questions of_str hashable ids category difficulty questions
    gold_answers
  = Ok (filter (λ q, by_text of_str "difficulty" difficulty q = true)
          (filter (λ q, by_text of_str "category" category q = true)
             (filter (λ q, by_ids of_str ids q = true) merged))) ∧
  load_questions of_str hashable (Some []) (Some "") (Some "") questions
    gold_answers = Ok merged.
Proof.
  unfold load_questions. intros Hrun Hcat Hdiff.
  destruct (gold_index hashable gold_answers []) as [index|]; [|done].
  unfold mbind, result_bind in *.
  destruct (merge_questions hashable index questions) as [ms|] eqn:Hm;
    [|done].
  cbn in Hrun. injection Hrun as ->. split; [|done].
  pose proof (merge_questions_ids _ _ _ Hm) as Hids.
  assert (∀ (P : record → Prop) `{∀ q, Decision (P q)} key (l : list record),
            Forall (λ q, is_Some (od_get key q)) l →
            Forall (λ q, is_Some (od_get key q)) (filter P l)) as Hsub.
  { intros P ? key l Hl. apply Forall_forall. intros q Hq.
    apply list_elem_of_filter in Hq as [_ Hq].
    rewrite Forall_forall in Hl. by apply Hl. }
  assert (∀ l : list record, filter (λ _, true = true) l = l) as Hall.
  { intros l. apply filter_all. by apply Forall_forall. }
  unfold by_ids, by_text.
  destruct (given_ids ids) as [l|].
  - rewrite (filter_by_spec "id") by done.
    destruct (given_text category) as [c|].
    + rewrite (filter_by_spec "category") by (apply Hsub, Hcat; by eexists).
      destruct (given_text difficulty) as [d|].
      * rewrite (filter_by_spec "difficulty");
          [done|]. apply Hsub, Hsub, Hdiff. by eexists.
      * by rewrite Hall.
    + rewrite (Hall (filter _ merged)).
      destruct (given_text difficulty) as [d|].
      * rewrite (filter_by_spec "difficulty"); [done|].
        apply Hsub, Hdiff. by eexists.
      * by rewrite Hall.
  - rewrite (Hall merged).
    destruct (given_text category) as [c|].
    + rewrite (filter_by_spec "category") by (apply Hcat; by eexists).
      destruct (given_text difficulty) as [d|].
      * rewrite (filter_by_spec "difficulty");
          [done|]. apply Hsub, Hdiff. by eexists.
      * by rewrite Hall.
    + rewrite (Hall merged).
      destruct (given_text difficulty) as [d|].
      * rewrite (filter_by_spec "difficulty"); [done|].
        apply Hdiff. by eexists.
      * by rewrite Hall.
Qed.
End LoadQuestionsFacts.

Lemma load_questions_merges_witness :
  ∃ merged,
    load_questions id (λ _, true) None None None questions0 gold_answers0
      = Ok merged ∧
    Forall2
      (λ q q', ∃ id, od_get "id" q = Some id ∧
         ∀ key, od_get key q'
                = if decide (key ∈ GOLD_KEYS)
                  then match od_get key (gold_of gold_answers0 id) with
                       | Some v => Some v
                       | None => od_get key q
                       end
                  else od_get key q)
      questions0 merged.
Proof.
  apply (load_questions_merges id (λ _, true) questions0 gold_answers0).
  - constructor; [exists "lr_ho_2023"; split; vm_compute; reflexivity|].
    constructor; [exists "lr_ho_2023"; split; vm_compute; reflexivity|].
    constructor.
  - constructor; [exists "lr_ho_2023"; split; vm_compute; reflexivity|].
    constructor; [exists "explain_cdc"; split; vm_compute; reflexivity|].
    constructor.
Defined.

(** The later of two gold answers with the same id is the one merged. *)
Example load_questions_last_gold_wins :
  load_questions id (λ _, true) (Some ["lr_ho_2023"]) None (Some "")
    questions0 gold_answers0
  = Ok [[("id", "lr_ho_2023"); ("category", "loss_ratio");
         ("difficulty", "easy"); ("tolerance", "0.10");
         ("expected_value", "0.66")]].
Proof. vm_compute. reflexivity. Qed.

Lemma load_questions_filters_witness :
  load_questions id (λ _, true) (Some ["explain_cdc"]) (Some "modeling")
    None questions0 gold_answers0
  = Ok [[("id", "explain_cdc"); ("category", "modeling");
         ("difficulty", "hard")]].
Proof.
  assert (load_questions id (λ _, true) None None None questions0
            gold_answers0 = Ok merged0) as H1 by (vm_compute; reflexivity).
  assert (is_Some (given_text (Some "modeling")) →
          Forall (λ q : list (string * string),
                    is_Some (od_get "category" q)) merged0) as H2.
  { intros _. constructor; [eexists; vm_compute; reflexivity|].
    constructor; [eexists; vm_compute; reflexivity|constructor]. }
  assert (is_Some (given_text None) →
          Forall (λ q : list (string * string),
                    is_Some (od_get "difficulty" q)) merged0) as H3.
  { intros [? H]. discriminate H. }
  pose proof (proj1 (load_questions_filters id (λ _, true)
                       (Some ["explain_cdc"]) (Some "modeling") None
                       questions0 gold_answers0 merged0 H1 H2 H3)) as H.
  rewrite H. vm_compute. reflexivity.
Defined.
